(** * artPlayerJs: the decision logic of the embedded video player

    A shallow embedding of the parts of the player script that decide what
    is played and what is remembered:

    - [getCurrentAdRegion]               (ad slots by playback percentage),
    - [determinePlaybackQualityAndUrl]   (choice of the rendition),
    - [getContinueWatchingList], [saveEpisodeProgress], [getSavedEpisode]
                                         (the continue-watching store),
    - [cleanupCompletedMovies], [mergeSavedWithFreshEpisode],
    - [switchToEpisode]                  (reset of the ad session on a switch).

    The script exists in near-identical revisions.  Three of them are
    covered: revision A ([src/unnamed/part_002]: default tier 'mid', the
    continue-watching store, the ad countdown), revision B
    ([src/unnamed/part_001]: the selector without the video-type global)
    and revision C ([src/unnamed/part_000]: default tier 'low').  Line
    numbers refer to these files.

    JavaScript data is modelled by a small universe of values ([JS.value]).
    Numbers are rationals extended with NaN and the two infinities: the
    rounding of IEEE doubles is not part of the model.  Strings are byte
    strings; case and white space are handled on ASCII. *)

From Stdlib Require Import Ascii String QArith Qround ZArith Lqa.
From stdpp Require Import base strings list gmap pretty.

Open Scope string_scope.
Set Warnings "-register-all".

(** ** The fragment of JavaScript the script relies on *)

Module JS.

(** *** Numbers *)

Inductive number :=
| NaN
| Infinity (negative : bool)
| Fin (q : Q).

(** [a < b] on rationals, from the boolean [<=] of the library. *)
Definition Qlt_bool (a b : Q) : bool := negb (Qle_bool b a).

(** The relational operators; every comparison with NaN is false. *)
Definition num_lt (a b : number) : bool :=
  match a, b with
  | NaN, _ | _, NaN => false
  | Fin x, Fin y => Qlt_bool x y
  | Infinity n1, Infinity n2 => n1 && negb n2
  | Infinity n, Fin _ => n
  | Fin _, Infinity n => negb n
  end.

Definition num_le (a b : number) : bool :=
  match a, b with
  | NaN, _ | _, NaN => false
  | _, _ => negb (num_lt b a)
  end.

Definition num_gt (a b : number) : bool := num_lt b a.
Definition num_ge (a b : number) : bool := num_le b a.

Definition num_eq (a b : number) : bool :=
  match a, b with
  | Fin x, Fin y => Qeq_bool x y
  | Infinity n1, Infinity n2 => eqb n1 n2
  | _, _ => false
  end.

Definition of_Z (z : Z) : number := Fin (inject_Z z).

(** *** Values *)

Inductive value :=
| VUndefined
| VNull
| VBool (b : bool)
| VNum (n : number)
| VStr (s : string)
| VArr (items : list value)
| VObj (props : list (string * value)).

(** Objects keep their properties in property order, as JavaScript does;
    a name is looked up from the front. *)
Abbreviation props := (list (string * value)).

Fixpoint assoc (k : string) (ps : props) : option value :=
  match ps with
  | [] => None
  | (k', v) :: ps' => if String.eqb k' k then Some v else assoc k ps'
  end.

(** [o[k] = v]: an existing property keeps its place, a new one goes last. *)
Fixpoint set_prop (k : string) (v : value) (ps : props) : props :=
  match ps with
  | [] => [(k, v)]
  | (k', v') :: ps' =>
      if String.eqb k' k then (k', v) :: ps' else (k', v') :: set_prop k v ps'
  end.

(** [delete o[k]]. *)
Fixpoint delete_prop (k : string) (ps : props) : props :=
  match ps with
  | [] => []
  | (k', v') :: ps' =>
      if String.eqb k' k then delete_prop k ps' else (k', v') :: delete_prop k ps'
  end.

(** *** Exceptions *)

Inductive exn :=
| TypeError (what : string)
| SyntaxError (what : string).

Inductive completion (A : Type) :=
| Normal (a : A)
| Throw (e : exn).
Arguments Normal {A} a.
Arguments Throw {A} e.

(** Sequencing: an exception cuts the rest short. *)
Definition bind {A B : Type} (c : completion A) (k : A -> completion B)
    : completion B :=
  match c with
  | Normal a => k a
  | Throw e => Throw e
  end.

Notation "'let*' x ':=' c 'in' k" := (bind c (fun x => k))
  (at level 10, x name, c at level 100, k at level 200).

(** *** Truthiness, [typeof], property reads *)

Definition truthy (v : value) : bool :=
  match v with
  | VUndefined | VNull => false
  | VBool b => b
  | VNum NaN => false
  | VNum (Infinity _) => true
  | VNum (Fin q) => negb (Qeq_bool q 0)
  | VStr s => negb (String.eqb s "")
  | VArr _ | VObj _ => true
  end.

Definition typeof (v : value) : string :=
  match v with
  | VUndefined => "undefined"
  | VNull => "object"
  | VBool _ => "boolean"
  | VNum _ => "number"
  | VStr _ => "string"
  | VArr _ | VObj _ => "object"
  end.

(** [v.k] for a value [v] that is neither [null] nor [undefined], on the
    data fields the script reads: a primitive or an array has none of these
    fields (the built-in properties of strings and arrays, such as [length],
    are never read through this function). *)
Definition field (v : value) (k : string) : value :=
  match v with
  | VObj ps => default VUndefined (assoc k ps)
  | _ => VUndefined
  end.

Definition nullish (v : value) : bool :=
  match v with
  | VUndefined | VNull => true
  | _ => false
  end.

(** [v.k]: reading a property of [null] or [undefined] throws. *)
Definition get (v : value) (k : string) : completion value :=
  if nullish v then
    Throw (TypeError ("Cannot read properties of " +:+
                      (if v is VNull then "null" else "undefined") +:+
                      " (reading '" +:+ k +:+ "')"))
  else Normal (field v k).

(** [v?.k] *)
Definition get_opt (v : value) (k : string) : value :=
  if nullish v then VUndefined else field v k.

(** [a === b].  Objects and arrays are equal only to themselves; the
    script compares fields of objects freshly read back from JSON text with
    fields of another object, which are never the same object. *)
Definition strict_eq (a b : value) : bool :=
  match a, b with
  | VUndefined, VUndefined | VNull, VNull => true
  | VBool x, VBool y => eqb x y
  | VNum x, VNum y => num_eq x y
  | VStr x, VStr y => String.eqb x y
  | _, _ => false
  end.

(** [a || b] *)
Definition or_else (a b : value) : value := if truthy a then a else b.

(** *** Strings *)

(** [s.includes(needle)] *)
Fixpoint str_includes (needle s : string) : bool :=
  String.prefix needle s ||
  match s with
  | EmptyString => false
  | String _ s' => str_includes needle s'
  end.

Definition lower_ascii (c : ascii) : ascii :=
  let n := nat_of_ascii c in
  if (65 <=? n)%nat && (n <=? 90)%nat then ascii_of_nat (n + 32) else c.

(** [s.toLowerCase()], on the ASCII letters (the markers the script looks
    for are ASCII). *)
Fixpoint str_lower (s : string) : string :=
  match s with
  | EmptyString => EmptyString
  | String c s' => String (lower_ascii c) (str_lower s')
  end.

(** [v.includes(needle)]: defined on strings and arrays, a TypeError on
    anything else. *)
Definition includes (v : value) (needle : string) : completion bool :=
  match v with
  | VStr s => Normal (str_includes needle s)
  | VArr l => Normal (existsb (strict_eq (VStr needle)) l)
  | _ => Throw (TypeError "includes is not a function")
  end.

(** A string spliced into a template literal. *)
Definition spliced (v : value) : string := if v is VStr s then s else "".

(** [v.toLowerCase()]: defined on strings only. *)
Definition toLowerCase (v : value) : completion string :=
  match v with
  | VStr s => Normal (str_lower s)
  | _ => Throw (TypeError "toLowerCase is not a function")
  end.

(** *** Numeric conversions *)

Definition digit_of (c : ascii) : option Z :=
  let n := nat_of_ascii c in
  if (48 <=? n)%nat && (n <=? 57)%nat then Some (Z.of_nat (n - 48)) else None.

Definition hex_digit_of (c : ascii) : option Z :=
  let n := nat_of_ascii c in
  if (48 <=? n)%nat && (n <=? 57)%nat then Some (Z.of_nat (n - 48))
  else if (97 <=? n)%nat && (n <=? 102)%nat then Some (Z.of_nat (n - 87))
  else if (65 <=? n)%nat && (n <=? 70)%nat then Some (Z.of_nat (n - 55))
  else None.

(** White space, on ASCII: tab, line feed, vertical tab, form feed,
    carriage return, space. *)
Definition is_space (c : ascii) : bool :=
  let n := nat_of_ascii c in
  ((9 <=? n)%nat && (n <=? 13)%nat) || (n =? 32)%nat.

Fixpoint skip_spaces (s : string) : string :=
  match s with
  | String c s' => if is_space c then skip_spaces s' else s
  | EmptyString => EmptyString
  end.

Fixpoint trim_end (s : string) : string :=
  match s with
  | EmptyString => EmptyString
  | String c s' =>
      let t := trim_end s' in
      if is_space c && String.eqb t "" then "" else String c t
  end.

(** The longest run of decimal digits at the front of [s]: its value, its
    length and what follows it. *)
Fixpoint read_digits (s : string) (acc : Z) (n : nat) : Z * nat * string :=
  match s with
  | String c s' =>
      match digit_of c with
      | Some d => read_digits s' (10 * acc + d) (S n)
      | None => (acc, n, s)
      end
  | EmptyString => (acc, n, s)
  end.

Definition read_sign (s : string) : bool * string :=
  match s with
  | String "-" s' => (true, s')
  | String "+" s' => (false, s')
  | _ => (false, s)
  end.

(** [parseInt(s, 10)] on a string: leading white space, an optional sign,
    then the longest run of digits; NaN when there is no digit. *)
Definition parse_int (s : string) : number :=
  let '(neg, s1) := read_sign (skip_spaces s) in
  let '(z, n, _) := read_digits s1 0 0 in
  if (n =? 0)%nat then NaN else of_Z (if neg then - z else z).

(** [parseInt(v, 10)]: the argument is first turned into a string.  A
    number in decimal notation gives its integer part (numbers that
    JavaScript prints in exponent notation, at or above 1e21 or below 1e-6,
    are outside the model: the properties below take their arguments from
    [readsExactly]); an array prints as its elements joined by commas, so
    only its first element counts. *)
Fixpoint parseInt (v : value) : number :=
  match v with
  | VStr s => parse_int s
  | VNum (Fin q) => of_Z (Z.quot (Qnum q) (Zpos (Qden q)))
  | VArr (x :: _) =>
      match x with
      | VUndefined | VNull => NaN
      | _ => parseInt x
      end
  | _ => NaN
  end.



Definition num_neg (n : number) : number :=
  match n with
  | NaN => NaN
  | Infinity b => Infinity (negb b)
  | Fin q => Fin (- q)
  end.

(** The whole of [s] read as digits of radix [r]. *)
Fixpoint read_radix (r : Z) (s : string) (acc : option Z) : option Z :=
  match s with
  | EmptyString => acc
  | String c s' =>
      match hex_digit_of c with
      | Some d => if (d <? r)%Z then read_radix r s' (Some (r * default 0%Z acc + d)%Z) else None
      | None => None
      end
  end.

(** The whole of [s] read as an exponent part, or nothing. *)
Definition read_exponent (s : string) : option Z :=
  match s with
  | EmptyString => Some 0%Z
  | String c s' =>
      if Ascii.eqb c "e" || Ascii.eqb c "E" then
        let '(neg, s1) := read_sign s' in
        let '(z, n, rest) := read_digits s1 0 0 in
        if (n =? 0)%nat || negb (String.eqb rest "") then None
        else Some (if neg then - z else z)%Z
      else None
  end.

Definition unsigned_decimal (s : string) : number :=
  if String.eqb s "Infinity" then Infinity false else
  let '(i, ni, s1) := read_digits s 0 0 in
  let '(f, nf, s2) :=
    match s1 with
    | String "." s' => read_digits s' 0 0
    | _ => (0%Z, 0%nat, s1)
    end in
  if (ni + nf =? 0)%nat then NaN else
  match read_exponent s2 with
  | Some e =>
      Fin ((inject_Z i + inject_Z f / inject_Z (10 ^ Z.of_nat nf)) * Qpower 10 e)
  | None => NaN
  end.

(** The conversion of a string to a number: white space is trimmed, the
    empty string is 0, then a radix-prefixed integer or a signed decimal
    literal; anything else is NaN. *)
Definition string_to_number (s : string) : number :=
  let t := trim_end (skip_spaces s) in
  match t with
  | EmptyString => Fin 0
  | String "0" (String c r) =>
      let radix : option Z :=
        if Ascii.eqb c "x" || Ascii.eqb c "X" then Some 16%Z
        else if Ascii.eqb c "o" || Ascii.eqb c "O" then Some 8%Z
        else if Ascii.eqb c "b" || Ascii.eqb c "B" then Some 2%Z
        else None in
      match radix with
      | Some rd => match read_radix rd r None with Some z => of_Z z | None => NaN end
      | None => unsigned_decimal t
      end
  | String "-" r => num_neg (unsigned_decimal r)
  | String "+" r => unsigned_decimal r
  | _ => unsigned_decimal t
  end.

(** The conversion of a value to a number, as the relational operators
    apply it.  An object prints as "[object Object]"; an array prints as
    its elements joined by commas, with [null] and [undefined] printed as
    nothing. *)
Fixpoint to_number (v : value) : number :=
  match v with
  | VUndefined => NaN
  | VNull => Fin 0
  | VBool b => Fin (if b then 1 else 0)
  | VNum n => n
  | VStr s => string_to_number s
  | VObj _ => NaN
  | VArr [] => Fin 0
  | VArr [x] =>
      match x with
      | VUndefined | VNull => Fin 0
      | VBool _ => NaN
      | _ => to_number x
      end
  | VArr _ => NaN
  end.

(** [a > b] where [b] is a number. *)
Definition gt_num (a : value) (b : number) : bool := num_gt (to_number a) b.

(** *** Object spread and JSON *)

Fixpoint indexed (i : nat) (l : list value) : props :=
  match l with
  | [] => []
  | x :: l' => (pretty i, x) :: indexed (S i) l'
  end.

Fixpoint chars (s : string) : list value :=
  match s with
  | EmptyString => []
  | String c s' => VStr (String c EmptyString) :: chars s'
  end.

(** The own enumerable properties copied by [{...v}]. *)
Definition spread (v : value) : props :=
  match v with
  | VObj ps => ps
  | VArr l => indexed 0 l
  | VStr s => indexed 0 (chars s)
  | _ => []
  end.

(** What [JSON.parse(JSON.stringify(v))] gives back for [v] inside an array
    or an object: [undefined] and the non-finite numbers become [null] (in
    an array) and a property whose value is [undefined] is left out. *)
Fixpoint normalise (v : value) : value :=
  match v with
  | VUndefined => VNull
  | VNum (Fin q) => VNum (Fin q)
  | VNum _ => VNull
  | VArr l => VArr (map normalise l)
  | VObj ps =>
      VObj ((fix go (ps : props) : props :=
               match ps with
               | [] => []
               | (k, VUndefined) :: ps' => go ps'
               | (k, v) :: ps' => (k, normalise v) :: go ps'
               end) ps)
  | _ => v
  end.

(** The properties of an object after the round trip. *)
Definition normalise_props : props -> props :=
  fix go (ps : props) : props :=
    match ps with
    | [] => []
    | (k, VUndefined) :: ps' => go ps'
    | (k, v) :: ps' => (k, normalise v) :: go ps'
    end.

(** The text held under a key of the persistent store, by what
    [JSON.parse] makes of it: [Raw s] is a text that is not JSON (the empty
    text, a bare word such as hd, a truncated document), [Stringified v] is
    the text [JSON.stringify(v)] for an array or an object [v].  Every JSON
    text is the text of the value it parses to. *)
Inductive text :=
| Raw (s : string)
| Stringified (v : value).

Definition JSON_stringify (v : value) : text := Stringified v.

Definition JSON_parse (t : text) : completion value :=
  match t with
  | Raw s => Throw (SyntaxError "Unexpected token")
  | Stringified v => Normal (normalise v)
  end.

Definition isArray (v : value) : bool := if v is VArr _ then true else false.

End JS.

(** ** The browser and the script's globals *)

Module Browser.
Import JS.

(** The console, as far as errors and warnings go. *)
Inductive level := LogError | LogWarn.

(** The three ad slots; the script names them by the strings 'preLoll',
    'midLoll' and 'postLoll'. *)
Inductive adRegion := preLoll | midLoll | postLoll.

(** Calls into the player widget and into the host application;
    [ShowLockOverlay] is the lock layer put on display. *)
Inductive effect :=
| ArtSwitchUrl (url title : value)
| ArtNotice (message : string)
| ArtPause
| ShowLockOverlay
| CallHandler (name : string) (action : string) (data : value).

(** The ad session: one flag per slot, the ad-playing flag, and the slot
    of the countdown in progress. *)
Record adSession := {
  preAdShown : bool;
  midAdShown : bool;
  postAdShown : bool;
  isAdPlaying : bool;
  currentAdRegion : option adRegion;
  pendingAdType : option adRegion;
}.

(** The timer handles kept on [window], and the browser's own tables of
    armed interval timers and requested animation frames. *)
Record timers := {
  adCountdownInterval : option nat;
  nextEpisodeCountdownTimer : option nat;
  nextEpisodeBorderAnimation : option nat;
  intervals : gset nat;
  frames : gset nat;
}.

Record state := {
  localStorage : gmap string text;
  console : list (level * string);
  effects : list effect;
  device : option string;          (* [window.device] *)
  videoType : string;
  tempData : value;
  currentMovieData : value;
  activeQuality : string;
  ads : adSession;
  win : timers;
}.

Definition with_localStorage (x : gmap string text) (s : state) : state :=
  {| localStorage := x; console := console s; effects := effects s;
     device := device s; videoType := videoType s; tempData := tempData s;
     currentMovieData := currentMovieData s; activeQuality := activeQuality s;
     ads := ads s; win := win s |}.

Definition with_console (x : list (level * string)) (s : state) : state :=
  {| localStorage := localStorage s; console := x; effects := effects s;
     device := device s; videoType := videoType s; tempData := tempData s;
     currentMovieData := currentMovieData s; activeQuality := activeQuality s;
     ads := ads s; win := win s |}.

Definition with_effects (x : list effect) (s : state) : state :=
  {| localStorage := localStorage s; console := console s; effects := x;
     device := device s; videoType := videoType s; tempData := tempData s;
     currentMovieData := currentMovieData s; activeQuality := activeQuality s;
     ads := ads s; win := win s |}.

Definition with_videoType (x : string) (s : state) : state :=
  {| localStorage := localStorage s; console := console s; effects := effects s;
     device := device s; videoType := x; tempData := tempData s;
     currentMovieData := currentMovieData s; activeQuality := activeQuality s;
     ads := ads s; win := win s |}.

Definition with_tempData (x : value) (s : state) : state :=
  {| localStorage := localStorage s; console := console s; effects := effects s;
     device := device s; videoType := videoType s; tempData := x;
     currentMovieData := currentMovieData s; activeQuality := activeQuality s;
     ads := ads s; win := win s |}.

Definition with_currentMovieData (x : value) (s : state) : state :=
  {| localStorage := localStorage s; console := console s; effects := effects s;
     device := device s; videoType := videoType s; tempData := tempData s;
     currentMovieData := x; activeQuality := activeQuality s;
     ads := ads s; win := win s |}.

Definition with_activeQuality (x : string) (s : state) : state :=
  {| localStorage := localStorage s; console := console s; effects := effects s;
     device := device s; videoType := videoType s; tempData := tempData s;
     currentMovieData := currentMovieData s; activeQuality := x;
     ads := ads s; win := win s |}.

Definition with_ads (x : adSession) (s : state) : state :=
  {| localStorage := localStorage s; console := console s; effects := effects s;
     device := device s; videoType := videoType s; tempData := tempData s;
     currentMovieData := currentMovieData s; activeQuality := activeQuality s;
     ads := x; win := win s |}.

Definition with_win (x : timers) (s : state) : state :=
  {| localStorage := localStorage s; console := console s; effects := effects s;
     device := device s; videoType := videoType s; tempData := tempData s;
     currentMovieData := currentMovieData s; activeQuality := activeQuality s;
     ads := ads s; win := x |}.

(** [console.error], [console.warn] *)
Definition log (l : level) (message : string) (s : state) : state :=
  with_console (console s ++ [(l, message)]) s.

Definition perform (e : effect) (s : state) : state :=
  with_effects (effects s ++ [e]) s.

(** [localStorage.getItem], [localStorage.setItem] *)
Definition getItem (k : string) (s : state) : option text := localStorage s !! k.

Definition setItem (k : string) (t : text) (s : state) : state :=
  with_localStorage (<[k := t]> (localStorage s)) s.

(** Truthiness of what [getItem] returned: [null] and the empty text are
    falsy. *)
Definition present (t : option text) : bool :=
  match t with
  | None | Some (Raw EmptyString) => false
  | Some _ => true
  end.

End Browser.

(** ** Ad slots by playback position *)

Module AdRegion.
Import JS Browser.

Definition getCurrentAdRegion (percentage : number) : option adRegion :=
  if num_ge percentage (of_Z 19) && num_lt percentage (of_Z 49) then
    Some preLoll
  else if num_ge percentage (of_Z 55) && num_le percentage (of_Z 75) then
    Some midLoll
  else if num_ge percentage (of_Z 81) && num_le percentage (of_Z 100) then
    Some postLoll
  else None.

End AdRegion.

(** ** Choice of the rendition to play *)

Module Selector.
Import JS Browser.

Definition USER_QUALITY_PREFERENCE_KEY : string := "userPreferredQuality".

(** [getUserQualityPreference]: the stored tier, or [null] when nothing
    valid is stored. *)
Definition getUserQualityPreference (s : state) : option string :=
  match getItem USER_QUALITY_PREFERENCE_KEY s with
  | Some (Raw preference) =>
      if String.eqb preference "hd" || String.eqb preference "mid"
         || String.eqb preference "low"
      then Some preference else None
  | _ => None
  end.

(** [saveUserQualityPreference] *)
Definition saveUserQualityPreference (quality : string) (s : state) : state :=
  if String.eqb quality "hd" || String.eqb quality "mid" || String.eqb quality "low"
  then setItem USER_QUALITY_PREFERENCE_KEY (Raw quality) s
  else log LogWarn "Attempted to save invalid quality preference:" s.

Definition qualityOrder : list string := ["hd"; "mid"; "low"].

(** The object the selector returns, [{ url, quality }]. *)
Record playback := Playback { url : value; quality : string }.

(** [url && !url.includes('not found')] *)
Definition available (url : value) : completion bool :=
  if truthy url then let* b := includes url "not found" in Normal (negb b)
  else Normal false.

(** The loop [for (const quality of qualityOrder)] of the script: the
    first tier whose URL is available; [skip] is the tier passed over by
    [continue], if the loop has one. *)
Fixpoint firstAvailable (skip : option string) (videoData : value)
    (order : list string) : completion (option playback) :=
  match order with
  | [] => Normal None
  | quality :: rest =>
      if bool_decide (skip = Some quality) then firstAvailable skip videoData rest
      else
        let url := field videoData (quality +:+ "Video") in
        let* ok := available url in
        if ok then Normal (Some (Playback url quality))
        else firstAvailable skip videoData rest
  end.

(** The preference is truthy: not [null] and not the empty string. *)
Definition given (preferredQuality : option string) : option string :=
  match preferredQuality with
  | Some q => if String.eqb q "" then None else Some q
  | None => None
  end.

(** The part of the selector shared by its revisions: a truthy preference
    is tried first, then the tiers in order; without a preference the
    tier [deflt] is tried first, then the tiers in order except [skip]. *)
Definition choose (deflt skip : string) (videoData : value)
    (preferredQuality : option string) : completion (option playback) :=
  match given preferredQuality with
  | Some preferred =>
      let preferredUrl := field videoData (preferred +:+ "Video") in
      let* ok := available preferredUrl in
      if ok then Normal (Some (Playback preferredUrl preferred))
      else firstAvailable None videoData qualityOrder
  | None =>
      let defltUrl := field videoData (deflt +:+ "Video") in
      let* ok := available defltUrl in
      if ok then Normal (Some (Playback defltUrl deflt))
      else firstAvailable (Some skip) videoData qualityOrder
  end.

(** The block that sets the global [videoType] from the selected URL;
    [unknown] is what the last branch assigns. *)
Definition setVideoType (unknown : string) (selected : option playback)
    (s : state) : state * completion unit :=
  match selected with
  | Some p =>
      match toLowerCase (url p) with
      | Throw e => (s, Throw e)
      | Normal lowerSelectedUrl =>
          if str_includes ".m3u8" lowerSelectedUrl
             || str_includes ".rebacdn1" lowerSelectedUrl
          then (with_videoType "m3u8" s, Normal ())
          else if str_includes ".mpd" lowerSelectedUrl
                  || str_includes ".rebacdn2" lowerSelectedUrl
          then (with_videoType "mpd" s, Normal ())
          else (with_videoType unknown
                  (log LogWarn
                     ("Unknown video type for selected URL: " +:+ spliced (url p)
                      +:+ ". Defaulting to 'm3u8'.") s),
                Normal ())
      end
  | None =>
      (with_videoType "m3u8" (log LogError "No playable video sources found." s),
       Normal ())
  end.

(** Revision A ([src/unnamed/part_002], lines 307-392). *)
Module RevA.

Definition determinePlaybackQualityAndUrl (movieData : value)
    (preferredQuality : option string) (s : state)
    : state * completion (option playback) :=
  let s := with_tempData movieData s in
  match get movieData "video" with
  | Throw e => (s, Throw e)
  | Normal videoData =>
      if negb (truthy videoData) then
        (with_videoType "m3u8" (log LogError "No video data found in movie " s),
         Normal None)
      else
        match choose "mid" "mid" videoData preferredQuality with
        | Throw e => (s, Throw e)
        | Normal selected =>
            match setVideoType "m3u8" selected s with
            | (s, Throw e) => (s, Throw e)
            | (s, Normal _) => (s, Normal selected)
            end
        end
  end.

End RevA.

(** Revision B ([src/unnamed/part_001], lines 104-156): the same choice,
    returned from inside the branches; no global is written. *)
Module RevB.

Definition determinePlaybackQualityAndUrl (movieData : value)
    (preferredQuality : option string) (s : state)
    : state * completion (option playback) :=
  match get movieData "video" with
  | Throw e => (s, Throw e)
  | Normal videoData =>
      if negb (truthy videoData) then
        (log LogError "No video data found in movie " s, Normal None)
      else
        match choose "mid" "mid" videoData preferredQuality with
        | Throw e => (s, Throw e)
        | Normal (Some p) => (s, Normal (Some p))
        | Normal None =>
            (log LogError
               (if given preferredQuality is Some _ then
                  "No playable video sources found, even after trying fallbacks for preferred quality."
                else
                  "No playable video sources found, even default 'mid' and alternatives are missing.")
               s,
             Normal None)
        end
  end.

End RevB.

(** Revision C ([src/unnamed/part_000], lines 278-363): without a
    preference the 'low' tier is tried first, the loop after it still
    passes over 'mid'; an unknown kind of URL leaves [videoType] empty. *)
Module RevC.

Definition determinePlaybackQualityAndUrl (movieData : value)
    (preferredQuality : option string) (s : state)
    : state * completion (option playback) :=
  match get movieData "video" with
  | Throw e => (s, Throw e)
  | Normal videoData =>
      if negb (truthy videoData) then
        (with_videoType "m3u8" (log LogError "No video data found in movie " s),
         Normal None)
      else
        match choose "low" "mid" videoData preferredQuality with
        | Throw e => (s, Throw e)
        | Normal selected =>
            match setVideoType "" selected s with
            | (s, Throw e) => (s, Throw e)
            | (s, Normal _) => (s, Normal selected)
            end
        end
  end.

End RevC.

(** The reading of a record the specification uses: the URL of a tier,
    and whether it can be played. *)
Definition rendition (movieData : value) (tier : string) : value :=
  field (field movieData "video") (tier +:+ "Video").

Definition valid (url : value) : bool :=
  match url with
  | VStr u => negb (String.eqb u "") && negb (str_includes "not found" u)
  | _ => false
  end.

(** A rendition is a string, or is missing. *)
Definition wellFormed (url : value) : bool :=
  match url with
  | VStr _ => true
  | _ => negb (truthy url)
  end.

(** The first valid tier in a priority order, in the words of the
    specification. *)
Definition firstValid (movieData : value) (order : list string) : option playback :=
  match List.find (fun tier => valid (rendition movieData tier)) order with
  | Some tier => Some (Playback (rendition movieData tier) tier)
  | None => None
  end.

End Selector.

(** ** The continue-watching store (revision A, [src/unnamed/part_002]) *)

Module Store.
Import JS Browser.

Definition CONTINUE_WATCHING_KEY : string := "continuewatching".

(** [Array.prototype.findIndex], [find] and [filter] with a callback that
    may throw; the elements are visited from the front. *)
Fixpoint findIndexFrom (f : value -> completion bool) (l : list value) (i : nat)
    : completion (option nat) :=
  match l with
  | [] => Normal None
  | x :: l' =>
      let* hit := f x in
      if hit then Normal (Some i) else findIndexFrom f l' (S i)
  end.

Definition findIndex (f : value -> completion bool) (l : list value)
    : completion (option nat) := findIndexFrom f l 0.

Fixpoint find (f : value -> completion bool) (l : list value)
    : completion value :=
  match l with
  | [] => Normal VUndefined
  | x :: l' =>
      let* hit := f x in
      if hit then Normal x else find f l'
  end.

Fixpoint filter (f : value -> completion bool) (l : list value)
    : completion (list value) :=
  match l with
  | [] => Normal []
  | x :: l' =>
      let* keep := f x in
      let* rest := filter f l' in
      Normal (if keep then x :: rest else rest)
  end.

(** Lines 1472-1480. *)
Definition getContinueWatchingList (s : state) : list value :=
  let savedData := getItem CONTINUE_WATCHING_KEY s in
  let parsed :=
    match savedData with
    | Some t => if present savedData then JSON_parse t else Normal (VArr [])
    | None => Normal (VArr [])
    end in
  match parsed with
  | Normal (VArr list) => list
  | Normal _ => []
  | Throw _ => []
  end.

(** [item => item.movieId === movieId] *)
Definition hasMovieId (movieId : value) (item : value) : completion bool :=
  let* id := get item "movieId" in
  Normal (strict_eq id movieId).

(** [{ ...episodeData }] without its [video] property. *)
Definition dataToStore (episodeData : value) : value :=
  VObj (delete_prop "video" (spread episodeData)).

(** Lines 1481-1502.  The write to the store is taken to succeed, and the
    host application's handler to exist when the device is "app". *)
Definition saveEpisodeProgress (episodeData : value) (s : state)
    : state * completion unit :=
  if negb (truthy episodeData) || negb (truthy (field episodeData "movieId"))
  then (s, Normal ())
  else
    let list := getContinueWatchingList s in
    match findIndex (hasMovieId (field episodeData "movieId")) list with
    | Throw e => (s, Throw e)
    | Normal existingIndex =>
        let list :=
          match existingIndex with
          | Some i => <[i := dataToStore episodeData]> list
          | None => dataToStore episodeData :: list
          end in
        let list := if (15 <? length list)%nat then take 15 list else list in
        let s := setItem CONTINUE_WATCHING_KEY (JSON_stringify (VArr list)) s in
        if bool_decide (device s = Some "app") then
          (perform (CallHandler "playerAction" "saveEpisodeProgress" (VArr list)) s,
           Normal ())
        else (s, Normal ())
    end.

(** Lines 1514-1517. *)
Definition getSavedEpisode (movieId : value) (s : state) : completion value :=
  let list := getContinueWatchingList s in
  let* found := find (hasMovieId movieId) list in
  Normal (or_else found VNull).

(** The persisted form of a record: its copy without [video], as the
    store gives it back. *)
Definition persisted (episodeData : value) : value :=
  normalise (dataToStore episodeData).

(** The entry is the one of [movieId]. *)
Definition holds (movieId item : value) : bool :=
  strict_eq (field item "movieId") movieId.

(** An id the store gives back as it was: a string, a boolean or a finite
    number. *)
Definition keyLike (v : value) : bool :=
  match v with
  | VStr _ | VBool _ | VNum (Fin _) => true
  | _ => false
  end.

(** The callback of the filter in [cleanupCompletedMovies] (lines 55-99):
    [true] keeps the item.  The script has one [if] block for type 'M' and
    one for type 'S', each returning [false] for a completed item; an item
    passes through at most one of them. *)
Definition keepItem (item : value) : completion bool :=
  let* continueWatching := get item "continueWatching" in
  if negb (truthy continueWatching)
     || negb (String.eqb (typeof (field continueWatching "inPercentage")) "number")
  then Normal true
  else
    let percentage := field continueWatching "inPercentage" in
    let watchedMinutes := or_else (field continueWatching "inMinutes") (VNum (Fin 0)) in
    let endTime :=
      if truthy (get_opt (field item "time") "endTime")
      then VNum (parseInt (get_opt (field item "time") "endTime"))
      else VNull in
    let type := field item "type" in
    let partName := field item "partName" in
    let isOverNinetyPercent := gt_num percentage (Fin 90) in
    let isWatchedPastEndTime :=
      truthy endTime && gt_num watchedMinutes (to_number endTime) in
    if strict_eq type (VStr "M") && (isOverNinetyPercent || isWatchedPastEndTime)
    then Normal false
    else if strict_eq type (VStr "S") then
      let* isFinalPart :=
        if truthy partName then
          let* lowered := toLowerCase partName in
          Normal (str_includes "final" lowered)
        else Normal false in
      if isFinalPart && (isOverNinetyPercent || isWatchedPastEndTime) then Normal false
      else if isOverNinetyPercent || isWatchedPastEndTime then Normal false
      else Normal true
    else Normal true.

(** The body of the [try] block of [cleanupCompletedMovies]
    (lines 40-108). *)
Definition cleanupBody (s : state) : completion state :=
  let savedData := getItem CONTINUE_WATCHING_KEY s in
  match savedData with
  | None => Normal s
  | Some t =>
      if negb (present savedData) then Normal s
      else
        let* continueWatchingList := JSON_parse t in
        match continueWatchingList with
        | VArr items =>
            let* filteredList := filter keepItem items in
            let removedCount := (length items - length filteredList)%nat in
            if (0 <? removedCount)%nat then
              Normal (setItem CONTINUE_WATCHING_KEY
                        (JSON_stringify (VArr filteredList)) s)
            else Normal s
        | _ => Normal s
        end
  end.

(** Lines 36-113: whatever the body throws is caught and logged. *)
Definition cleanupCompletedMovies (s : state) : state :=
  match cleanupBody s with
  | Normal s' => s'
  | Throw e =>
      log LogError "Error cleaning up completed movies from localStorage:" s
  end.











(** [{ inMinutes: 0, inPercentage: 0 }] *)
Definition zeroProgress : value :=
  VObj [("inMinutes", VNum (Fin 0)); ("inPercentage", VNum (Fin 0))].

(** Lines 121-136. *)
Definition mergeSavedWithFreshEpisode (savedEpisode freshEpisode : value) : value :=
  if negb (truthy savedEpisode) || negb (truthy freshEpisode) then freshEpisode
  else
    let preservedContinueWatching :=
      or_else (field savedEpisode "continueWatching") zeroProgress in
    VObj (set_prop "continueWatching" preservedContinueWatching (spread freshEpisode)).

(** [item => item.movieId !== movieId] *)
Definition lacksMovieId (movieId : value) (item : value) : completion bool :=
  let* id := get item "movieId" in
  Normal (negb (strict_eq id movieId)).

(** Lines 1503-1513.  The host application is handed [list], the list as
    it was read, under the action name of a save. *)
Definition removeEpisodeProgress (movieId : value) (s : state)
    : state * completion unit :=
  let list := getContinueWatchingList s in
  match filter (lacksMovieId movieId) list with
  | Throw e => (s, Throw e)
  | Normal updatedList =>
      let s := setItem CONTINUE_WATCHING_KEY (JSON_stringify (VArr updatedList)) s in
      if bool_decide (device s = Some "app") then
        (perform (CallHandler "playerAction" "saveEpisodeProgress" (VArr list)) s,
         Normal ())
      else (s, Normal ())
  end.

(** No two entries of a list carry the same id. *)
Fixpoint distinctIds (l : list value) : bool :=
  match l with
  | [] => true
  | x :: l' =>
      forallb (fun y => negb (strict_eq (field x "movieId") (field y "movieId"))) l'
      && distinctIds l'
  end.

End Store.

(** ** Arithmetic, rounding and printing of numbers *)

Module Numeric.
Import JS.

(** [a + b], [a - b], [a * b], [a / b].  Zero has no sign in the model:
    a division by zero takes the sign of the dividend. *)
Definition num_add (a b : number) : number :=
  match a, b with
  | NaN, _ | _, NaN => NaN
  | Infinity n1, Infinity n2 => if eqb n1 n2 then Infinity n1 else NaN
  | Infinity n, Fin _ | Fin _, Infinity n => Infinity n
  | Fin x, Fin y => Fin (x + y)
  end.

Definition num_sub (a b : number) : number := num_add a (num_neg b).

Definition num_mul (a b : number) : number :=
  match a, b with
  | NaN, _ | _, NaN => NaN
  | Infinity n1, Infinity n2 => Infinity (xorb n1 n2)
  | Infinity n, Fin q | Fin q, Infinity n =>
      if Qeq_bool q 0 then NaN else Infinity (xorb n (Qlt_bool q 0))
  | Fin x, Fin y => Fin (x * y)
  end.

Definition num_div (a b : number) : number :=
  match a, b with
  | NaN, _ | _, NaN => NaN
  | Infinity _, Infinity _ => NaN
  | Infinity n, Fin q => Infinity (xorb n (Qlt_bool q 0))
  | Fin _, Infinity _ => Fin 0
  | Fin x, Fin y =>
      if Qeq_bool y 0 then
        if Qeq_bool x 0 then NaN else Infinity (Qlt_bool x 0)
      else Fin (x / y)
  end.

(** A billionth.  The numbers of the model are exact; the player's are
    doubles, whose quotient of two positions, times 100, is off by less
    than a billionth.  The theorems about a rounded or compared
    percentage ask for this distance from the threshold. *)
Definition margin : Q := 1 # 1000000000.

(** The integer part of a rational, towards zero. *)
Definition Qtrunc (q : Q) : Z := Z.quot (Qnum q) (Zpos (Qden q)).

(** [a % b]: the remainder has the sign of the dividend. *)
Definition num_rem (a b : number) : number :=
  match a, b with
  | NaN, _ | _, NaN => NaN
  | Infinity _, _ => NaN
  | Fin x, Infinity _ => Fin x
  | Fin x, Fin y =>
      if Qeq_bool y 0 then NaN
      else Fin (x - y * inject_Z (Qtrunc (x / y)))
  end.

(** [Math.floor], [Math.trunc], [Math.round] (halves go up), [Math.max]
    of two numbers. *)
Definition Math_floor (n : number) : number :=
  match n with
  | Fin q => of_Z (Qfloor q)
  | _ => n
  end.

Definition Math_trunc (n : number) : number :=
  match n with
  | Fin q => of_Z (Qtrunc q)
  | _ => n
  end.

Definition Math_round (n : number) : number :=
  match n with
  | Fin q => of_Z (Qfloor (q + (1 # 2)))
  | _ => n
  end.

Definition Math_max (a b : number) : number :=
  match a, b with
  | NaN, _ | _, NaN => NaN
  | _, _ => if num_lt a b then b else a
  end.

Definition isNaN (n : number) : bool := if n is NaN then true else false.

(** The decimals of [num / den] after the point, for [0 <= num < den]:
    at most [fuel] of them. *)
Fixpoint fraction_digits (fuel : nat) (num den : Z) : string :=
  match fuel with
  | O => ""
  | S fuel' =>
      if (num =? 0)%Z then ""
      else String (pretty_N_char (Z.to_N (10 * num / den)))
             (fraction_digits fuel' ((10 * num) mod den) den)
  end.

(** A number as a string.  A whole number prints its digits; a number
    with a fractional part prints its decimal expansion, cut after 17
    decimals.  Numbers that JavaScript prints in exponent notation, at
    or above 1e21 or below 1e-6, are outside the model: the properties
    of the clocks keep the whole seconds below 2^53. *)
Definition number_to_string (n : number) : string :=
  match n with
  | NaN => "NaN"
  | Infinity neg => if neg then "-Infinity" else "Infinity"
  | Fin q =>
      let a := Z.abs (Qnum q) in
      let d := Zpos (Qden q) in
      (if (Qnum q <? 0)%Z then "-" else "")
      +:+ pretty (a / d)%Z
      +:+ (if (a mod d =? 0)%Z then ""
           else "." +:+ fraction_digits 17 (a mod d) d)
  end.

(** [String(v)], the conversion of a value to a string: an array prints
    its elements joined by commas, [null] and [undefined] among them as
    nothing; an object prints as "[object Object]". *)
Fixpoint to_string (v : value) : string :=
  match v with
  | VUndefined => "undefined"
  | VNull => "null"
  | VBool b => if b then "true" else "false"
  | VNum n => number_to_string n
  | VStr s => s
  | VArr l =>
      (fix join (l : list value) : string :=
         match l with
         | [] => ""
         | [x] => if nullish x then "" else to_string x
         | x :: l' => (if nullish x then "" else to_string x) +:+ "," +:+ join l'
         end) l
  | VObj _ => "[object Object]"
  end.

(** [v == s] for a string [s]. *)
Definition loose_eq_string (v : value) (s : string) : bool :=
  match v with
  | VUndefined | VNull => false
  | VBool b => num_eq (Fin (if b then 1 else 0)) (string_to_number s)
  | VNum n => num_eq n (string_to_number s)
  | VStr a => String.eqb a s
  | VArr _ | VObj _ => String.eqb (to_string v) s
  end.

(** [v == true] *)
Definition loose_eq_true (v : value) : bool :=
  match v with
  | VUndefined | VNull => false
  | VBool b => b
  | VNum n => num_eq n (Fin 1)
  | VStr a => num_eq (string_to_number a) (Fin 1)
  | VArr _ | VObj _ => num_eq (string_to_number (to_string v)) (Fin 1)
  end.

(** [a + b] on values: a sum of numbers unless one side is a string, an
    array or an object, in which case the two sides are joined as
    strings. *)
Definition plus (a b : value) : value :=
  match a, b with
  | (VStr _ | VArr _ | VObj _), _ | _, (VStr _ | VArr _ | VObj _) =>
      VStr (to_string a +:+ to_string b)
  | _, _ => VNum (num_add (to_number a) (to_number b))
  end.

(** [s.padStart(target, fill)] *)
Fixpoint cycle (n : nat) (fill rest : string) : string :=
  match n with
  | O => ""
  | S n' =>
      match rest with
      | String c rest' => String c (cycle n' fill rest')
      | EmptyString =>
          match fill with
          | String c fill' => String c (cycle n' fill fill')
          | EmptyString => ""
          end
      end
  end.

Definition padStart (target : nat) (fill s : string) : string :=
  cycle (target - String.length s) fill fill +:+ s.

(** The index a property name stands for, if it is the decimal form of a
    whole number. *)
Definition array_index (name : string) : option nat :=
  let '(z, n, rest) := read_digits name 0 0 in
  if (0 <? n)%nat && String.eqb rest "" && String.eqb (pretty z) name
  then Some (Z.to_nat z) else None.

Fixpoint nth_char (i : nat) (s : string) : option ascii :=
  match s, i with
  | EmptyString, _ => None
  | String c _, O => Some c
  | String _ s', S i' => nth_char i' s'
  end.

(** [v[k]], and [v.length] as [v["length"]]: the elements and the length
    of an array or a string, the properties of an object.  (The methods of
    arrays and strings are not values of the model and read as
    [undefined].) *)
Definition get_key (v : value) (k : value) : completion value :=
  let name := to_string k in
  match v with
  | VUndefined | VNull =>
      Throw (TypeError ("Cannot read properties of " +:+
                        (if v is VNull then "null" else "undefined") +:+
                        " (reading '" +:+ name +:+ "')"))
  | VArr l =>
      if String.eqb name "length" then Normal (VNum (of_Z (Z.of_nat (length l))))
      else match array_index name with
           | Some i => Normal (default VUndefined (l !! i))
           | None => Normal VUndefined
           end
  | VStr s =>
      if String.eqb name "length"
      then Normal (VNum (of_Z (Z.of_nat (String.length s))))
      else match array_index name with
           | Some i =>
               Normal (match nth_char i s with
                       | Some c => VStr (String c EmptyString)
                       | None => VUndefined
                       end)
           | None => Normal VUndefined
           end
  | VObj ps => Normal (default VUndefined (assoc name ps))
  | _ => Normal VUndefined
  end.

(** [v[i]] for a literal index. *)
Definition at_index (v : value) (i : nat) : completion value :=
  get_key v (VNum (of_Z (Z.of_nat i))).

End Numeric.

(** ** The player, its controls and the lock overlay
    (revision A, lines 1983-2008, 2285-2306 and 2416-2427) *)

Module Player.
Import JS Browser Numeric.

#[global] Instance adRegion_eq_dec : EqDecision adRegion.
Proof. solve_decision. Defined.

(** Calls into the ad plug-in. *)
Inductive adCall :=
| StartAd
| UpdateVideoLink (url : value) (playDuration totalDuration : Z).

(** What a countdown timer's callback keeps: the slot and the URL it was
    started for, and the seconds left. *)
Record countdown := {
  adType : adRegion;
  adUrl : value;
  countdownValue : Z;
}.

(** The button of a countdown in the action area: the timer whose
    callback holds the button, and its text. *)
Record countdownButton := {
  owner : nat;
  label : string;
}.

(** The player as the ad code and the lock overlay see it: the page
    state with the ad flags and the timer tables; the variables of the
    countdown callbacks, by timer handle (a callback runs as long as its
    handle is in the browser's table); whether the ad plug-in was
    installed and whether the host's bridge [window.flutter_inappwebview]
    is there; the action area, if the page has one, with the countdown
    button it shows; whether the controls have the class 'hidden', and
    whether their style leaves them on display; the same class for the
    more-episodes panel; the variable [lockOverlayShown_].  A handle is
    never a falsy number. *)
Record player := {
  page : state;
  countdowns : gmap nat countdown;
  adPlugin : bool;
  hostBridge : bool;
  actionButtons : option (option countdownButton);
  controlsHidden : bool;
  controlsDisplayed : bool;
  moreEpisodesHidden : bool;
  lockOverlayShown : bool;
  ios : bool;
  fullscreen : bool;
  duration : number;
  language : value;
  allLolls : value;
  calls : list adCall;
}.

Definition with_page (x : state) (p : player) : player :=
  {| page := x; countdowns := countdowns p; adPlugin := adPlugin p;
     hostBridge := hostBridge p; actionButtons := actionButtons p;
     controlsHidden := controlsHidden p;
     controlsDisplayed := controlsDisplayed p;
     moreEpisodesHidden := moreEpisodesHidden p;
     lockOverlayShown := lockOverlayShown p; ios := ios p;
     fullscreen := fullscreen p; duration := duration p;
     language := language p; allLolls := allLolls p; calls := calls p |}.

Definition with_countdowns (x : gmap nat countdown) (p : player) : player :=
  {| page := page p; countdowns := x; adPlugin := adPlugin p;
     hostBridge := hostBridge p; actionButtons := actionButtons p;
     controlsHidden := controlsHidden p;
     controlsDisplayed := controlsDisplayed p;
     moreEpisodesHidden := moreEpisodesHidden p;
     lockOverlayShown := lockOverlayShown p; ios := ios p;
     fullscreen := fullscreen p; duration := duration p;
     language := language p; allLolls := allLolls p; calls := calls p |}.

Definition with_actionButtons (x : option (option countdownButton)) (p : player)
    : player :=
  {| page := page p; countdowns := countdowns p; adPlugin := adPlugin p;
     hostBridge := hostBridge p; actionButtons := x;
     controlsHidden := controlsHidden p;
     controlsDisplayed := controlsDisplayed p;
     moreEpisodesHidden := moreEpisodesHidden p;
     lockOverlayShown := lockOverlayShown p; ios := ios p;
     fullscreen := fullscreen p; duration := duration p;
     language := language p; allLolls := allLolls p; calls := calls p |}.

Definition with_hidden (controls more : bool) (p : player) : player :=
  {| page := page p; countdowns := countdowns p; adPlugin := adPlugin p;
     hostBridge := hostBridge p; actionButtons := actionButtons p;
     controlsHidden := controls; controlsDisplayed := controlsDisplayed p;
     moreEpisodesHidden := more; lockOverlayShown := lockOverlayShown p;
     ios := ios p; fullscreen := fullscreen p; duration := duration p;
     language := language p; allLolls := allLolls p; calls := calls p |}.

Definition with_displayed (x : bool) (p : player) : player :=
  {| page := page p; countdowns := countdowns p; adPlugin := adPlugin p;
     hostBridge := hostBridge p; actionButtons := actionButtons p;
     controlsHidden := controlsHidden p; controlsDisplayed := x;
     moreEpisodesHidden := moreEpisodesHidden p;
     lockOverlayShown := lockOverlayShown p; ios := ios p;
     fullscreen := fullscreen p; duration := duration p;
     language := language p; allLolls := allLolls p; calls := calls p |}.

Definition with_lockOverlayShown (x : bool) (p : player) : player :=
  {| page := page p; countdowns := countdowns p; adPlugin := adPlugin p;
     hostBridge := hostBridge p; actionButtons := actionButtons p;
     controlsHidden := controlsHidden p;
     controlsDisplayed := controlsDisplayed p;
     moreEpisodesHidden := moreEpisodesHidden p; lockOverlayShown := x;
     ios := ios p; fullscreen := fullscreen p; duration := duration p;
     language := language p; allLolls := allLolls p; calls := calls p |}.

Definition with_fullscreen (x : bool) (p : player) : player :=
  {| page := page p; countdowns := countdowns p; adPlugin := adPlugin p;
     hostBridge := hostBridge p; actionButtons := actionButtons p;
     controlsHidden := controlsHidden p;
     controlsDisplayed := controlsDisplayed p;
     moreEpisodesHidden := moreEpisodesHidden p;
     lockOverlayShown := lockOverlayShown p; ios := ios p; fullscreen := x;
     duration := duration p; language := language p; allLolls := allLolls p;
     calls := calls p |}.

Definition with_calls (x : list adCall) (p : player) : player :=
  {| page := page p; countdowns := countdowns p; adPlugin := adPlugin p;
     hostBridge := hostBridge p; actionButtons := actionButtons p;
     controlsHidden := controlsHidden p;
     controlsDisplayed := controlsDisplayed p;
     moreEpisodesHidden := moreEpisodesHidden p;
     lockOverlayShown := lockOverlayShown p; ios := ios p;
     fullscreen := fullscreen p; duration := duration p;
     language := language p; allLolls := allLolls p; calls := x |}.

(** The ad flags, one by one. *)
Definition shown (r : adRegion) (a : adSession) : bool :=
  match r with
  | preLoll => preAdShown a
  | midLoll => midAdShown a
  | postLoll => postAdShown a
  end.

Definition with_shown (r : adRegion) (a : adSession) : adSession :=
  {| preAdShown := if r is preLoll then true else preAdShown a;
     midAdShown := if r is midLoll then true else midAdShown a;
     postAdShown := if r is postLoll then true else postAdShown a;
     isAdPlaying := isAdPlaying a;
     currentAdRegion := currentAdRegion a; pendingAdType := pendingAdType a |}.

Definition with_isAdPlaying (x : bool) (a : adSession) : adSession :=
  {| preAdShown := preAdShown a; midAdShown := midAdShown a;
     postAdShown := postAdShown a; isAdPlaying := x;
     currentAdRegion := currentAdRegion a; pendingAdType := pendingAdType a |}.

(** [pendingAdType = x; currentAdRegion = x] *)
Definition with_pending (x : option adRegion) (a : adSession) : adSession :=
  {| preAdShown := preAdShown a; midAdShown := midAdShown a;
     postAdShown := postAdShown a; isAdPlaying := isAdPlaying a;
     currentAdRegion := x; pendingAdType := x |}.

Definition on_ads (f : adSession -> adSession) (p : player) : player :=
  with_page (with_ads (f (ads (page p))) (page p)) p.

(** Lines 2285-2296; the page is taken to have the controls and the
    more-episodes panel. *)
Definition hideMainPlayerControls (p : player) : player := with_hidden true true p.

Definition showMainPlayerControls (p : player) : player :=
  with_hidden false (moreEpisodesHidden p) p.

(** Lines 2300-2306. *)
Definition exitFullscreenIfNeeded (p : player) : player :=
  if ios p && fullscreen p && bool_decide (device (page p) = Some "web")
  then with_fullscreen false p else p.

(** Lines 2416-2427. *)
Definition playBlockedLollAd (url : value) (p : player) : player :=
  let p := exitFullscreenIfNeeded p in
  if adPlugin p then
    let p := hideMainPlayerControls (on_ads (with_isAdPlaying true) p) in
    with_calls (calls p ++ [UpdateVideoLink url 86400 86400]) p
  else p.

(** Line 1985: full screen is left, in the browser by the player and
    elsewhere by the host. *)
Definition leaveFullscreen (p : player) : player * completion unit :=
  if bool_decide (device (page p) = Some "web") then
    (with_fullscreen false p, Normal ())
  else if hostBridge p then
    (with_page
       (perform (CallHandler "playerAction" "fullscreen" (VStr "exit")) (page p)) p,
     Normal ())
  else
    (p, Throw (TypeError "Cannot read properties of undefined (reading 'callHandler')")).

(** Lines 1990-1993: with ads on for the episode the blocked ad is
    played. *)
Definition playBlockedLollIfAds (p : player) : player * completion unit :=
  match get (currentMovieData (page p)) "adstatus" with
  | Throw e => (p, Throw e)
  | Normal adstatus =>
      if strict_eq adstatus (VBool true) then
        match at_index (allLolls p) 3 with
        | Throw e => (p, Throw e)
        | Normal url => (playBlockedLollAd url p, Normal ())
        end
      else (p, Normal ())
  end.

(** [showLockOverlay], lines 1983-2008: the video is paused and full
    screen is left; with ads on the blocked ad is played; the controls
    are taken off display by their style, the lock layer is put on
    display and the keys are blocked; the flag is set.  (The page is
    taken to have the controls and the lock layer.) *)
Definition showLockOverlay (p : player) : player * completion unit :=
  match leaveFullscreen (with_page (perform ArtPause (page p)) p) with
  | (p, Throw e) => (p, Throw e)
  | (p, Normal _) =>
      match playBlockedLollIfAds p with
      | (p, Throw e) => (p, Throw e)
      | (p, Normal _) =>
          (with_lockOverlayShown true
             (with_page (perform ShowLockOverlay (page p)) (with_displayed false p)),
           Normal ())
      end
  end.

(** What a call of the plug-in and the lock overlay leave alone: the
    timers, the countdowns, the slots, the record, the plug-in and the
    list of ads. *)
Definition sameSession (p q : player) : Prop :=
  win (page q) = win (page p)
  /\ countdowns q = countdowns p
  /\ preAdShown (ads (page q)) = preAdShown (ads (page p))
  /\ midAdShown (ads (page q)) = midAdShown (ads (page p))
  /\ postAdShown (ads (page q)) = postAdShown (ads (page p))
  /\ currentAdRegion (ads (page q)) = currentAdRegion (ads (page p))
  /\ pendingAdType (ads (page q)) = pendingAdType (ads (page p))
  /\ currentMovieData (page q) = currentMovieData (page p)
  /\ adPlugin q = adPlugin p
  /\ allLolls q = allLolls p.

End Player.

(** ** Switching to another episode (revision A, lines 2196-2282) *)

Module Switch.
Import JS Browser Selector Store Player.

(** Lines 2199-2208: the slot flags, the ad-playing flag and the slot of
    the countdown are reset. *)
Definition resetAdTracking (s : state) : state :=
  with_ads {| preAdShown := false; midAdShown := false; postAdShown := false;
              isAdPlaying := false;
              currentAdRegion := None; pendingAdType := None |} s.

(** Lines 2210-2215: [clearInterval(window.adCountdownInterval)] and the
    handle set to [null], when there is a handle. *)
Definition clearAdCountdown (s : state) : state :=
  match adCountdownInterval (win s) with
  | Some id =>
      with_win {| adCountdownInterval := None;
                  nextEpisodeCountdownTimer := nextEpisodeCountdownTimer (win s);
                  nextEpisodeBorderAnimation := nextEpisodeBorderAnimation (win s);
                  intervals := intervals (win s) ∖ {[id]};
                  frames := frames (win s) |} s
  | None => s
  end.

(** Lines 2217-2227: the timer and the animation frame of the
    next-episode card. *)
Definition clearNextEpisodeCard (s : state) : state :=
  let s :=
    match nextEpisodeCountdownTimer (win s) with
    | Some id =>
        with_win {| adCountdownInterval := adCountdownInterval (win s);
                    nextEpisodeCountdownTimer := None;
                    nextEpisodeBorderAnimation := nextEpisodeBorderAnimation (win s);
                    intervals := intervals (win s) ∖ {[id]};
                    frames := frames (win s) |} s
    | None => s
    end in
  match nextEpisodeBorderAnimation (win s) with
  | Some id =>
      with_win {| adCountdownInterval := adCountdownInterval (win s);
                  nextEpisodeCountdownTimer := nextEpisodeCountdownTimer (win s);
                  nextEpisodeBorderAnimation := None;
                  intervals := intervals (win s);
                  frames := frames (win s) ∖ {[id]} |} s
  | None => s
  end.

(** Lines 2228-2281: the episode becomes the current one, is saved, its
    rendition is chosen and handed to the player; a locked episode with
    no rendition to play gets the lock overlay.  The continuation of
    [art.switchUrl] runs later, as a task of its own. *)
Definition loadEpisode (ep : value) (p : player) : player * completion unit :=
  let s := with_currentMovieData ep (page p) in
  match saveEpisodeProgress (currentMovieData s) s with
  | (s, Throw e) => (with_page s p, Throw e)
  | (s, Normal _) =>
      let savedUserQualityForSwitch := getUserQualityPreference s in
      match RevA.determinePlaybackQualityAndUrl (currentMovieData s)
              savedUserQualityForSwitch s with
      | (s, Throw e) => (with_page s p, Throw e)
      | (s, Normal switchPlaybackInfo) =>
          let s := with_activeQuality "" s in
          match switchPlaybackInfo with
          | None =>
              if negb (truthy (field ep "locked")) then
                (with_page
                   (perform (ArtNotice "Error: No playable video found for the selected episode.")
                      (log LogError "No valid URL for the selected episode." s)) p,
                 Normal ())
              else showLockOverlay (with_page s p)
          | Some info =>
              let newUrl := url info in
              let s := with_activeQuality (quality info) s in
              if truthy newUrl then
                (with_page
                   (perform (ArtSwitchUrl newUrl (field (currentMovieData s) "title")) s) p,
                 Normal ())
              else if truthy (field ep "locked") then
                showLockOverlay (with_page s p)
              else
                (with_page
                   (log LogError
                      "No valid Original URL for this episode (should have been caught earlier)"
                      s) p,
                 Normal ())
          end
      end
  end.

(** The statements of [switchToEpisode] that run before the episode is
    loaded, in source order. *)
Definition switchPrelude : list (state -> state) :=
  [resetAdTracking; clearAdCountdown; clearNextEpisodeCard].

Definition run (steps : list (state -> state)) (s : state) : state :=
  foldl (fun s step => step s) s steps.

Definition switchToEpisode (ep : value) (p : player) : player * completion unit :=
  if negb (truthy ep) then (p, Normal ())
  else loadEpisode ep (with_page (run switchPrelude (page p)) p).

(** The states the session goes through while the prelude runs: the state
    before the call, then the state after each statement block. *)
Fixpoint statesThrough (steps : list (state -> state)) (s : state) : list state :=
  match steps with
  | [] => [s]
  | step :: rest => s :: statesThrough rest (step s)
  end.

(** No ad slot has fired, nothing is being counted down, no ad plays. *)
Definition adsReset (s : state) : Prop :=
  preAdShown (ads s) = false /\ midAdShown (ads s) = false /\
  postAdShown (ads s) = false /\ isAdPlaying (ads s) = false /\
  currentAdRegion (ads s) = None /\ pendingAdType (ads s) = None.

(** The same without the ad-playing flag: the three slots have not
    fired and no slot is pending. *)
Definition slotsReset (s : state) : Prop :=
  preAdShown (ads s) = false /\ midAdShown (ads s) = false /\
  postAdShown (ads s) = false /\
  currentAdRegion (ads s) = None /\ pendingAdType (ads s) = None.

(** The countdown timer [id] is no longer armed and no handle is kept. *)
Definition countdownCancelled (id : nat) (s : state) : Prop :=
  (id ∉ intervals (win s)) /\ adCountdownInterval (win s) = None.

(** The claim that the countdown is cancelled before the slots are reset,
    over the states a call goes through: no state has the slots reset
    while the timer [id] is still armed. *)
Definition cancelledBeforeReset (id : nat) (trace : list state) : Prop :=
  forall st, st ∈ trace -> adsReset st -> countdownCancelled id st.

End Switch.

(** ** Durations as text (revision A, [src/unnamed/part_002]) *)

Module Clock.
Import JS Numeric.

(** [pad] of [formatSecondsToHHMMSS] (line 175). *)
Definition pad (num : number) : string := padStart 2 "0" (number_to_string num).

(** Lines 170-177, the helper of the key handler. *)
Definition formatSecondsToHHMMSS (inputSeconds : value) : string :=
  let totalSeconds := Math_floor (to_number inputSeconds) in
  let hours := Math_floor (num_div totalSeconds (of_Z 3600)) in
  let minutes := Math_floor (num_div (num_rem totalSeconds (of_Z 3600)) (of_Z 60)) in
  let seconds := num_rem totalSeconds (of_Z 60) in
  pad hours +:+ ":" +:+ pad minutes +:+ ":" +:+ pad seconds.

(** Lines 1771-1776, the helper of the continue-watching button. *)
Definition formatTime (seconds : value) : string :=
  let hrs :=
    padStart 2 "0"
      (number_to_string (Math_floor (num_div (to_number seconds) (of_Z 3600)))) in
  let mins :=
    padStart 2 "0"
      (number_to_string
         (Math_floor (num_div (num_rem (to_number seconds) (of_Z 3600)) (of_Z 60)))) in
  let secs :=
    padStart 2 "0"
      (number_to_string (Math_floor (num_rem (to_number seconds) (of_Z 60)))) in
  hrs +:+ ":" +:+ mins +:+ ":" +:+ secs.

(** The two decimal digits of a number below 100. *)
Definition twoDigits (n : Z) : string :=
  String (pretty_N_char (Z.to_N (n / 10)))
    (String (pretty_N_char (Z.to_N (n mod 10))) "").

(** Hours, minutes and seconds of a whole number of seconds, as a clock
    shows them; the hours take as many digits as they need. *)
Definition clock (n : Z) : string :=
  (if (n / 3600 <? 100)%Z then twoDigits (n / 3600) else pretty (n / 3600)%Z)
  +:+ ":" +:+ twoDigits (n mod 3600 / 60) +:+ ":" +:+ twoDigits (n mod 60).

(** The inputs on which the exact numbers of the model and the doubles of
    the player give the same clock: a number, or a value that converts to
    a whole number, with whole seconds below 2^53, the range in which
    whole numbers are exact and print all their digits. *)
Definition inRange (v : value) (q : Q) : Prop :=
  (Qfloor q < 2 ^ 53)%Z /\ (v = VNum (Fin q) \/ q == inject_Z (Qfloor q))%Q.

End Clock.

(** ** Watch time and the ten-minute view (revision A, lines 2605-2655) *)

Module Watch.
Import JS Numeric.

(** The counters of the [video:timeupdate] handler, and the bodies it has
    posted to the analytics service. *)
Record tracker := {
  videoPlayedOnce : bool;
  accumulatedWatchTime : number;
  lastCurrentTime : number;
  tenMinuteViewRecorded : bool;
  posted : list text;
}.

(** Lines 1666-1669: the counters when playback starts. *)
Definition start : tracker :=
  {| videoPlayedOnce := false; accumulatedWatchTime := Fin 0;
     lastCurrentTime := of_Z (-1); tenMinuteViewRecorded := false; posted := [] |}.

(** [data.type == "S" ? "Season" + (Number(data.position.seasonIndex) + 1)
    : "Items"] *)
Definition databaseName (data : value) : completion value :=
  let* type := get data "type" in
  if loose_eq_string type "S" then
    let* position := get data "position" in
    let* seasonIndex := get position "seasonIndex" in
    Normal (plus (VStr "Season") (VNum (num_add (to_number seasonIndex) (Fin 1))))
  else Normal (VStr "Items").

(** The body of the view record, lines 2648-2653. *)
Definition viewBody (currentMovieData : value) : completion text :=
  let* name := databaseName currentMovieData in
  let* id := get currentMovieData "episodeId" in
  Normal (JSON_stringify
            (VObj [("databaseName", name); ("_id", id); ("activity", VStr "view")])).

(** Lines 2606-2655.  [blocked] is [lockOverlayShown_ || isAdPlaying];
    the result says whether the handler goes on after this part.  The
    button whose icon is set on the first event is taken to have its
    icon. *)
Definition trackWatchTime (blocked playing : bool) (currentTime : number)
    (currentMovieData : value) (t : tracker) : tracker * completion bool :=
  if blocked then
    ({| videoPlayedOnce := videoPlayedOnce t;
        accumulatedWatchTime := accumulatedWatchTime t;
        lastCurrentTime := currentTime;
        tenMinuteViewRecorded := tenMinuteViewRecorded t;
        posted := posted t |},
     Normal false)
  else
    let currentPlayTime := currentTime in
    let accumulated :=
      if playing && num_ge (lastCurrentTime t) (Fin 0) then
        let deltaTime := num_sub currentPlayTime (lastCurrentTime t) in
        let expectedMaxDelta := Fin (1 # 2) in
        let deltaTime :=
          if num_gt deltaTime expectedMaxDelta then Fin 0
          else if num_lt deltaTime (Fin 0) then Math_max (Fin 0) deltaTime
          else deltaTime in
        num_add (accumulatedWatchTime t) deltaTime
      else accumulatedWatchTime t in
    if negb (tenMinuteViewRecorded t) && num_ge accumulated (of_Z 600) then
      match viewBody currentMovieData with
      | Normal body =>
          ({| videoPlayedOnce := true; accumulatedWatchTime := accumulated;
              lastCurrentTime := currentPlayTime; tenMinuteViewRecorded := true;
              posted := posted t ++ [body] |},
           Normal true)
      | Throw e =>
          ({| videoPlayedOnce := true; accumulatedWatchTime := accumulated;
              lastCurrentTime := currentPlayTime; tenMinuteViewRecorded := true;
              posted := posted t |},
           Throw e)
      end
    else
      ({| videoPlayedOnce := true; accumulatedWatchTime := accumulated;
          lastCurrentTime := currentPlayTime;
          tenMinuteViewRecorded := tenMinuteViewRecorded t;
          posted := posted t |},
       Normal true).

(** One [video:timeupdate] event, by what the handler reads. *)
Record tick := {
  blocked : bool;
  playing : bool;
  currentTime : number;
  currentMovieData : value;
}.

(** The counters after a run of events. *)
Definition runTicks (ticks : list tick) (t : tracker) : tracker :=
  foldl (fun t e =>
           (trackWatchTime (blocked e) (playing e) (currentTime e)
              (currentMovieData e) t).1)
    t ticks.

(** The events during which time is counted. *)
Definition counted (ticks : list tick) : nat :=
  length (List.filter (fun e => negb (blocked e) && playing e) ticks).

(** Every event reports a finite position. *)
Definition finiteTimes (ticks : list tick) : Prop :=
  Forall (fun e => exists q, currentTime e = Fin q) ticks.

(** What the counters satisfy after [c] counted events: the watch time is
    a finite number between 0 and half a second per counted event, at most
    one view was posted, none while the flag is down, and one only with
    600 seconds of watch time. *)
Definition within (c : nat) (t : tracker) : Prop :=
  exists a l : Q,
    accumulatedWatchTime t = Fin a /\ lastCurrentTime t = Fin l /\
    (0 <= a)%Q /\ (a <= inject_Z (Z.of_nat c) * (1 # 2))%Q /\
    (length (posted t) <= 1)%nat /\
    (tenMinuteViewRecorded t = false -> posted t = []) /\
    (posted t <> [] -> (600 <= a)%Q).

End Watch.

(** ** Saving the position while playing (revision A, lines 2668-2680) *)

Module Progress.
Import JS Browser Numeric Store.

(** The two variables of the handler next to the store. *)
Record saver := {
  lastSaveTime : number;
  movieRemoved : bool;
}.

(** Lines 2603-2604. *)
Definition start : saver := {| lastSaveTime := Fin 0; movieRemoved := false |}.

(** [target.k = v] in a script that is not in strict mode: a TypeError on
    [null] and [undefined], nothing on a primitive.  (A named property
    put on an array is not one of its elements and is not written to
    JSON; the model leaves the array as it is.) *)
Definition assign (target : value) (k : string) (v : value) : completion value :=
  match target with
  | VUndefined | VNull =>
      Throw (TypeError ("Cannot set properties of " +:+
                        (if target is VNull then "null" else "undefined") +:+
                        " (setting '" +:+ k +:+ "')"))
  | VObj ps => Normal (VObj (set_prop k v ps))
  | _ => Normal target
  end.

(** The record with the object under one of its properties replaced by
    its updated state. *)
Definition with_field (record : value) (k : string) (v : value) : value :=
  match record with
  | VObj ps => VObj (set_prop k v ps)
  | _ => record
  end.

(** Lines 2671-2672: the position goes into the current record.  The
    quotient is exact here; the property of the saved percentage asks
    for [nearestPercent], defined below. *)
Definition recordPosition (currentTime duration : number) (currentMovieData : value)
    : completion value :=
  let* continueWatching := get currentMovieData "continueWatching" in
  let* continueWatching :=
    assign continueWatching "inMinutes" (VNum (Math_trunc currentTime)) in
  let* continueWatching :=
    assign continueWatching "inPercentage"
      (VNum (Math_round (num_mul (num_div currentTime duration) (of_Z 100)))) in
  Normal (if nullish (field currentMovieData "continueWatching") then currentMovieData
          else with_field currentMovieData "continueWatching" continueWatching).

(** [k] is the whole number nearest to the percentage of [c] in [d], by
    a margin on either side. *)
Definition nearestPercent (c d : Q) (k : Z) : Prop :=
  (inject_Z k - (1 # 2) + margin <= c / d * 100
   /\ c / d * 100 <= inject_Z k + (1 # 2) - margin)%Q.

(** Lines 2668-2676: at most one save every seven seconds. *)
Definition saveStep (now currentTime duration : number) (p : saver) (s : state)
    : saver * state * completion unit :=
  if num_gt (num_sub now (lastSaveTime p)) (of_Z 7000) && num_gt duration (Fin 0) then
    match recordPosition currentTime duration (currentMovieData s) with
    | Throw e => (p, s, Throw e)
    | Normal updated =>
        let s := with_currentMovieData updated s in
        match saveEpisodeProgress (currentMovieData s) s with
        | (s, Throw e) => (p, s, Throw e)
        | (s, Normal _) =>
            ({| lastSaveTime := now; movieRemoved := movieRemoved p |}, s, Normal ())
        end
    end
  else (p, s, Normal ()).

(** Lines 2677-2680: past 80 percent the record leaves the list, once. *)
Definition removeStep (currentTime duration : number) (p : saver) (s : state)
    : saver * state * completion unit :=
  match get (currentMovieData s) "isSeason" with
  | Throw e => (p, s, Throw e)
  | Normal isSeason =>
      if negb (truthy isSeason) && negb (movieRemoved p)
         && num_gt duration (Fin 0)
         && num_ge (num_div currentTime duration) (Fin (4 # 5))
      then
        match removeEpisodeProgress (field (currentMovieData s) "movieId") s with
        | (s, Throw e) => (p, s, Throw e)
        | (s, Normal _) =>
            ({| lastSaveTime := lastSaveTime p; movieRemoved := true |}, s, Normal ())
        end
      else (p, s, Normal ())
  end.

(** Lines 2668-2680, in the order of the handler. *)
Definition persistProgress (now currentTime duration : number) (p : saver) (s : state)
    : saver * state * completion unit :=
  match saveStep now currentTime duration p s with
  | (p, s, Throw e) => (p, s, Throw e)
  | (p, s, Normal _) => removeStep currentTime duration p s
  end.

End Progress.

(** ** The episode playback starts with *)

Module Resume.
Import JS Browser Numeric Store.

(** [Array.prototype.map] with the index, and [flatMap], with a callback
    that may throw. *)
Fixpoint mapFrom (f : value -> nat -> completion value) (l : list value) (i : nat)
    : completion (list value) :=
  match l with
  | [] => Normal []
  | x :: l' =>
      let* y := f x i in
      let* rest := mapFrom f l' (S i) in
      Normal (y :: rest)
  end.

Fixpoint flatMap (f : value -> completion value) (l : list value)
    : completion (list value) :=
  match l with
  | [] => Normal []
  | x :: l' =>
      let* y := f x in
      let* rest := flatMap f l' in
      Normal (match y with
              | VArr items => items ++ rest
              | _ => y :: rest
              end)%list
  end.

(** Revision A, lines 1462-1468: the seasons of the response, each with
    its number, its name and its episodes. *)
Definition seriesDataOf (apiData : value) : completion value :=
  let* data := get apiData "data" in
  let* names := get data "seasons" in
  match names with
  | VArr names =>
      let* seasons :=
        mapFrom (fun seasonName index =>
                   let* data := get apiData "data" in
                   let* episodes := get data "episodes" in
                   let* ofSeason := at_index episodes index in
                   Normal (VObj [("season", VNum (of_Z (Z.of_nat index + 1)));
                                 ("seasonName", seasonName);
                                 ("episodes", ofSeason)]))
          names 0 in
      Normal (VObj [("seasons", VArr seasons)])
  | VUndefined | VNull =>
      Throw (TypeError "Cannot read properties of undefined (reading 'map')")
  | _ => Throw (TypeError "apiData.data.seasons.map is not a function")
  end.

(** [seriesData.seasons[0].episodes[0]] *)
Definition firstEpisode (seriesData : value) : completion value :=
  let* seasons := get seriesData "seasons" in
  let* season := at_index seasons 0 in
  let* episodes := get season "episodes" in
  at_index episodes 0.

(** [seriesData.seasons.flatMap(s => s.episodes)] *)
Definition allEpisodes (seriesData : value) : completion (list value) :=
  let* seasons := get seriesData "seasons" in
  match seasons with
  | VArr seasons => flatMap (fun s => get s "episodes") seasons
  | _ => Throw (TypeError "seriesData.seasons.flatMap is not a function")
  end.

(** [ep => ep.episodeId === savedEpisode.episodeId] *)
Definition sameEpisode (savedEpisode : value) (ep : value) : completion bool :=
  let* id := get ep "episodeId" in
  Normal (strict_eq id (field savedEpisode "episodeId")).

(** [{ ...savedEpisode, video: fresh.video, locked: fresh.locked }] *)
Definition savedWithFreshVideo (savedEpisode freshEpisodeData : value) : value :=
  VObj (set_prop "locked" (field freshEpisodeData "locked")
          (set_prop "video" (field freshEpisodeData "video") (spread savedEpisode))).

(** Revision A ([src/unnamed/part_002], lines 1518-1542): the saved
    progress is merged into the fresh record, and the result is saved. *)
Module RevA.

Definition initialEpisode (seriesData : value) (s : state)
    : state * completion value :=
  match (let* first := firstEpisode seriesData in
         let* movieId := get first "movieId" in
         let* savedEpisode := getSavedEpisode movieId s in
         if truthy savedEpisode then
           let* allFreshEpisodes := allEpisodes seriesData in
           let* matchingFreshEpisode :=
             find (sameEpisode savedEpisode) allFreshEpisodes in
           Normal (first, savedEpisode, matchingFreshEpisode)
         else Normal (first, savedEpisode, VUndefined)) with
  | Throw e => (s, Throw e)
  | Normal (first, savedEpisode, matchingFreshEpisode) =>
      if truthy savedEpisode && truthy matchingFreshEpisode then
        let currentMovieData :=
          mergeSavedWithFreshEpisode savedEpisode matchingFreshEpisode in
        match saveEpisodeProgress currentMovieData s with
        | (s, Throw e) => (s, Throw e)
        | (s, Normal _) => (s, Normal currentMovieData)
        end
      else (s, Normal first)
  end.

End RevA.

(** Revision B ([src/unnamed/part_001], lines 1052-1070): the saved
    record with the renditions and the lock of the fresh one; nothing is
    written. *)
Module RevB.

Definition initialEpisode (seriesData : value) (s : state) : completion value :=
  let* first := firstEpisode seriesData in
  let* movieId := get first "movieId" in
  let* savedEpisode := getSavedEpisode movieId s in
  if truthy savedEpisode then
    let* allFreshEpisodes := allEpisodes seriesData in
    let* freshEpisodeData := find (sameEpisode savedEpisode) allFreshEpisodes in
    if truthy freshEpisodeData
    then Normal (savedWithFreshVideo savedEpisode freshEpisodeData)
    else Normal first
  else Normal first.

End RevB.

(** The script [src/jScript.js], lines 951-974: as revision B, except
    that a locked fresh record is taken as it is. *)
Module Script.

Definition initialEpisode (seriesData : value) (s : state) : completion value :=
  let* first := firstEpisode seriesData in
  let* movieId := get first "movieId" in
  let* savedEpisode := getSavedEpisode movieId s in
  if truthy savedEpisode then
    let* allFreshEpisodes := allEpisodes seriesData in
    let* freshEpisodeData := find (sameEpisode savedEpisode) allFreshEpisodes in
    if truthy freshEpisodeData then
      if truthy (field freshEpisodeData "locked") then Normal freshEpisodeData
      else Normal (savedWithFreshVideo savedEpisode freshEpisodeData)
    else Normal first
  else Normal first.

End Script.

End Resume.

(** ** The episode that follows (revision A, lines 2046-2062) *)

Module Next.
Import JS Numeric.

(** The part of [updateNextEpisodeCard] that looks for the next episode:
    the one after the current one in its season, or else, when the current
    one is the last of its season, the first one of the next season. *)
Definition nextEpisodeData (seriesData currentMovieData : value)
    : completion value :=
  let* position := get currentMovieData "position" in
  let* currentSeasonIndex := get position "seasonIndex" in
  let* position := get currentMovieData "position" in
  let* currentEpisodeIndex := get position "episodeIndex" in
  if negb (strict_eq currentSeasonIndex VUndefined)
     && negb (strict_eq currentEpisodeIndex VUndefined)
  then
    let* seasons := get seriesData "seasons" in
    let* currentSeason := get_key seasons currentSeasonIndex in
    let* following :=
      if truthy currentSeason then
        let* episodes := get currentSeason "episodes" in
        get_key episodes (plus currentEpisodeIndex (VNum (Fin 1)))
      else Normal currentSeason in
    if truthy following then Normal following
    else
      let* isLast :=
        if truthy currentSeason then
          let* episodes := get currentSeason "episodes" in
          let* count := get_key episodes (VStr "length") in
          Normal (strict_eq (VNum (num_sub (to_number count) (Fin 1)))
                    currentEpisodeIndex)
        else Normal false in
      if isLast then
        let* seasons := get seriesData "seasons" in
        let* nextSeason :=
          get_key seasons (plus currentSeasonIndex (VNum (Fin 1))) in
        let* opening :=
          if truthy nextSeason then
            let* episodes := get nextSeason "episodes" in
            at_index episodes 0
          else Normal nextSeason in
        if truthy opening then Normal opening else Normal VNull
      else Normal VNull
  else Normal VNull.

(** The place of an episode in a series: its season and its index in the
    season, as the records of the backend carry them. *)
Definition positioned (seasonIndex episodeIndex : nat) (record : value) : Prop :=
  field (field record "position") "seasonIndex"
  = VNum (of_Z (Z.of_nat seasonIndex)) /\
  field (field record "position") "episodeIndex"
  = VNum (of_Z (Z.of_nat episodeIndex)).

End Next.

(** ** Ad countdowns (revision A, lines 2309-2414, 2454-2509 and
    2605-2775) *)

Module Ads.
Import JS Browser Numeric AdRegion Player Switch.

(** [window.adCountdownInterval = x] *)
Definition with_handle (x : option nat) (p : player) : player :=
  let w := win (page p) in
  with_page
    (with_win {| adCountdownInterval := x;
                 nextEpisodeCountdownTimer := nextEpisodeCountdownTimer w;
                 nextEpisodeBorderAnimation := nextEpisodeBorderAnimation w;
                 intervals := intervals w;
                 frames := frames w |} (page p))
    p.

(** [if (window.adCountdownInterval) { clearInterval(...);
    window.adCountdownInterval = null; }] *)
Definition clearCountdownHandle (p : player) : player :=
  with_page (clearAdCountdown (page p)) p.

(** [setInterval(callback, 1000)]: a handle that was not given out
    before, with the callback's variables. *)
Definition setInterval (c : countdown) (p : player) : nat * player :=
  let w := win (page p) in
  let id := fresh (intervals w ∪ dom (countdowns p)) in
  (id,
   with_countdowns (<[id := c]> (countdowns p))
     (with_page
        (with_win {| adCountdownInterval := adCountdownInterval w;
                     nextEpisodeCountdownTimer := nextEpisodeCountdownTimer w;
                     nextEpisodeBorderAnimation := nextEpisodeBorderAnimation w;
                     intervals := {[id]} ∪ intervals w;
                     frames := frames w |} (page p))
        p)).

(** [updateButtonText], lines 2350-2354; [optionData] is an object. *)
Definition buttonText (language : value) (countdownValue : Z) : string :=
  let minutes := Math_floor (num_div (of_Z countdownValue) (of_Z 60)) in
  let seconds := num_rem (of_Z countdownValue) (of_Z 60) in
  (if negb (loose_eq_string language "en") then "Kwamamaza muri" else "Ads in")
  +:+ " " +:+ padStart 2 "0" (number_to_string minutes)
  +:+ ":" +:+ padStart 2 "0" (number_to_string seconds).

(** The statements that start an ad, lines 2321-2328 and 2377-2384. *)
Definition playAd (t : adRegion) (url : value) (p : player)
    : player * completion unit :=
  let p := hideMainPlayerControls (on_ads (with_isAdPlaying true) p) in
  match t with
  | preLoll => (with_calls (calls p ++ [StartAd]) p, Normal ())
  | _ =>
      match get (currentMovieData (page p)) "locked" with
      | Throw e => (p, Throw e)
      | Normal locked =>
          let duration := if truthy locked then 86400%Z else 50%Z in
          (with_calls (calls p ++ [UpdateVideoLink url duration duration]) p,
           Normal ())
      end
  end.

(** Lines 2309-2392. *)
Definition showAdCountdownAndPlayAd (t : adRegion) (url : value) (p : player)
    : player * completion unit :=
  let p := exitFullscreenIfNeeded p in
  let p := on_ads (with_pending (Some t)) p in
  if num_lt (duration p) (of_Z 600) then
    if adPlugin p then
      match playAd t url p with
      | (p, Throw e) => (p, Throw e)
      | (p, Normal _) => (on_ads (with_pending None) p, Normal ())
      end
    else (p, Normal ())
  else
    match actionButtons p with
    | None => (p, Normal ())
    | Some _ =>
        let '(id, p) :=
          setInterval {| adType := t; adUrl := url; countdownValue := 10 |} p in
        let p :=
          with_actionButtons
            (Some (Some {| owner := id; label := buttonText (language p) 10 |})) p in
        (with_handle (Some id) p, Normal ())
    end.

(** The body of the countdown callback of timer [id], lines 2362-2390,
    with the callback's variables [c].  The text of a button that was
    taken out of the action area is not observed. *)
Definition tickBody (id : nat) (c : countdown) (p : player)
    : player * completion unit :=
  let c := {| adType := adType c; adUrl := adUrl c;
              countdownValue := countdownValue c - 1 |} in
  let p := with_countdowns (<[id := c]> (countdowns p)) p in
  let mine (p : player) : bool :=
    match actionButtons p with
    | Some (Some b) => bool_decide (owner b = id)
    | _ => false
    end in
  let p :=
    if mine p then
      with_actionButtons
        (Some (Some {| owner := id;
                       label := buttonText (language p) (countdownValue c) |})) p
    else p in
  if (countdownValue c <=? 0)%Z then
    let p := with_handle None (clearCountdownHandle p) in
    let p := if mine p then with_actionButtons (Some None) p else p in
    let played :=
      if adPlugin p
         && bool_decide (pendingAdType (ads (page p)) = Some (adType c))
      then playAd (adType c) (adUrl c) p
      else (p, Normal ()) in
    match played with
    | (p, Throw e) => (p, Throw e)
    | (p, Normal _) => (on_ads (with_pending None) p, Normal ())
    end
  else (p, Normal ()).

(** A second passes for the countdown timer [id]: its callback runs if
    the timer is armed. *)
Definition countdownTick (id : nat) (p : player) : player * completion unit :=
  match countdowns p !! id with
  | Some c =>
      if bool_decide (id ∈ intervals (win (page p))) then tickBody id c p
      else (p, Normal ())
  | None => (p, Normal ())
  end.

(** The countdown button is taken out of the action area, if there is
    one. *)
Definition removeCountdownButton (p : player) : player :=
  match actionButtons p with
  | Some (Some _) => with_actionButtons (Some None) p
  | _ => p
  end.

(** Lines 2395-2414. *)
Definition cancelCurrentCountdownAndStartNew (t : adRegion) (url : value)
    (p : player) : player * completion unit :=
  showAdCountdownAndPlayAd t url (removeCountdownButton (clearCountdownHandle p)).

(** The handlers of the plug-in's events, lines 2454-2509; the action
    area is emptied when the ad closes or fails. *)
Definition onAdStarted (p : player) : player :=
  hideMainPlayerControls (on_ads (with_isAdPlaying true) p).

Definition onAdClosed (p : player) : player :=
  let p := showMainPlayerControls (on_ads (with_isAdPlaying false) p) in
  let p := on_ads (with_pending None) p in
  let p := clearCountdownHandle p in
  match actionButtons p with
  | Some _ => with_actionButtons (Some None) p
  | None => p
  end.

Definition onAdError (p : player) : player :=
  with_page
    (perform (ArtNotice "Ad playback error occurred.")
       (log LogError "Ad Plugin Error (via art):" (page (onAdClosed p))))
    (onAdClosed p).

(** The URL of a slot: [allLolls[0]], [allLolls[1]], [allLolls[2]]. *)
Definition slotIndex (r : adRegion) : nat :=
  match r with
  | preLoll => 0
  | midLoll => 1
  | postLoll => 2
  end.

Definition lollOf (r : adRegion) (p : player) : completion value :=
  at_index (allLolls p) (slotIndex r).

(** The slot the inline tests of lines 2749-2757 select: the first of
    the three whose bounds hold and whose ad was not shown. *)
Definition dueSlot (percentage : number) (a : adSession) : option adRegion :=
  if num_ge percentage (of_Z 19) && num_lt percentage (of_Z 49)
     && negb (preAdShown a) then Some preLoll
  else if num_ge percentage (of_Z 55) && num_le percentage (of_Z 75)
          && negb (midAdShown a) then Some midLoll
  else if num_ge percentage (of_Z 81) && num_le percentage (of_Z 100)
          && negb (postAdShown a) then Some postLoll
  else None.

(** [(art.currentTime / art.duration) * 100], as the exact quotient; the
    property of a slot that is due asks for a margin ([dueByMargin]). *)
Definition percentagePlayed (currentTime : number) (p : player) : number :=
  num_mul (num_div currentTime (duration p)) (of_Z 100).

(** The ad part of the [video:timeupdate] handler, lines 2700-2763. *)
Definition adStep (currentTime : number) (p : player) : player * completion unit :=
  match get (currentMovieData (page p)) "adstatus" with
  | Throw e => (p, Throw e)
  | Normal adstatus =>
      if strict_eq adstatus (VBool true) && negb (isAdPlaying (ads (page p))) then
        let percentage := percentagePlayed currentTime p in
        let newAdRegion := getCurrentAdRegion percentage in
        let a := ads (page p) in
        match pendingAdType a, currentAdRegion a with
        | Some _, Some current =>
            if bool_decide (newAdRegion <> Some current) then
              match newAdRegion with
              | Some r =>
                  if negb (shown r a) then
                    match lollOf r p with
                    | Throw e => (p, Throw e)
                    | Normal url => cancelCurrentCountdownAndStartNew r url p
                    end
                  else
                    (on_ads (with_pending None)
                       (removeCountdownButton (clearCountdownHandle p)),
                     Normal ())
              | None =>
                  (on_ads (with_pending None)
                     (removeCountdownButton (clearCountdownHandle p)),
                   Normal ())
              end
            else (p, Normal ())
        | Some _, None => (p, Normal ())
        | None, _ =>
            match dueSlot percentage a with
            | Some r =>
                match lollOf r p with
                | Throw e => (p, Throw e)
                | Normal url =>
                    match showAdCountdownAndPlayAd r url p with
                    | (p, Throw e) => (p, Throw e)
                    | (p, Normal _) => (on_ads (with_shown r) p, Normal ())
                    end
                end
            | None => (p, Normal ())
            end
        end
      else (p, Normal ())
  end.

(** The ad part of the [video:ended] handler, lines 2771-2775. *)
Definition endedStep (p : player) : player * completion unit :=
  match get (currentMovieData (page p)) "adstatus" with
  | Throw e => (p, Throw e)
  | Normal adstatus =>
      if strict_eq adstatus (VBool true)
         && negb (postAdShown (ads (page p)))
         && negb (isAdPlaying (ads (page p)))
      then
        match lollOf postLoll p with
        | Throw e => (p, Throw e)
        | Normal url =>
            match showAdCountdownAndPlayAd postLoll url p with
            | (p, Throw e) => (p, Throw e)
            | (p, Normal _) => (on_ads (with_shown postLoll) p, Normal ())
            end
        end
      else (p, Normal ())
  end.

(** Lines 2656-2665 of the [video:timeupdate] handler: the lock overlay
    of a locked episode, and of a locked film past its half. *)
Definition lockStep (currentTime : number) (p : player) : player * completion unit :=
  let episodeLocked : completion bool :=
    let* locked := get (currentMovieData (page p)) "locked" in
    if loose_eq_true locked && negb (lockOverlayShown p) then
      let* type := get (currentMovieData (page p)) "type" in
      Normal (loose_eq_string type "S")
    else Normal false in
  match episodeLocked with
  | Throw e => (p, Throw e)
  | Normal episodeLocked =>
      match (if episodeLocked then showLockOverlay p else (p, Normal ())) with
      | (p, Throw e) => (p, Throw e)
      | (p, Normal _) =>
          let percentage := percentagePlayed currentTime p in
          let filmLocked : completion bool :=
            if num_gt percentage (of_Z 50) then
              let* type := get (currentMovieData (page p)) "type" in
              if loose_eq_string type "M" then
                let* locked := get (currentMovieData (page p)) "locked" in
                Normal (loose_eq_true locked)
              else Normal false
            else Normal false in
          match filmLocked with
          | Throw e => (p, Throw e)
          | Normal filmLocked =>
              if filmLocked then
                let p := with_page (perform ArtPause (page p)) p in
                if negb (lockOverlayShown p) then showLockOverlay p
                else (p, Normal ())
              else (p, Normal ())
          end
      end
  end.

(** The [video:timeupdate] handler, lines 2605-2765: the early return of
    lines 2606-2611, the lock part and the ad part.  [watch] stands for
    the statements of lines 2612-2655, which keep the watch time and
    count the view (module [Watch]), and [upkeep] for those of lines
    2666-2699, which show the times, save the position (module
    [Progress]) and look after the other buttons and the next-episode
    card; a run in which one of them throws ends there.  The early
    return also notes the position in [lastCurrentTime], a variable of
    the watch time. *)
Definition onTimeUpdateWith (watch upkeep : player -> player * completion unit)
    (currentTime : number) (p : player) : player * completion unit :=
  if lockOverlayShown p || isAdPlaying (ads (page p)) then
    (exitFullscreenIfNeeded (with_page (perform ArtPause (page p)) p), Normal ())
  else
    match watch p with
    | (p, Throw e) => (p, Throw e)
    | (p, Normal _) =>
        match lockStep currentTime p with
        | (p, Throw e) => (p, Throw e)
        | (p, Normal _) =>
            match upkeep p with
            | (p, Throw e) => (p, Throw e)
            | (p, Normal _) => adStep currentTime p
            end
        end
    end.

(** Statements that have nothing to do. *)
Definition idle (p : player) : player * completion unit := (p, Normal ()).

(** The handler at a report at which the statements between its parts
    have nothing to do: no view to count, no save due, no button to take
    away and no next-episode card to show. *)
Definition onTimeUpdate (currentTime : number) (p : player)
    : player * completion unit :=
  onTimeUpdateWith idle idle currentTime p.

(** What happens to the player: a position report of that kind, a second passing
    for the countdown [id], an ad starting (the events 'preLoll' and
    'adStarted' have the same handler), closing or failing, a switch to
    another episode. *)
Inductive event :=
| TimeUpdate (currentTime : number)
| Second (id : nat)
| AdStarted
| AdClosed
| AdFailed
| SwitchTo (ep : value).

Definition step (e : event) (p : player) : player :=
  match e with
  | TimeUpdate currentTime => (onTimeUpdate currentTime p).1
  | Second id => (countdownTick id p).1
  | AdStarted => onAdStarted p
  | AdClosed => onAdClosed p
  | AdFailed => onAdError p
  | SwitchTo ep => (switchToEpisode ep p).1
  end.

Definition steps (es : list event) (p : player) : player :=
  foldl (fun p e => step e p) p es.

(** Every armed countdown is the one whose handle [window] keeps, and it
    counts down for the pending slot. *)
Definition countdownsHeld (p : player) : Prop :=
  forall id c,
    countdowns p !! id = Some c -> id ∈ intervals (win (page p)) ->
    adCountdownInterval (win (page p)) = Some id /\
    pendingAdType (ads (page p)) = Some (adType c).

(** The slot [r] is due at the position by a margin: it is due a
    billionth of a percent earlier and later as well, so that the rounding
    of the quotient by the player's arithmetic does not decide. *)
Definition dueByMargin (r : adRegion) (currentTime : number) (p : player) : Prop :=
  dueSlot (num_sub (percentagePlayed currentTime p) (Fin margin)) (ads (page p))
  = Some r
  /\ dueSlot (num_add (percentagePlayed currentTime p) (Fin margin)) (ads (page p))
     = Some r.

(** No countdown callback is armed. *)
Definition noneArmed (p : player) : Prop :=
  forall id c, countdowns p !! id = Some c -> id ∉ intervals (win (page p)).

(** The text a viewer reads on the countdown button with [v] seconds
    left, [v] below a minute. *)
Definition countdownLabel (language : value) (v : Z) : string :=
  (if loose_eq_string language "en" then "Ads in" else "Kwamamaza muri")
  +:+ " 00:" +:+ Clock.twoDigits v.

(** The countdown [id] for the slot [t] is armed with [v] seconds left:
    [window] keeps its handle, the slot is pending, and the action area
    shows its button with the seconds left. *)
Definition counting (id : nat) (t : adRegion) (url : value) (v : Z)
    (p : player) : Prop :=
  countdowns p !! id = Some {| adType := t; adUrl := url; countdownValue := v |} /\
  id ∈ intervals (win (page p)) /\
  adCountdownInterval (win (page p)) = Some id /\
  pendingAdType (ads (page p)) = Some t /\
  actionButtons p
  = Some (Some {| owner := id; label := countdownLabel (language p) v |}).

(** What a countdown leaves alone while it runs: the calls made to the
    plug-in, the ad-playing flag, the plug-in, the language and the
    current episode. *)
Definition undisturbed (p q : player) : Prop :=
  calls q = calls p /\
  isAdPlaying (ads (page q)) = isAdPlaying (ads (page p)) /\
  adPlugin q = adPlugin p /\
  language q = language p /\
  currentMovieData (page q) = currentMovieData (page p).

(** The call that plays the ad of a slot: the pre-roll is started, the
    others are given their URL with a play time that depends on the
    episode being locked. *)
Definition adCallFor (t : adRegion) (url locked : value) : adCall :=
  match t with
  | preLoll => StartAd
  | _ =>
      let duration := if truthy locked then 86400%Z else 50%Z in
      UpdateVideoLink url duration duration
  end.

End Ads.

(** ** Sample data *)

Module Samples.
Import JS Browser Player.

(** The state when the script is loaded, with an empty store. *)
Definition initial : state :=
  {| localStorage := ∅; console := []; effects := []; device := Some "web";
     videoType := "m3u8"; tempData := VObj []; currentMovieData := VUndefined;
     activeQuality := "";
     ads := {| preAdShown := false; midAdShown := false; postAdShown := false;
               isAdPlaying := false; currentAdRegion := None;
               pendingAdType := None |};
     win := {| adCountdownInterval := None; nextEpisodeCountdownTimer := None;
               nextEpisodeBorderAnimation := None; intervals := ∅; frames := ∅ |} |}.

Definition progress (seconds percent : Z) : value :=
  VObj [("inMinutes", VNum (of_Z seconds)); ("inPercentage", VNum (of_Z percent))].

(** An episode as the backend sends it. *)
Definition episode (movieId : string) (hd mid low : string) (watched : value) : value :=
  VObj [("movieId", VStr movieId); ("episodeId", VStr (movieId +:+ "-e1"));
        ("title", VStr "Pilot"); ("type", VStr "S"); ("locked", VBool false);
        ("adstatus", VBool true);
        ("time", VObj [("startTime", VStr "30"); ("endTime", VStr "3500")]);
        ("video", VObj [("hdVideo", VStr hd); ("midVideo", VStr mid);
                        ("lowVideo", VStr low)]);
        ("continueWatching", watched)].

(** hd is missing, mid and low can be played. *)
Definition hdMissing : value :=
  episode "m1" "not found" "http://x/mid.m3u8" "http://x/low.m3u8" (progress 0 0).

(** Only mid can be played. *)
Definition midOnly : value :=
  episode "m2" "not found" "http://x/mid.m3u8" "not found" (progress 0 0).

(** A rendition that is neither HLS nor DASH by its URL. *)
Definition mp4Only : value :=
  episode "m3" "http://x/movie.mp4" "not found" "not found" (progress 0 0).

(** A stored entry: a record without its [video]. *)
Definition entry (movieId kind : string) (watched : value) (endTime : string) : value :=
  VObj [("movieId", VStr movieId); ("title", VStr "Stored"); ("type", VStr kind);
        ("time", VObj [("startTime", VStr "0"); ("endTime", VStr endTime)]);
        ("continueWatching", watched)].

Definition withList (l : list value) (s : state) : state :=
  setItem Store.CONTINUE_WATCHING_KEY (JSON_stringify (VArr l)) s.

(** Entries m1 .. mn, the first one first. *)
Definition entries (n : nat) : list value :=
  (fun i => entry ("m" +:+ pretty (S i)) "S" (progress 10 5) "3500") <$> seq 0 n.

(** A session in which the mid-roll countdown runs on timer 7. *)
Definition midRollPending : state :=
  with_win {| adCountdownInterval := Some 7%nat; nextEpisodeCountdownTimer := None;
              nextEpisodeBorderAnimation := None; intervals := {[7%nat]}; frames := ∅ |}
    (with_ads {| preAdShown := true; midAdShown := true; postAdShown := false;
                 isAdPlaying := false; currentAdRegion := Some midLoll;
                 pendingAdType := Some midLoll |}
       (with_currentMovieData hdMissing initial)).

(** *** A series, a response and a player *)

(** An episode of the series "show", with its place in the series. *)
Definition seriesEpisode (episodeId : string) (seasonIndex episodeIndex : Z)
    (watched : value) : value :=
  VObj [("movieId", VStr "show"); ("episodeId", VStr episodeId);
        ("title", VStr episodeId); ("type", VStr "S"); ("locked", VBool false);
        ("video", VObj [("hdVideo", VStr ("http://x/" +:+ episodeId +:+ ".m3u8"))]);
        ("continueWatching", watched);
        ("position", VObj [("seasonIndex", VNum (of_Z seasonIndex));
                           ("episodeIndex", VNum (of_Z episodeIndex))])].

Definition seasonOne : list value :=
  [seriesEpisode "s1e1" 0 0 (progress 0 0); seriesEpisode "s1e2" 0 1 (progress 0 0)].

Definition seasonTwo : list value := [seriesEpisode "s2e1" 1 0 (progress 0 0)].

(** The response of the backend for the series, and the series the
    script builds from it. *)
Definition response : value :=
  VObj [("data", VObj [("seasons", VArr [VStr "One"; VStr "Two"]);
                       ("episodes", VArr [VArr seasonOne; VArr seasonTwo])])].

Definition series : value :=
  VObj [("seasons",
         VArr [VObj [("season", VNum (of_Z 1)); ("seasonName", VStr "One");
                     ("episodes", VArr seasonOne)];
               VObj [("season", VNum (of_Z 2)); ("seasonName", VStr "Two");
                     ("episodes", VArr seasonTwo)]])].

(** A store in which the second episode was watched for ten minutes. *)
Definition watchedSecond : state :=
  withList [Store.persisted (seriesEpisode "s1e2" 0 1 (progress 600 40))] initial.

(** The ads of a response: pre-roll, mid-roll, post-roll and the ad of
    the lock overlay. *)
Definition lolls : value :=
  VArr [VStr "http://ads/pre.mp4"; VStr "http://ads/mid.mp4";
        VStr "http://ads/post.mp4"; VStr "http://ads/blocked.mp4"].

(** A viewer of a one-hour episode in the browser: the ad plug-in is
    installed and the action area is empty. *)
Definition viewer : player :=
  {| page := with_currentMovieData hdMissing initial;
     countdowns := ∅; adPlugin := true; hostBridge := false;
     actionButtons := Some None;
     controlsHidden := false; controlsDisplayed := true;
     moreEpisodesHidden := false; lockOverlayShown := false;
     ios := false; fullscreen := false; duration := of_Z 3600;
     language := VStr "en"; allLolls := lolls; calls := [] |}.

(** The same viewer while the mid-roll countdown runs on timer 7. *)
Definition midCountdown : player :=
  {| page := midRollPending;
     countdowns :=
       {[ 7%nat := {| adType := midLoll; adUrl := VStr "http://ads/mid.mp4";
                      countdownValue := 10 |} ]};
     adPlugin := true; hostBridge := false;
     actionButtons :=
       Some (Some {| owner := 7; label := Ads.countdownLabel (VStr "en") 10 |});
     controlsHidden := false; controlsDisplayed := true;
     moreEpisodesHidden := false; lockOverlayShown := false;
     ios := false; fullscreen := false; duration := of_Z 3600;
     language := VStr "en"; allLolls := lolls; calls := [] |}.

(** A locked episode with ads on and nothing to play. *)
Definition lockedEpisode : value :=
  VObj [("movieId", VStr "m4"); ("episodeId", VStr "m4-e1");
        ("title", VStr "Locked"); ("type", VStr "S"); ("locked", VBool true);
        ("adstatus", VBool true);
        ("time", VObj [("startTime", VStr "30"); ("endTime", VStr "3500")]);
        ("video", VObj [("hdVideo", VStr "not found"); ("midVideo", VStr "not found");
                        ("lowVideo", VStr "not found")]);
        ("continueWatching", progress 0 0)].

End Samples.

(** ** Proof helpers *)

(** A membership hypothesis over an explicit list, case by case. *)
Ltac each_member H :=
  repeat (apply elem_of_cons in H as [-> | H]; [reflexivity |]);
  by apply elem_of_nil in H.

(** No element of an explicit list is the one looked for. *)
Ltac no_member :=
  let H := fresh in
  intros H;
  repeat (apply elem_of_cons in H as [H | H]; [discriminate H |]);
  by apply elem_of_nil in H.

(** * Properties *)

(** ** Values, objects and the JSON round trip *)

Section ValueFacts.
Import JS.

(** Induction on values that reaches the elements of arrays and the
    property values of objects. *)
Lemma value_rect_deep (P : value -> Prop) :
  P VUndefined -> P VNull -> (forall b, P (VBool b)) -> (forall n, P (VNum n)) ->
  (forall s, P (VStr s)) ->
  (forall l, Forall P l -> P (VArr l)) ->
  (forall ps, Forall (fun kv => P kv.2) ps -> P (VObj ps)) ->
  forall v, P v.
Proof.
  intros Hu Hn Hb Hnum Hs Harr Hobj.
  fix IH 1. intros [| | b | n | s | l | ps];
    [ apply Hu | apply Hn | apply Hb | apply Hnum | apply Hs | | ].
  - apply Harr. induction l as [| x l IHl]; constructor; auto.
  - apply Hobj. induction ps as [| [k x] ps IHps]; constructor; auto.
Qed.

Lemma normalise_VObj (ps : props) :
  normalise (VObj ps) = VObj (normalise_props ps).
Proof. reflexivity. Qed.

Lemma normalise_not_undefined (v : value) : normalise v <> VUndefined.
Proof. destruct v as [| | | [| |] | | |]; done. Qed.

Lemma normalise_props_cons (k : string) (v : value) (ps : props) :
  normalise_props ((k, v) :: ps)
  = if v is VUndefined then normalise_props ps
    else (k, normalise v) :: normalise_props ps.
Proof. by destruct v. Qed.

Lemma normalise_idemp (v : value) : normalise (normalise v) = normalise v.
Proof.
  induction v as [| | b | n | s | l IH | ps IH] using value_rect_deep; try done.
  - by destruct n.
  - simpl. f_equal. rewrite map_map. apply map_ext_Forall. done.
  - rewrite !normalise_VObj. f_equal.
    induction IH as [| [k x] ps Hx _ IHps]; [done |].
    rewrite normalise_props_cons.
    assert (normalise_props ((k, normalise x) :: normalise_props ps)
              = (k, normalise (normalise x)) :: normalise_props (normalise_props ps)) as Hstep.
    { rewrite normalise_props_cons.
      pose proof (normalise_not_undefined x). by destruct (normalise x). }
    destruct x;
      first [ exact IHps | rewrite Hstep, IHps; f_equal; f_equal; exact Hx ].
Qed.

Lemma assoc_delete_prop_eq (k : string) (ps : props) :
  assoc k (delete_prop k ps) = None.
Proof.
  induction ps as [| [k' v] ps IH]; [done |]. simpl.
  destruct (String.eqb k' k) eqn:E; [done |]. simpl. by rewrite E.
Qed.

Lemma assoc_delete_prop_ne (k k' : string) (ps : props) :
  k <> k' -> assoc k' (delete_prop k ps) = assoc k' ps.
Proof.
  intros Hne. induction ps as [| [k0 v] ps IH]; [done |]. simpl.
  destruct (String.eqb k0 k) eqn:E.
  - apply String.eqb_eq in E as ->.
    by rewrite (proj2 (String.eqb_neq k k')).
  - simpl. by rewrite IH.
Qed.

Lemma assoc_set_prop_eq (k : string) (v : value) (ps : props) :
  assoc k (set_prop k v ps) = Some v.
Proof.
  induction ps as [| [k' v'] ps IH]; simpl.
  - by rewrite String.eqb_refl.
  - destruct (String.eqb k' k) eqn:E; simpl; by rewrite E.
Qed.

Lemma assoc_set_prop_ne (k k' : string) (v : value) (ps : props) :
  k <> k' -> assoc k' (set_prop k v ps) = assoc k' ps.
Proof.
  intros Hne. induction ps as [| [k0 v0] ps IH]; simpl.
  - by rewrite (proj2 (String.eqb_neq k k')).
  - destruct (String.eqb k0 k) eqn:E; simpl.
    + apply String.eqb_eq in E as ->.
      by rewrite (proj2 (String.eqb_neq k k')).
    + by rewrite IH.
Qed.

Lemma assoc_normalise_props_None (k : string) (ps : props) :
  assoc k ps = None -> assoc k (normalise_props ps) = None.
Proof.
  induction ps as [| [k' v] ps IH]; [done |]. simpl.
  destruct (String.eqb k' k) eqn:E; [done |]. intros H.
  destruct v; simpl; rewrite ?E; auto.
Qed.

Lemma assoc_normalise_props_Some (k : string) (v : value) (ps : props) :
  assoc k ps = Some v -> v <> VUndefined ->
  assoc k (normalise_props ps) = Some (normalise v).
Proof.
  intros Hk Hv. induction ps as [| [k' v'] ps IH]; [done |]. simpl in Hk.
  destruct (String.eqb k' k) eqn:E.
  - injection Hk as ->. destruct v; try done; simpl; by rewrite E.
  - rewrite normalise_props_cons. destruct v'; simpl; rewrite ?E; auto.
Qed.

Lemma normalise_props_length (ps : props) :
  (length (normalise_props ps) <= length ps)%nat.
Proof.
  induction ps as [| [k v] ps IH]; [done |].
  rewrite normalise_props_cons. destruct v; simpl; lia.
Qed.

(** A property of an object read back from JSON text is itself such a
    value. *)
Lemma normalised_field (x : value) (k : string) :
  normalise x = x -> normalise (field x k) = field x k \/ field x k = VUndefined.
Proof.
  destruct x as [| | | | | | ps]; try (simpl; auto; fail).
  rewrite normalise_VObj. intros [= H]. unfold field.
  induction ps as [| [k' v] ps IH]; [by right |].
  rewrite normalise_props_cons in H. simpl.
  destruct (String.eqb k' k) eqn:E.
  - destruct v; simpl; auto; injection H as H1 H2; left; simpl; congruence.
  - apply IH. destruct v; try (by injection H).
    pose proof (normalise_props_length ps) as Hlen. rewrite H in Hlen.
    simpl in Hlen. lia.
Qed.

End ValueFacts.

(** ** Ad slots *)

Section AdRegionFacts.
Import JS Browser AdRegion.

Lemma Qle_bool_reflect (a b : Q) : reflect (a <= b)%Q (Qle_bool a b).
Proof.
  destruct (Qle_bool a b) eqn:E; constructor.
  - by apply Qle_bool_iff.
  - intros H. apply Qle_bool_iff in H. congruence.
Qed.

Lemma Qlt_bool_reflect (a b : Q) : reflect (a < b)%Q (Qlt_bool a b).
Proof.
  unfold Qlt_bool. destruct (Qle_bool_reflect b a); constructor; lra.
Qed.

(** A finite percentage is in exactly one of the three slots or outside
    all of them, and the function says which. *)
Lemma getCurrentAdRegion_Fin (q : Q) :
  ((19 <= q)%Q /\ (q < 49)%Q /\ getCurrentAdRegion (Fin q) = Some preLoll) \/
  ((55 <= q)%Q /\ (q <= 75)%Q /\ getCurrentAdRegion (Fin q) = Some midLoll) \/
  ((81 <= q)%Q /\ (q <= 100)%Q /\ getCurrentAdRegion (Fin q) = Some postLoll) \/
  (((q < 19)%Q \/ (49 <= q /\ q < 55)%Q \/ (75 < q /\ q < 81)%Q \/ (100 < q)%Q) /\
   getCurrentAdRegion (Fin q) = None).
Proof.
  unfold getCurrentAdRegion, num_ge, num_le, num_lt, of_Z; simpl.
  destruct (Qlt_bool_reflect q (inject_Z 19)), (Qlt_bool_reflect q (inject_Z 49)),
    (Qlt_bool_reflect q (inject_Z 55)), (Qlt_bool_reflect (inject_Z 75) q),
    (Qlt_bool_reflect q (inject_Z 81)), (Qlt_bool_reflect (inject_Z 100) q);
    unfold inject_Z in *; simpl;
    first [ lra | left; repeat split; (done || lra)
          | right; left; repeat split; (done || lra)
          | right; right; left; repeat split; (done || lra)
          | right; right; right; split; [lra | done] ].
Qed.

(** NaN and the infinities are in no slot. *)
Lemma getCurrentAdRegion_not_finite (p : number) :
  (forall q, p <> Fin q) -> getCurrentAdRegion p = None.
Proof.
  destruct p as [| [] | q]; intros H; [done | done | done |]. by destruct (H q).
Qed.

(** C3.  [getCurrentAdRegion] returns 'preLoll' exactly for the
    percentages in [19, 49), 'midLoll' exactly for those in [55, 75],
    'postLoll' exactly for those in [81, 100], and [null] exactly for all
    others: below 19, in the gaps [49, 55) and (75, 81), above 100, and for
    a percentage that is not a finite number.  The sample values of the
    specification are included. *)
Theorem getCurrentAdRegion_bounds (p : number) :
  (getCurrentAdRegion p = Some preLoll <->
     exists q, p = Fin q /\ (19 <= q)%Q /\ (q < 49)%Q) /\
  (getCurrentAdRegion p = Some midLoll <->
     exists q, p = Fin q /\ (55 <= q)%Q /\ (q <= 75)%Q) /\
  (getCurrentAdRegion p = Some postLoll <->
     exists q, p = Fin q /\ (81 <= q)%Q /\ (q <= 100)%Q) /\
  (getCurrentAdRegion p = None <->
     forall q, p = Fin q ->
       (q < 19)%Q \/ (49 <= q /\ q < 55)%Q \/ (75 < q /\ q < 81)%Q \/ (100 < q)%Q) /\
  getCurrentAdRegion (Fin 18.9) = None /\
  getCurrentAdRegion (Fin 19) = Some preLoll /\
  getCurrentAdRegion (Fin 48.9) = Some preLoll /\
  getCurrentAdRegion (Fin 49) = None /\
  getCurrentAdRegion (Fin 55) = Some midLoll /\
  getCurrentAdRegion (Fin 100) = Some postLoll.
Proof.
  assert (Hfinite : (exists q, p = Fin q) \/ (forall q, p <> Fin q)).
  { destruct p as [| neg | q]; [by right | by right | left; by exists q]. }
  split_and!; try reflexivity; destruct Hfinite as [[q ->] | Hnot].
  (* a slot: finite, then not finite *)
  1, 3, 5:
    destruct (getCurrentAdRegion_Fin q)
      as [(? & ? & ->) | [(? & ? & ->) | [(? & ? & ->) | (? & ->)]]];
    (split; [ intros [=]; by exists q | intros (q' & [= <-] & ? & ?); first [done | lra] ])
    || (split; [ intros [=] | intros (q' & [= <-] & ? & ?); lra ]).
  1, 2, 3:
    rewrite getCurrentAdRegion_not_finite by done;
    (split; [ intros [=] | intros (q' & -> & _); by destruct (Hnot q') ]).
  (* no slot *)
  - destruct (getCurrentAdRegion_Fin q)
      as [(? & ? & ->) | [(? & ? & ->) | [(? & ? & ->) | (Hout & ->)]]];
      (split; [ intros [=] | intros Hq; destruct (Hq q eq_refl) as [?|[?|[?|?]]]; lra ])
      || (split; [ by intros _ q' [= <-] | done ]).
  - rewrite getCurrentAdRegion_not_finite by done.
    split; [ intros _ q' ->; by destruct (Hnot q') | done ].
Qed.

End AdRegionFacts.

(** ** The rendition selector *)

Section SelectorFacts.
Import JS Browser Selector Samples.

Lemma available_valid (v : value) :
  wellFormed v = true -> available v = Normal (valid v).
Proof.
  destruct v as [| | b | n | u | l | ps]; simpl; unfold available; simpl;
    try done.
  - by destruct b.
  - destruct n as [| neg | q]; simpl; try done. by destruct (Qeq_bool q 0).
  - by destruct (String.eqb u "").
Qed.

Lemma valid_available (v : value) :
  valid v = true -> available v = Normal true.
Proof.
  intros Hv. rewrite available_valid, Hv; [done |]. by destruct v.
Qed.

Lemma firstAvailable_firstValid (movieData : value) (order : list string) :
  (forall t, t ∈ order -> wellFormed (rendition movieData t) = true) ->
  firstAvailable None (field movieData "video") order
  = Normal (firstValid movieData order).
Proof.
  unfold firstValid. induction order as [| t order IH]; intros Hwf; [done |].
  simpl.
  fold (rendition movieData t).
  rewrite available_valid by (apply Hwf; left). simpl.
  destruct (valid (rendition movieData t)); [done |].
  apply IH. intros t' Ht'. apply Hwf. by right.
Qed.

Lemma firstValid_is_Some (movieData : value) (order : list string) :
  (exists t, t ∈ order /\ valid (rendition movieData t) = true) ->
  exists p, firstValid movieData order = Some p /\ valid (url p) = true.
Proof.
  intros (t & Hin & Hv). unfold firstValid.
  destruct (List.find _ order) as [t' |] eqn:Hfind.
  - apply List.find_some in Hfind as [_ Hv']. by eexists.
  - apply list_elem_of_In in Hin.
    eapply List.find_none in Hfind; [| done]. simpl in Hfind. congruence.
Qed.

Lemma valid_video_present (movieData : value) (t : string) :
  valid (rendition movieData t) = true ->
  get movieData "video" = Normal (field movieData "video")
  /\ truthy (field movieData "video") = true.
Proof.
  unfold rendition. intros Hv. split.
  - destruct movieData; try done.
  - by destruct (field movieData "video").
Qed.

Lemma setVideoType_valid (unknown : string) (p : playback) (s : state) :
  valid (url p) = true ->
  exists s', setVideoType unknown (Some p) s = (s', Normal ())
             /\ localStorage s' = localStorage s.
Proof.
  intros Hv. unfold setVideoType. destruct (url p) as [| | | | u | |]; try done.
  simpl. repeat case_match; eexists; split; try done.
Qed.

Lemma choose_preferred (deflt skip : string) (movieData : value) (P : string) :
  P ∈ qualityOrder ->
  (forall t, t ∈ qualityOrder -> wellFormed (rendition movieData t) = true) ->
  choose deflt skip (field movieData "video") (Some P)
  = Normal (if valid (rendition movieData P)
            then Some (Playback (rendition movieData P) P)
            else firstValid movieData qualityOrder).
Proof.
  intros HP Hwf. unfold choose.
  assert (given (Some P) = Some P) as ->.
  { unfold qualityOrder in HP. set_unfold. by destruct HP as [-> | [-> | [-> | []]]]. }
  fold (rendition movieData P). rewrite available_valid by auto. cbn [bind].
  destruct (valid (rendition movieData P)); [done |].
  by apply firstAvailable_firstValid.
Qed.

(** C1.  A record with at least one valid rendition, a preferred tier [P]:
    the selector returns [P]'s URL with tier [P] when that URL is valid, and
    otherwise the first valid URL in the order hd, mid, low; the persistent
    store, and with it the stored preference, is left as it was.  This holds
    for the three revisions of the selector. *)
Theorem select_preferred_else_first_valid
    (s : state) (movieData : value) (P : string) :
  P ∈ qualityOrder ->
  (forall t, t ∈ qualityOrder -> wellFormed (rendition movieData t) = true) ->
  (exists t, t ∈ qualityOrder /\ valid (rendition movieData t) = true) ->
  exists p : playback,
    (if valid (rendition movieData P)
     then p = Playback (rendition movieData P) P
     else firstValid movieData qualityOrder = Some p) /\
    valid (url p) = true /\
    (exists sA, RevA.determinePlaybackQualityAndUrl movieData (Some P) s
                = (sA, Normal (Some p))
                /\ localStorage sA = localStorage s
                /\ getUserQualityPreference sA = getUserQualityPreference s) /\
    (exists sB, RevB.determinePlaybackQualityAndUrl movieData (Some P) s
                = (sB, Normal (Some p))
                /\ localStorage sB = localStorage s
                /\ getUserQualityPreference sB = getUserQualityPreference s) /\
    (exists sC, RevC.determinePlaybackQualityAndUrl movieData (Some P) s
                = (sC, Normal (Some p))
                /\ localStorage sC = localStorage s
                /\ getUserQualityPreference sC = getUserQualityPreference s).
Proof.
  intros HP Hwf Hex.
  destruct (firstValid_is_Some movieData qualityOrder Hex) as (p1 & Hfirst & Hp1).
  destruct Hex as (t & _ & Ht).
  destruct (valid_video_present movieData t Ht) as [Hget Htruthy].
  set (p := if valid (rendition movieData P)
            then Playback (rendition movieData P) P else p1).
  assert (Hchoose : forall deflt skip,
             choose deflt skip (field movieData "video") (Some P) = Normal (Some p)).
  { intros. rewrite choose_preferred by done. subst p.
    destruct (valid (rendition movieData P)); [done | by rewrite Hfirst]. }
  assert (Hp : valid (url p) = true).
  { subst p. destruct (valid (rendition movieData P)) eqn:E; simpl; done. }
  exists p. split_and!.
  - subst p. by destruct (valid (rendition movieData P)).
  - done.
  - unfold RevA.determinePlaybackQualityAndUrl. rewrite Hget. simpl.
    rewrite Htruthy. simpl. rewrite Hchoose.
    destruct (setVideoType_valid "m3u8" p (with_tempData movieData s) Hp)
      as (s' & -> & Hs').
    exists s'. unfold getUserQualityPreference, getItem. by rewrite Hs'.
  - unfold RevB.determinePlaybackQualityAndUrl. rewrite Hget, Htruthy. simpl.
    rewrite Hchoose. by exists s.
  - unfold RevC.determinePlaybackQualityAndUrl. rewrite Hget, Htruthy. simpl.
    rewrite Hchoose.
    destruct (setVideoType_valid "" p s Hp) as (s' & -> & Hs').
    exists s'. unfold getUserQualityPreference, getItem. by rewrite Hs'.
Qed.

(** C1 at the scenario of the specification: hd is 'not found', the
    preference is 'hd'; the selector plays mid and the stored preference
    stays what it was. *)
Lemma select_preferred_else_first_valid_witness :
  exists sA,
    RevA.determinePlaybackQualityAndUrl hdMissing (Some "hd") initial
    = (sA, Normal (Some (Playback (VStr "http://x/mid.m3u8") "mid")))
    /\ getUserQualityPreference sA = getUserQualityPreference initial.
Proof.
  destruct (select_preferred_else_first_valid initial hdMissing "hd")
    as (p & Hp & _ & (sA & HA & _ & Hpref) & _).
  - apply list_elem_of_here.
  - intros t Ht. each_member Ht.
  - exists "mid". split; [apply list_elem_of_further, list_elem_of_here | reflexivity].
  - vm_compute in Hp. injection Hp as <-. exists sA. split; assumption.
Defined.

(** An explicit choice of the user is what changes the stored
    preference. *)
Lemma saveUserQualityPreference_stored (quality : string) (s : state) :
  quality ∈ qualityOrder ->
  getUserQualityPreference (saveUserQualityPreference quality s) = Some quality.
Proof.
  intros Hq. unfold getUserQualityPreference, saveUserQualityPreference, getItem, setItem.
  unfold qualityOrder in Hq.
  repeat (apply elem_of_cons in Hq as [-> | Hq]; [simpl; by rewrite lookup_insert_eq |]).
  by apply elem_of_nil in Hq.
Qed.

(** Revision C without a preference: the 'low' tier when it is valid. *)
Lemma default_low_first (movieData : value) (s : state) :
  valid (rendition movieData "low") = true ->
  exists s',
    RevC.determinePlaybackQualityAndUrl movieData None s
    = (s', Normal (Some (Playback (rendition movieData "low") "low")))
    /\ localStorage s' = localStorage s.
Proof.
  intros Hlow.
  destruct (valid_video_present movieData "low" Hlow) as [Hget Htruthy].
  unfold RevC.determinePlaybackQualityAndUrl. rewrite Hget, Htruthy. cbn [negb].
  unfold choose. cbn [given]. fold (rendition movieData "low").
  rewrite valid_available by done. cbn [bind].
  destruct (setVideoType_valid "" (Playback (rendition movieData "low") "low") s Hlow)
    as (s' & -> & Hs').
  by exists s'.
Qed.

(** Revision C without a preference, 'low' not valid: the loop passes
    over 'mid', so only 'hd' is left to try. *)
Lemma default_fallback_hd_only (movieData : value) :
  truthy (field movieData "video") = true ->
  wellFormed (rendition movieData "hd") = true ->
  wellFormed (rendition movieData "low") = true ->
  valid (rendition movieData "low") = false ->
  choose "low" "mid" (field movieData "video") None
  = Normal (if valid (rendition movieData "hd")
            then Some (Playback (rendition movieData "hd") "hd") else None).
Proof.
  intros Hvideo Hhd Hlow Hinvalid. unfold choose. cbn [given].
  fold (rendition movieData "low").
  rewrite available_valid by done. rewrite Hinvalid. cbn [bind].
  unfold qualityOrder. cbn [firstAvailable]. simpl bool_decide. cbn iota.
  fold (rendition movieData "low"). fold (rendition movieData "hd").
  rewrite !available_valid by done. rewrite Hinvalid. cbn [bind].
  by destruct (valid (rendition movieData "hd")).
Qed.

(** C2.  Without a preference and with only the 'mid' rendition valid,
    revision C finds nothing: after 'low' its loop passes over 'mid', the
    tier that was not tried, instead of 'low'. *)
Theorem default_fallback_misses_mid :
  valid (rendition midOnly "hd") = false /\
  valid (rendition midOnly "mid") = true /\
  valid (rendition midOnly "low") = false /\
  (RevC.determinePlaybackQualityAndUrl midOnly None initial).2 = Normal None /\
  firstValid midOnly ["hd"; "mid"] = Some (Playback (VStr "http://x/mid.m3u8") "mid").
Proof. by vm_compute. Qed.

(** Revision A: the video type after a selection is 'm3u8' or 'mpd',
    by the markers in the lower-cased URL, and 'm3u8' with a warning when
    there is no marker. *)
Lemma setVideoType_inferred (u quality : string) (s : state) :
  exists s',
    setVideoType "m3u8" (Some (Playback (VStr u) quality)) s = (s', Normal ()) /\
    videoType s'
    = (if str_includes ".m3u8" (str_lower u) || str_includes ".rebacdn1" (str_lower u)
       then "m3u8"
       else if str_includes ".mpd" (str_lower u) || str_includes ".rebacdn2" (str_lower u)
       then "mpd" else "m3u8") /\
    videoType s' <> "" /\
    (str_includes ".m3u8" (str_lower u) || str_includes ".rebacdn1" (str_lower u)
     || str_includes ".mpd" (str_lower u) || str_includes ".rebacdn2" (str_lower u)
     = false ->
     exists message, console s' = (console s ++ [(LogWarn, message)])%list).
Proof.
  unfold setVideoType. cbn [toLowerCase url].
  destruct (str_includes ".m3u8" (str_lower u) || str_includes ".rebacdn1" (str_lower u));
    cbn [orb].
  { eexists. split_and!; [reflexivity | reflexivity | done | by intros [=]]. }
  destruct (str_includes ".mpd" (str_lower u) || str_includes ".rebacdn2" (str_lower u)).
  { eexists. split_and!; [reflexivity | reflexivity | done | by intros [=]]. }
  eexists. split_and!; [reflexivity | reflexivity | done |]. intros _. by eexists.
Qed.

(** Revision A, the whole selector: whenever it returns a selection, the
    URL is a string and the video type is the one its markers give, never
    the empty string. *)
Lemma selected_type_inferred (movieData : value) (preferredQuality : option string)
    (s s' : state) (p : playback) :
  RevA.determinePlaybackQualityAndUrl movieData preferredQuality s
  = (s', Normal (Some p)) ->
  exists u,
    url p = VStr u /\
    videoType s'
    = (if str_includes ".m3u8" (str_lower u) || str_includes ".rebacdn1" (str_lower u)
       then "m3u8"
       else if str_includes ".mpd" (str_lower u) || str_includes ".rebacdn2" (str_lower u)
       then "mpd" else "m3u8") /\
    videoType s' <> "".
Proof.
  unfold RevA.determinePlaybackQualityAndUrl.
  destruct (get movieData "video") as [videoData |]; [| done].
  destruct (negb (truthy videoData)); [done |].
  destruct (choose _ _ _ _) as [[q |] |]; [| done | done].
  destruct q as [[| | | | u | |] tier]; try done.
  destruct (setVideoType_inferred u tier (with_tempData movieData s))
    as (s1 & -> & Htype & Hne & _).
  intros [= <- <-]. by exists u.
Qed.

(** C8.  For a selected URL without a known marker revision C warns that
    it defaults to 'm3u8' and leaves the video type empty; revision A sets
    'm3u8' on the same input. *)
Theorem unknown_type_left_empty :
  (RevC.determinePlaybackQualityAndUrl mp4Only (Some "hd") initial).2
  = Normal (Some (Playback (VStr "http://x/movie.mp4") "hd")) /\
  videoType (RevC.determinePlaybackQualityAndUrl mp4Only (Some "hd") initial).1 = "" /\
  console (RevC.determinePlaybackQualityAndUrl mp4Only (Some "hd") initial).1
  = [(LogWarn, "Unknown video type for selected URL: http://x/movie.mp4. Defaulting to 'm3u8'.")] /\
  videoType (RevA.determinePlaybackQualityAndUrl mp4Only (Some "hd") initial).1 = "m3u8".
Proof. by vm_compute. Qed.

End SelectorFacts.

(** ** The continue-watching store *)

Section StoreFacts.
Import JS Browser Store Samples.

Lemma getContinueWatchingList_setItem (l : list value) (s : state) :
  getContinueWatchingList
    (setItem CONTINUE_WATCHING_KEY (JSON_stringify (VArr l)) s)
  = normalise <$> l.
Proof.
  unfold getContinueWatchingList, getItem, setItem. simpl.
  by rewrite lookup_insert_eq.
Qed.

Lemma getContinueWatchingList_perform (e : effect) (s : state) :
  getContinueWatchingList (perform e s) = getContinueWatchingList s.
Proof. reflexivity. Qed.

Lemma getContinueWatchingList_normalised (s : state) :
  Forall (fun x => normalise x = x) (getContinueWatchingList s).
Proof.
  unfold getContinueWatchingList.
  destruct (getItem CONTINUE_WATCHING_KEY s) as [[raw | v] |]; simpl.
  - by destruct raw.
  - destruct v as [| | | [| |] | | items |]; simpl; try done.
    change (map normalise items) with (normalise <$> items).
    apply Forall_fmap, Forall_true. intros x. apply normalise_idemp.
  - done.
Qed.

Lemma normalised_fmap (l : list value) :
  Forall (fun x => normalise x = x) l -> normalise <$> l = l.
Proof.
  induction 1 as [| x l Hx _ IH]; [done |]. csimpl. by rewrite Hx, IH.
Qed.

Lemma normalised_not_undefined (x : value) : normalise x = x -> x <> VUndefined.
Proof. by intros H ->. Qed.

(** The entries of a store without a [null] entry can all be read. *)
Lemma entries_readable (s : state) :
  VNull ∉ getContinueWatchingList s ->
  Forall (fun x => nullish x = false) (getContinueWatchingList s).
Proof.
  intros Hnull.
  pose proof (getContinueWatchingList_normalised s) as Hn.
  rewrite Forall_forall in Hn |- *. intros x Hx.
  destruct x; try done. by specialize (Hn _ Hx).
Qed.

Lemma hasMovieId_holds (movieId item : value) :
  nullish item = false -> hasMovieId movieId item = Normal (holds movieId item).
Proof. intros H. unfold hasMovieId, get. by rewrite H. Qed.

Lemma findIndexFrom_list_find (movieId : value) (l : list value) (i : nat) :
  Forall (fun x => nullish x = false) l ->
  findIndexFrom (hasMovieId movieId) l i
  = Normal ((fun p => (i + p.1)%nat) <$> list_find (fun x => holds movieId x = true) l).
Proof.
  intros H. revert i. induction H as [| x l Hx _ IH]; intros i; [done |].
  simpl. rewrite hasMovieId_holds by done. simpl.
  destruct (holds movieId x) eqn:E.
  - rewrite decide_True by done. simpl. do 2 f_equal. lia.
  - rewrite decide_False by done. rewrite IH.
    destruct (list_find _ l) as [[j y] |]; simpl; [| done]. do 2 f_equal. lia.
Qed.

Lemma findIndex_list_find (movieId : value) (l : list value) :
  Forall (fun x => nullish x = false) l ->
  findIndex (hasMovieId movieId) l
  = Normal (fst <$> list_find (fun x => holds movieId x = true) l).
Proof.
  intros H. unfold findIndex. rewrite findIndexFrom_list_find by done.
  by destruct (list_find _ l) as [[j y] |].
Qed.

Lemma find_list_find (movieId : value) (l : list value) :
  Forall (fun x => nullish x = false) l ->
  find (hasMovieId movieId) l
  = Normal (default VUndefined (snd <$> list_find (fun x => holds movieId x = true) l)).
Proof.
  induction 1 as [| x l Hx _ IH]; [done |].
  simpl. rewrite hasMovieId_holds by done. simpl.
  destruct (holds movieId x) eqn:E.
  - by rewrite decide_True.
  - rewrite decide_False by done. rewrite IH.
    by destruct (list_find _ l) as [[j y] |].
Qed.

(** What the list is after [saveEpisodeProgress], for a record with an id
    and a store whose entries can be read. *)
Lemma saveEpisodeProgress_list (episodeData : value) (s : state) :
  truthy (field episodeData "movieId") = true ->
  VNull ∉ getContinueWatchingList s ->
  exists s',
    saveEpisodeProgress episodeData s = (s', Normal ()) /\
    getContinueWatchingList s'
    = take 15
        match list_find (fun x => holds (field episodeData "movieId") x = true)
                (getContinueWatchingList s) with
        | Some (i, _) => <[i := persisted episodeData]> (getContinueWatchingList s)
        | None => persisted episodeData :: getContinueWatchingList s
        end.
Proof.
  intros Hid Hnull.
  pose proof (entries_readable s Hnull) as Hread.
  pose proof (normalised_fmap _ (getContinueWatchingList_normalised s)) as Hnorm.
  unfold saveEpisodeProgress.
  assert (truthy episodeData = true) as -> by (by destruct episodeData).
  rewrite Hid. simpl. rewrite findIndex_list_find by done.
  set (l := getContinueWatchingList s) in *.
  set (l1 := match fst <$> list_find _ l with
             | Some i => <[i := dataToStore episodeData]> l
             | None => dataToStore episodeData :: l
             end).
  set (l2 := if (15 <? length l1)%nat then take 15 l1 else l1).
  assert (Hl2 : l2 = take 15 l1).
  { subst l2. destruct (15 <? length l1)%nat eqn:E; [done |].
    apply Nat.ltb_ge in E. by rewrite take_ge. }
  assert (Hl1 : normalise <$> l1
                = match list_find (fun x => holds (field episodeData "movieId") x = true) l with
                  | Some (i, _) => <[i := persisted episodeData]> l
                  | None => persisted episodeData :: l
                  end).
  { subst l1. destruct (list_find _ l) as [[i y] |]; csimpl.
    - by rewrite list_fmap_insert, Hnorm.
    - by rewrite Hnorm. }
  destruct (bool_decide _); eexists; (split; [reflexivity |]);
    rewrite ?getContinueWatchingList_perform, getContinueWatchingList_setItem;
    by rewrite Hl2, fmap_take, Hl1.
Qed.

Lemma persisted_no_video (episodeData : value) :
  field (persisted episodeData) "video" = VUndefined.
Proof.
  unfold persisted, dataToStore. rewrite normalise_VObj. simpl.
  by rewrite assoc_normalise_props_None by apply assoc_delete_prop_eq.
Qed.

Lemma persisted_movieId (episodeData : value) :
  truthy (field episodeData "movieId") = true ->
  field (persisted episodeData) "movieId" = normalise (field episodeData "movieId").
Proof.
  intros Hid. destruct episodeData as [| | | | | | ps]; try done.
  unfold persisted, dataToStore. rewrite normalise_VObj. simpl in *.
  destruct (assoc "movieId" ps) as [id |] eqn:E; [| done].
  erewrite assoc_normalise_props_Some; [done | | by destruct id].
  by rewrite assoc_delete_prop_ne.
Qed.

Lemma strict_eq_normalise_keyLike (id : value) :
  keyLike id = true -> strict_eq (normalise id) id = true.
Proof.
  destruct id as [| | b | [| |q] | u | |]; try done; simpl; intros _.
  - by destruct b.
  - by apply Qeq_bool_iff.
  - apply String.eqb_refl.
Qed.

Lemma holds_persisted (episodeData : value) :
  truthy (field episodeData "movieId") = true ->
  keyLike (field episodeData "movieId") = true ->
  holds (field episodeData "movieId") (persisted episodeData) = true.
Proof.
  intros Hid Hkey. unfold holds. rewrite persisted_movieId by done.
  by apply strict_eq_normalise_keyLike.
Qed.

Lemma holds_keyLike (id x : value) :
  truthy id = true -> normalise x = x -> holds id x = true -> keyLike id = true.
Proof.
  intros Hid Hx. unfold holds.
  destruct (normalised_field x "movieId" Hx) as [Hf | Hf];
    destruct (field x "movieId") as [| | | [| |] | | |];
    destruct id as [| | | [| |] | | |]; done.
Qed.

Lemma persisted_readable (episodeData : value) :
  nullish (persisted episodeData) = false.
Proof. reflexivity. Qed.

(** C4.  [saveEpisodeProgress] followed by [getContinueWatchingList], for
    a record with an id and a store whose entries are records: the list has
    at most 15 entries; a record whose id is not in the list yet comes
    first, followed by the former entries in their order; and when the list
    was full, with 15 entries, its last entry is dropped and the others
    are kept. *)
Theorem upsert_prepends_and_caps (episodeData : value) (s : state) :
  truthy (field episodeData "movieId") = true ->
  VNull ∉ getContinueWatchingList s ->
  exists s',
    saveEpisodeProgress episodeData s = (s', Normal ()) /\
    (length (getContinueWatchingList s') <= 15)%nat /\
    ((forall item, item ∈ getContinueWatchingList s ->
        holds (field episodeData "movieId") item = false) ->
     getContinueWatchingList s'
     = take 15 (persisted episodeData :: getContinueWatchingList s) /\
     (forall (front : list value) (oldest : value),
        getContinueWatchingList s = (front ++ [oldest])%list ->
        length (getContinueWatchingList s) = 15%nat ->
        getContinueWatchingList s' = persisted episodeData :: front)).
Proof.
  intros Hid Hnull.
  destruct (saveEpisodeProgress_list episodeData s Hid Hnull) as (s' & Hsave & Hlist).
  exists s'. split_and!; [done | | ].
  - rewrite Hlist, length_take. lia.
  - intros Hfresh.
    assert (list_find (fun x => holds (field episodeData "movieId") x = true)
              (getContinueWatchingList s) = None) as Hnone.
    { apply list_find_None, Forall_forall. intros x Hx. rewrite Hfresh by done. done. }
    rewrite Hnone in Hlist. split; [done |].
    intros front oldest Hl Hlen. rewrite Hlist, Hl.
    rewrite Hl, length_app in Hlen. simpl in Hlen.
    change (take 15 (persisted episodeData :: (front ++ [oldest])%list))
      with (persisted episodeData :: take 14 (front ++ [oldest])%list).
    f_equal. apply take_app_length'. lia.
Qed.

(** C4 at a full list: m16 is new, it comes first and m15 is dropped. *)
Lemma upsert_prepends_and_caps_witness :
  exists s',
    saveEpisodeProgress (episode "m16" "a" "b" "c" (progress 1 1))
      (withList (entries 15) initial) = (s', Normal ())
    /\ getContinueWatchingList s'
       = persisted (episode "m16" "a" "b" "c" (progress 1 1)) :: entries 14.
Proof.
  destruct (upsert_prepends_and_caps (episode "m16" "a" "b" "c" (progress 1 1))
              (withList (entries 15) initial))
    as (s' & Hsave & _ & Hfresh).
  - reflexivity.
  - vm_compute. no_member.
  - exists s'. split; [assumption |].
    destruct Hfresh as [_ Hfull].
    + intros item Hin. vm_compute in Hin. each_member Hin.
    + apply (Hfull (entries 14) (entry "m15" "S" (progress 10 5) "3500")); reflexivity.
Defined.

(** What [getSavedEpisode] finds after the record was saved. *)
Lemma getSavedEpisode_after_save (episodeData : value) (s s' : state) :
  truthy (field episodeData "movieId") = true ->
  VNull ∉ getContinueWatchingList s ->
  getContinueWatchingList s'
  = take 15
      match list_find (fun x => holds (field episodeData "movieId") x = true)
              (getContinueWatchingList s) with
      | Some (i, _) => <[i := persisted episodeData]> (getContinueWatchingList s)
      | None => persisted episodeData :: getContinueWatchingList s
      end ->
  exists r,
    getSavedEpisode (field episodeData "movieId") s' = Normal r /\
    (r = VNull \/ r = persisted episodeData) /\
    (keyLike (field episodeData "movieId") = true ->
     (length (getContinueWatchingList s) <= 15)%nat ->
     r = persisted episodeData).
Proof.
  intros Hid Hnull Hlist.
  pose proof (entries_readable s Hnull) as Hread.
  pose proof (getContinueWatchingList_normalised s) as Hnorm.
  set (id := field episodeData "movieId") in *.
  set (l := getContinueWatchingList s) in *.
  set (P := fun x : value => holds id x = true) in *.
  assert (Hread' : Forall (fun x => nullish x = false) (getContinueWatchingList s')).
  { rewrite Hlist. apply Forall_take.
    destruct (list_find P l) as [[i y] |].
    - apply Forall_insert; [done | apply persisted_readable].
    - by constructor. }
  unfold getSavedEpisode. rewrite find_list_find by done. fold id. fold P.
  rewrite Hlist. clear Hlist Hread'.
  destruct (list_find P l) as [[i x] |] eqn:Hfind.
  - apply list_find_Some in Hfind as (Hi & Hx & Hleast).
    assert (keyLike id = true) as Hkey.
    { eapply holds_keyLike; [done | | exact Hx].
      eapply (Forall_lookup_1 _ _ _ _ Hnorm Hi). }
    pose proof (lookup_lt_Some _ _ _ Hi) as Hlt.
    destruct (decide (i < 15)%nat) as [Hsmall | Hlarge].
    + assert (list_find P (take 15 (<[i := persisted episodeData]> l))
              = Some (i, persisted episodeData)) as ->.
      { apply list_find_Some. split_and!.
        - rewrite lookup_take_lt by done. by apply list_lookup_insert_eq.
        - by apply holds_persisted.
        - intros j y Hj Hji. rewrite lookup_take_lt in Hj by lia.
          rewrite list_lookup_insert_ne in Hj by lia. eauto. }
      eexists. split_and!; [done | by right | done].
    + assert (list_find P (take 15 (<[i := persisted episodeData]> l)) = None) as ->.
      { rewrite take_insert_ge by lia. apply list_find_None, Forall_lookup.
        intros j y Hj. apply lookup_take_Some in Hj as [Hj Hj15].
        eapply Hleast; [done | lia]. }
      eexists. split_and!; [done | by left | intros _ ?; lia].
  - apply list_find_None in Hfind.
    change (take 15 (persisted episodeData :: l))
      with (persisted episodeData :: take 14 l).
    destruct (holds id (persisted episodeData)) eqn:Hp.
    + assert (list_find P (persisted episodeData :: take 14 l)
              = Some (0%nat, persisted episodeData)) as ->.
      { apply list_find_Some. split_and!; [done | done | intros; lia]. }
      eexists. split_and!; [done | by right | done].
    + assert (list_find P (persisted episodeData :: take 14 l) = None) as ->.
      { apply list_find_None. constructor.
        - unfold P. by rewrite Hp.
        - by apply Forall_take. }
      eexists. split_and!; [done | by left |].
      intros Hkey _. subst id. rewrite holds_persisted in Hp; done.
Qed.

(** C5.  The persisted form of a record has no [video] property.  After
    [saveEpisodeProgress], for a record with an id and a store whose
    entries are records, [getSavedEpisode] by that id returns nothing or
    that persisted form, in both cases without rendition URLs; it returns
    the persisted form when the id is a string, a boolean or a finite
    number and the list held at most 15 entries. *)
Theorem upsert_strips_renditions (episodeData : value) (s : state) :
  truthy (field episodeData "movieId") = true ->
  VNull ∉ getContinueWatchingList s ->
  field (persisted episodeData) "video" = VUndefined /\
  exists s' r,
    saveEpisodeProgress episodeData s = (s', Normal ()) /\
    getSavedEpisode (field episodeData "movieId") s' = Normal r /\
    (r = VNull \/ r = persisted episodeData) /\
    field r "video" = VUndefined /\
    (keyLike (field episodeData "movieId") = true ->
     (length (getContinueWatchingList s) <= 15)%nat ->
     r = persisted episodeData).
Proof.
  intros Hid Hnull. split; [apply persisted_no_video |].
  destruct (saveEpisodeProgress_list episodeData s Hid Hnull) as (s' & Hsave & Hlist).
  destruct (getSavedEpisode_after_save episodeData s s' Hid Hnull Hlist)
    as (r & Hget & Hr & Hcap).
  exists s', r. split_and!; try done.
  destruct Hr as [-> | ->]; [done | apply persisted_no_video].
Qed.

(** C5: m1 is saved over its entry and read back without [video]. *)
Lemma upsert_strips_renditions_witness :
  exists s',
    saveEpisodeProgress hdMissing (withList (entries 3) initial) = (s', Normal ())
    /\ getSavedEpisode (VStr "m1") s' = Normal (persisted hdMissing)
    /\ field (persisted hdMissing) "video" = VUndefined.
Proof.
  destruct (upsert_strips_renditions hdMissing (withList (entries 3) initial))
    as (Hstripped & s' & r & Hsave & Hget & _ & _ & Hcap).
  - reflexivity.
  - vm_compute. no_member.
  - exists s'. split; [assumption |]. split; [| assumption].
    rewrite <- (Hcap eq_refl); [exact Hget |]. vm_compute. lia.
Defined.

(** C10 as stated fails on a list of 16 entries: m3 is saved over its
    entry and the list comes back with 15 entries, m16 gone. *)
Lemma upsert_truncates_long_list :
  (exists item, item ∈ getContinueWatchingList (withList (entries 16) initial)
                /\ holds (VStr "m3") item = true) /\
  length (getContinueWatchingList
            (saveEpisodeProgress (episode "m3" "a" "b" "c" (progress 7 3))
               (withList (entries 16) initial)).1)
  <> length (getContinueWatchingList (withList (entries 16) initial)).
Proof.
  split.
  - exists (entry "m3" "S" (progress 10 5) "3500"). split; [| reflexivity].
    vm_compute. do 2 apply list_elem_of_further. apply list_elem_of_here.
  - vm_compute. discriminate.
Qed.

(** C10, within the cap.  For a record whose id is in the list, a store
    whose entries are records and a list of at most 15 entries:
    [saveEpisodeProgress] puts the persisted form of the record at the
    first index where the id occurs; that index, the length of the list
    and every other entry stay as they were. *)
Theorem upsert_replaces_in_place (episodeData : value) (s : state) :
  truthy (field episodeData "movieId") = true ->
  VNull ∉ getContinueWatchingList s ->
  (exists item, item ∈ getContinueWatchingList s /\
                holds (field episodeData "movieId") item = true) ->
  (length (getContinueWatchingList s) <= 15)%nat ->
  exists (i : nat) (old : value) (s' : state),
    getContinueWatchingList s !! i = Some old /\
    holds (field episodeData "movieId") old = true /\
    (forall j x, getContinueWatchingList s !! j = Some x -> (j < i)%nat ->
                 holds (field episodeData "movieId") x = false) /\
    saveEpisodeProgress episodeData s = (s', Normal ()) /\
    getContinueWatchingList s' = <[i := persisted episodeData]> (getContinueWatchingList s) /\
    getContinueWatchingList s' !! i = Some (persisted episodeData) /\
    length (getContinueWatchingList s') = length (getContinueWatchingList s) /\
    (forall j, j <> i ->
       getContinueWatchingList s' !! j = getContinueWatchingList s !! j).
Proof.
  intros Hid Hnull (item & Hin & Hitem) Hcap.
  destruct (saveEpisodeProgress_list episodeData s Hid Hnull) as (s' & Hsave & Hlist).
  destruct (list_find_elem_of (fun x => holds (field episodeData "movieId") x = true)
              _ item Hin Hitem) as [[i old] Hfind].
  rewrite Hfind in Hlist. apply list_find_Some in Hfind as (Hi & Hold & Hleast).
  rewrite take_ge in Hlist by (rewrite length_insert; lia).
  exists i, old, s'. split_and!; try done.
  - intros j x Hj Hji. specialize (Hleast j x Hj Hji).
    by destruct (holds _ x).
  - rewrite Hlist. apply list_lookup_insert_eq. by eapply lookup_lt_Some.
  - by rewrite Hlist, length_insert.
  - intros j Hj. rewrite Hlist. by apply list_lookup_insert_ne.
Qed.

(** C10: m2 is saved over its entry, the second of three. *)
Lemma upsert_replaces_in_place_witness :
  exists s',
    saveEpisodeProgress (episode "m2" "a" "b" "c" (progress 7 3))
      (withList (entries 3) initial) = (s', Normal ())
    /\ length (getContinueWatchingList s') = 3%nat
    /\ getContinueWatchingList s' !! 0%nat = Some (entry "m1" "S" (progress 10 5) "3500")
    /\ getContinueWatchingList s' !! 2%nat = Some (entry "m3" "S" (progress 10 5) "3500").
Proof.
  destruct (upsert_replaces_in_place (episode "m2" "a" "b" "c" (progress 7 3))
              (withList (entries 3) initial))
    as (i & old & s' & Hi & Hold & Hleast & Hsave & _ & _ & Hlen & Hothers).
  - reflexivity.
  - vm_compute. no_member.
  - exists (entry "m2" "S" (progress 10 5) "3500"). split; [| reflexivity].
    vm_compute. apply list_elem_of_further, list_elem_of_here.
  - vm_compute. lia.
  - assert (i = 1%nat) as ->.
    { vm_compute in Hi. destruct i as [| [| [| i]]]; try discriminate Hi;
        injection Hi as <-; try discriminate Hold. reflexivity. }
    exists s'. split; [assumption |]. split; [rewrite Hlen; reflexivity |].
    split; (rewrite Hothers by discriminate; reflexivity).
Defined.

End StoreFacts.

(** ** Cleanup of completed records *)

Section CleanupFacts.
Import JS Browser Store Samples.










End CleanupFacts.

(** ** Merging saved progress into a fresh record *)

Section MergeFacts.
Import JS Browser Store Samples.

(** C7 as stated fails: without a saved record the result carries the
    progress of the fresh record, not the zero progress. *)
Lemma merge_without_saved_keeps_fresh_progress :
  mergeSavedWithFreshEpisode VNull
    (episode "m1" "a" "b" "c" (progress 120 40))
  = episode "m1" "a" "b" "c" (progress 120 40)
  /\ field (mergeSavedWithFreshEpisode VNull
              (episode "m1" "a" "b" "c" (progress 120 40))) "continueWatching"
     <> zeroProgress.
Proof. split; [reflexivity |]. vm_compute. discriminate. Qed.

(** C7, as the script has it.  Without a saved record the fresh record
    is returned as it is, with the progress it came with.  With a saved
    record, the result is the fresh record with its progress replaced by
    the saved progress, or by the zero progress when the saved record has
    none; every other field is the one of the fresh record. *)
Theorem merge_overwrites_progress_only (savedEpisode : value) (fresh : props) :
  (truthy savedEpisode = false ->
   mergeSavedWithFreshEpisode savedEpisode (VObj fresh) = VObj fresh) /\
  (truthy savedEpisode = true ->
   field (mergeSavedWithFreshEpisode savedEpisode (VObj fresh)) "continueWatching"
   = (if truthy (field savedEpisode "continueWatching")
      then field savedEpisode "continueWatching" else zeroProgress)
   /\ forall k, k <> "continueWatching" ->
        field (mergeSavedWithFreshEpisode savedEpisode (VObj fresh)) k
        = field (VObj fresh) k).
Proof.
  unfold mergeSavedWithFreshEpisode. split; intros ->; [done |].
  simpl. split.
  - by rewrite assoc_set_prop_eq.
  - intros k Hk. by rewrite assoc_set_prop_ne.
Qed.

(** C7: the saved progress is put on the fresh record, whose renditions
    stay. *)
Lemma merge_overwrites_progress_only_witness :
  field (mergeSavedWithFreshEpisode (entry "m1" "S" (progress 120 40) "3500") hdMissing)
    "continueWatching" = progress 120 40
  /\ field (mergeSavedWithFreshEpisode (entry "m1" "S" (progress 120 40) "3500") hdMissing)
       "video" = field hdMissing "video".
Proof.
  destruct (merge_overwrites_progress_only (entry "m1" "S" (progress 120 40) "3500")
              (spread hdMissing)) as [_ Hsaved].
  destruct (Hsaved eq_refl) as [Hprogress Hother].
  split; [exact Hprogress | apply Hother; discriminate].
Defined.

End MergeFacts.

(** ** What the selector can return *)

Section SelectorReturnFacts.
Import JS Browser Selector.

Lemma available_string (u : string) :
  available (VStr u) = Normal true -> valid (VStr u) = true.
Proof.
  unfold available. simpl. destruct (String.eqb u ""); [done |]. simpl.
  by destruct (str_includes "not found" u).
Qed.

Lemma firstAvailable_Some (skip : option string) (videoData : value)
    (order : list string) (p : playback) :
  firstAvailable skip videoData order = Normal (Some p) ->
  available (url p) = Normal true /\
  url p = field videoData (quality p +:+ "Video") /\
  quality p ∈ order.
Proof.
  induction order as [| t order IH]; [done |]. simpl.
  destruct (bool_decide (skip = Some t)).
  { intros H. destruct (IH H) as (? & ? & ?). split_and!; try done. by right. }
  destruct (available (field videoData (t +:+ "Video"))) as [[|] |] eqn:Ha; simpl;
    [| | done].
  - intros [= <-]. simpl. split_and!; [done | done | by left].
  - intros H. destruct (IH H) as (? & ? & ?). split_and!; try done. by right.
Qed.

Lemma firstAvailable_None (skip : option string) (videoData : value)
    (order : list string) :
  firstAvailable skip videoData order = Normal None ->
  forall t, t ∈ order -> skip <> Some t ->
    available (field videoData (t +:+ "Video")) = Normal false.
Proof.
  induction order as [| t order IH]; intros H t' Ht' Hskip;
    [by apply elem_of_nil in Ht' |].
  simpl in H. apply elem_of_cons in Ht' as [-> | Ht'].
  - rewrite bool_decide_eq_false_2 in H by done.
    by destruct (available _) as [[|] |].
  - destruct (bool_decide (skip = Some t)); [by apply IH |].
    destruct (available (field videoData (t +:+ "Video"))) as [[|] |]; try done.
    by apply IH.
Qed.

Lemma choose_Some (deflt skip : string) (videoData : value)
    (preferredQuality : option string) (p : playback) :
  choose deflt skip videoData preferredQuality = Normal (Some p) ->
  available (url p) = Normal true /\
  url p = field videoData (quality p +:+ "Video").
Proof.
  unfold choose. destruct (given preferredQuality) as [preferred |].
  - destruct (available (field videoData (preferred +:+ "Video"))) as [[|] |] eqn:Ha;
      cbn [bind]; [| | done].
    + by intros [= <-].
    + intros H. by destruct (firstAvailable_Some _ _ _ _ H) as (? & ? & _).
  - destruct (available (field videoData (deflt +:+ "Video"))) as [[|] |] eqn:Ha;
      cbn [bind]; [| | done].
    + by intros [= <-].
    + intros H. by destruct (firstAvailable_Some _ _ _ _ H) as (? & ? & _).
Qed.

(** With 'mid' as the default and as the tier passed over, nothing found
    means that no tier is available. *)
Lemma choose_mid_None (videoData : value) (preferredQuality : option string) :
  choose "mid" "mid" videoData preferredQuality = Normal None ->
  forall t, t ∈ qualityOrder ->
    available (field videoData (t +:+ "Video")) = Normal false.
Proof.
  unfold choose. destruct (given preferredQuality) as [preferred |].
  - destruct (available (field videoData (preferred +:+ "Video"))) as [[|] |];
      cbn [bind]; [done | | done].
    intros H t Ht. by apply (firstAvailable_None _ _ _ H).
  - destruct (available (field videoData ("mid" +:+ "Video"))) as [[|] |] eqn:Hmid;
      cbn [bind]; [done | | done].
    intros H t Ht. destruct (decide (t = "mid")) as [-> | Hne]; [done |].
    apply (firstAvailable_None _ _ _ H); [done | congruence].
Qed.

Lemma valid_not_unavailable (v : value) :
  available v = Normal false -> valid v = false.
Proof.
  intros Ha. destruct (valid v) eqn:Hv; [| done].
  by rewrite valid_available in Ha.
Qed.

Lemma setVideoType_Normal (unknown : string) (p : playback) (s s' : state) :
  setVideoType unknown (Some p) s = (s', Normal ()) -> exists u, url p = VStr u.
Proof.
  unfold setVideoType. destruct (url p) as [| | | | u | |]; try done. by exists u.
Qed.

(** What revision A returns is a rendition of the record that can be
    played, and it returns nothing only when the record has none. *)
Lemma RevA_returns_valid (movieData : value) (preferredQuality : option string)
    (s s' : state) (p : playback) :
  RevA.determinePlaybackQualityAndUrl movieData preferredQuality s
  = (s', Normal (Some p)) ->
  valid (url p) = true /\ url p = rendition movieData (quality p)
  /\ ((forall q, preferredQuality = Some q -> q ∈ qualityOrder) ->
      quality p ∈ qualityOrder).
Proof.
  unfold RevA.determinePlaybackQualityAndUrl.
  destruct (get movieData "video") as [videoData |] eqn:Hget; [| done].
  destruct (negb (truthy videoData)); [done |].
  destruct (choose _ _ _ _) as [[q |] |] eqn:Hchoose; [| | done].
  - destruct (setVideoType _ _ _) as [s1 [[] | e]] eqn:Hset; [| done].
    intros [= <- <-]. pose proof Hchoose as Hin.
    apply choose_Some in Hchoose as [Ha Hurl].
    apply setVideoType_Normal in Hset as [u Hu].
    assert (videoData = field movieData "video") as ->.
    { unfold get in Hget. destruct (nullish movieData); congruence. }
    split_and!; [rewrite Hu in Ha |- *; by apply available_string | done |].
    intros Hpref. revert Hin. unfold choose.
    destruct (given preferredQuality) as [preferred |] eqn:Hgiven.
    + assert (preferred ∈ qualityOrder) as Hmember.
      { apply Hpref. unfold given in Hgiven.
        destruct preferredQuality as [q' |]; [| done].
        destruct (String.eqb q' ""); congruence. }
      destruct (available (field _ (preferred +:+ "Video"))) as [[|] |];
        cbn [bind]; [by intros [= <-] | | done].
      intros Hfirst. by apply firstAvailable_Some in Hfirst as (_ & _ & Hin).
    + destruct (available (field _ ("mid" +:+ "Video"))) as [[|] |];
        cbn [bind]; [| | done].
      * intros [= <-]. cbn [quality]. unfold qualityOrder.
        apply list_elem_of_further, list_elem_of_here.
      * intros Hfirst. by apply firstAvailable_Some in Hfirst as (_ & _ & Hin).
  - by destruct (setVideoType _ _ _) as [s1 [[] | e]].
Qed.

Lemma RevA_returns_nothing (movieData : value) (preferredQuality : option string)
    (s s' : state) :
  RevA.determinePlaybackQualityAndUrl movieData preferredQuality s
  = (s', Normal None) ->
  forall t, t ∈ qualityOrder -> valid (rendition movieData t) = false.
Proof.
  unfold RevA.determinePlaybackQualityAndUrl.
  destruct (get movieData "video") as [videoData |] eqn:Hget; [| done].
  assert (videoData = field movieData "video") as ->.
  { unfold get in Hget. destruct (nullish movieData); congruence. }
  destruct (negb (truthy (field movieData "video"))) eqn:Htruthy.
  { intros _ t _. unfold rendition.
    by destruct (field movieData "video") as [| | [] | [| | q] | u | |]. }
  destruct (choose _ _ _ _) as [[q |] |] eqn:Hchoose; [| | done].
  - by destruct (setVideoType _ _ _) as [s1 [[] | e]].
  - intros _ t Ht. apply valid_not_unavailable.
    by apply choose_mid_None with preferredQuality.
Qed.

Lemma getUserQualityPreference_tier (s : state) (q : string) :
  getUserQualityPreference s = Some q -> q ∈ qualityOrder.
Proof.
  unfold getUserQualityPreference.
  destruct (getItem _ s) as [[preference | v] |]; try done.
  destruct (_ || _) eqn:E; [| done]. intros [= <-].
  apply orb_true_iff in E as [E | E]; [apply orb_true_iff in E as [E | E] |];
    apply String.eqb_eq in E as ->; unfold qualityOrder;
    rewrite !elem_of_cons; tauto.
Qed.

End SelectorReturnFacts.

(** ** Episode switch *)

Section SwitchFacts.
Import JS Browser Numeric Selector Store Player Switch Samples.

Lemma saveEpisodeProgress_frame (episodeData : value) (s : state) :
  ads (saveEpisodeProgress episodeData s).1 = ads s
  /\ win (saveEpisodeProgress episodeData s).1 = win s
  /\ currentMovieData (saveEpisodeProgress episodeData s).1 = currentMovieData s.
Proof.
  unfold saveEpisodeProgress.
  destruct (negb (truthy episodeData) || _); [done |].
  destruct (findIndex _ _); [| done].
  by destruct (bool_decide _).
Qed.

Lemma setVideoType_frame (unknown : string) (selected : option playback) (s : state) :
  ads (setVideoType unknown selected s).1 = ads s
  /\ win (setVideoType unknown selected s).1 = win s
  /\ currentMovieData (setVideoType unknown selected s).1 = currentMovieData s.
Proof.
  unfold setVideoType. destruct selected as [p |]; [| done].
  destruct (toLowerCase (url p)); [| done].
  by repeat case_match.
Qed.

Lemma determinePlaybackQualityAndUrl_frame
    (movieData : value) (preferredQuality : option string) (s : state) :
  ads (RevA.determinePlaybackQualityAndUrl movieData preferredQuality s).1 = ads s
  /\ win (RevA.determinePlaybackQualityAndUrl movieData preferredQuality s).1 = win s
  /\ currentMovieData (RevA.determinePlaybackQualityAndUrl movieData preferredQuality s).1
     = currentMovieData s.
Proof.
  unfold RevA.determinePlaybackQualityAndUrl.
  destruct (get movieData "video") as [videoData |]; [| done].
  destruct (negb (truthy videoData)); [done |].
  destruct (choose _ _ _ _) as [selected |]; [| done].
  pose proof (setVideoType_frame "m3u8" selected (with_tempData movieData s)) as H.
  by destruct (setVideoType _ _ _) as [s' [|]].
Qed.

Lemma strict_eq_true (v : value) : strict_eq v (VBool true) = true <-> v = VBool true.
Proof.
  split; [| by intros ->].
  destruct v as [| | [|] | | | |]; try done.
Qed.

Lemma sameSession_refl (p : player) : sameSession p p.
Proof. by repeat split. Qed.

Lemma sameSession_trans (p q r : player) :
  sameSession p q -> sameSession q r -> sameSession p r.
Proof.
  unfold sameSession. intros H G. destruct_and!. split_and!; congruence.
Qed.

Lemma leaveFullscreen_same (p : player) :
  sameSession p (leaveFullscreen p).1
  /\ isAdPlaying (ads (page (leaveFullscreen p).1)) = isAdPlaying (ads (page p)).
Proof.
  unfold leaveFullscreen. destruct (bool_decide _); [by repeat split |].
  destruct (hostBridge p); by repeat split.
Qed.

Lemma playBlockedLollAd_same (url : value) (p : player) :
  sameSession p (playBlockedLollAd url p)
  /\ isAdPlaying (ads (page (playBlockedLollAd url p)))
     = adPlugin p || isAdPlaying (ads (page p)).
Proof.
  unfold playBlockedLollAd, exitFullscreenIfNeeded.
  destruct (ios p && fullscreen p && _); cbn [with_fullscreen adPlugin];
    destruct (adPlugin p) eqn:Hplugin; by repeat split.
Qed.

Lemma playBlockedLollIfAds_same (p : player) :
  sameSession p (playBlockedLollIfAds p).1
  /\ (isAdPlaying (ads (page (playBlockedLollIfAds p).1)) = true ->
      isAdPlaying (ads (page p)) = true
      \/ (field (currentMovieData (page p)) "adstatus" = VBool true
          /\ adPlugin p = true))
  /\ ((playBlockedLollIfAds p).2 = Normal () ->
      field (currentMovieData (page p)) "adstatus" = VBool true ->
      adPlugin p = true ->
      isAdPlaying (ads (page (playBlockedLollIfAds p).1)) = true)
  /\ (forall e, (playBlockedLollIfAds p).2 = Throw e ->
      isAdPlaying (ads (page (playBlockedLollIfAds p).1)) = isAdPlaying (ads (page p))).
Proof.
  unfold playBlockedLollIfAds, get.
  destruct (nullish (currentMovieData (page p))) eqn:Hnull.
  { split_and!; [apply sameSession_refl | by left | done | done]. }
  destruct (strict_eq (field (currentMovieData (page p)) "adstatus") (VBool true))
    eqn:Hads.
  - apply strict_eq_true in Hads.
    destruct (at_index (allLolls p) 3) as [url |].
    + destruct (playBlockedLollAd_same url p) as [Hsame Hplaying].
      cbn [fst snd]. split_and!; [done | | | done].
      * rewrite Hplaying. intros [H | H]%orb_true_iff; [by right | by left].
      * intros _ _ Hplugin. by rewrite Hplaying, Hplugin.
    + split_and!; [apply sameSession_refl | by left | done | done].
  - split_and!; [apply sameSession_refl | by left | | done].
    intros _ Hstatus. rewrite Hstatus in Hads. done.
Qed.

(** The lock overlay leaves the timers, the countdowns, the slots and the
    record alone; it marks an ad as playing only when it plays the
    blocked ad, and when it returns it has done so with ads on and the
    plug-in installed. *)
Lemma showLockOverlay_frame (p : player) :
  sameSession p (showLockOverlay p).1
  /\ (isAdPlaying (ads (page (showLockOverlay p).1)) = true ->
      isAdPlaying (ads (page p)) = true
      \/ (field (currentMovieData (page p)) "adstatus" = VBool true
          /\ adPlugin p = true
          /\ lockOverlayShown (showLockOverlay p).1 = true))
  /\ ((showLockOverlay p).2 = Normal () ->
      lockOverlayShown (showLockOverlay p).1 = true
      /\ controlsDisplayed (showLockOverlay p).1 = false
      /\ (field (currentMovieData (page p)) "adstatus" = VBool true ->
          adPlugin p = true ->
          isAdPlaying (ads (page (showLockOverlay p).1)) = true)).
Proof.
  unfold showLockOverlay.
  set (p0 := with_page (perform ArtPause (page p)) p).
  assert (Hp0 : sameSession p p0) by (by repeat split).
  assert (Hplay0 : isAdPlaying (ads (page p0)) = isAdPlaying (ads (page p))) by done.
  clearbody p0.
  destruct (leaveFullscreen_same p0) as [Hsame1 Hplay1].
  destruct (leaveFullscreen p0) as [p1 [[] | e]]; cbn [fst snd] in *.
  2: { split_and!; [by apply (sameSession_trans p p0) | | done].
       rewrite Hplay1, Hplay0. by left. }
  destruct (playBlockedLollIfAds_same p1) as (Hsame2 & Hif & Honly & Hthrown).
  assert (Hsame : sameSession p p1) by (by apply (sameSession_trans p p0)).
  assert (Hrecord : currentMovieData (page p1) = currentMovieData (page p)).
  { by destruct Hsame as (_ & _ & _ & _ & _ & _ & _ & H & _). }
  assert (Hplugin : adPlugin p1 = adPlugin p).
  { by destruct Hsame as (_ & _ & _ & _ & _ & _ & _ & _ & H & _). }
  rewrite Hrecord, Hplugin, Hplay1, Hplay0 in Hif. rewrite Hrecord, Hplugin in Honly.
  rewrite Hplay1, Hplay0 in Hthrown.
  destruct (playBlockedLollIfAds p1) as [p2 [[] | e]]; cbn [fst snd] in *.
  - split_and!.
    + apply (sameSession_trans p p1); [done |].
      apply (sameSession_trans p1 p2); [done |]. by repeat split.
    + cbn. intros H. destruct (Hif H) as [Hold | [Hstatus Hon]]; [by left |].
      right. by split_and!.
    + intros _. split_and!; [done | done |]. cbn. by apply Honly.
  - split_and!; [by apply (sameSession_trans p p1) | | done].
    intros H. left. by rewrite <- (Hthrown e).
Qed.

Lemma loadEpisode_cases (ep : value) (p : player) :
  exists s',
    ads s' = ads (page p) /\ win s' = win (page p) /\
    (((loadEpisode ep p).1 = with_page s' p
      /\ (truthy (field ep "locked") = true ->
          (forall t, t ∈ qualityOrder -> valid (rendition ep t) = false) ->
          exists e, (loadEpisode ep p).2 = Throw e))
     \/ (loadEpisode ep p = showLockOverlay (with_page s' p)
         /\ currentMovieData s' = ep
         /\ truthy (field ep "locked") = true
         /\ (forall t, t ∈ qualityOrder -> valid (rendition ep t) = false))).
Proof.
  unfold loadEpisode.
  set (s0 := with_currentMovieData ep (page p)).
  assert (Ha0 : ads s0 = ads (page p)) by done.
  assert (Hw0 : win s0 = win (page p)) by done.
  assert (Hc0 : currentMovieData s0 = ep) by done.
  destruct (saveEpisodeProgress_frame (currentMovieData s0) s0) as (Ha1 & Hw1 & Hc1).
  rewrite Hc0 in *. clearbody s0.
  destruct (saveEpisodeProgress _ _) as [s1 [[] | e]]; cbn [fst] in *.
  2: { exists s1. split_and!; [congruence | congruence |]. left. split; [done |].
       by eexists. }
  destruct (determinePlaybackQualityAndUrl_frame (currentMovieData s1)
              (getUserQualityPreference s1) s1) as (Ha2 & Hw2 & Hc2).
  destruct (RevA.determinePlaybackQualityAndUrl _ _ _) as [s2 [info | e]] eqn:Hsel;
    cbn [fst] in *.
  2: { exists s2. split_and!; [congruence | congruence |]. left. split; [done |].
       by eexists. }
  rewrite Hc1 in *.
  destruct info as [info |].
  - apply RevA_returns_valid in Hsel as (Hvalid & Hurl & Htier).
    assert (truthy (url info) = true) as Htruthy.
    { destruct (url info) as [| | | | u | |]; try done. simpl in *.
      by destruct (String.eqb u ""). }
    rewrite Htruthy.
    eexists. split_and!; [| | left; split; [reflexivity |]].
    + cbn. congruence.
    + cbn. congruence.
    + intros _ Hnone. exfalso.
      rewrite Hurl, (Hnone (quality info)) in Hvalid; [done |].
      apply Htier. apply getUserQualityPreference_tier.
  - pose proof (RevA_returns_nothing _ _ _ _ Hsel) as Hnone.
    destruct (truthy (field ep "locked")) eqn:Hlocked; cbn [negb].
    + exists (with_activeQuality "" s2). split_and!; [cbn; congruence | cbn; congruence |].
      right. split_and!; [done | cbn; congruence | done | done].
    + eexists. split_and!; [| | left; split; [reflexivity | done]].
      * cbn. congruence.
      * cbn. congruence.
Qed.

Lemma prelude_facts (s : state) :
  adsReset (run switchPrelude s)
  /\ adCountdownInterval (win (run switchPrelude s)) = None
  /\ (forall id, adCountdownInterval (win s) = Some id ->
      id ∉ intervals (win (run switchPrelude s)))
  /\ (forall id, id ∈ intervals (win s) ->
      adCountdownInterval (win s) <> Some id ->
      nextEpisodeCountdownTimer (win s) <> Some id ->
      id ∈ intervals (win (run switchPrelude s))).
Proof.
  change (run switchPrelude s)
    with (clearNextEpisodeCard (clearAdCountdown (resetAdTracking s))).
  unfold clearNextEpisodeCard, clearAdCountdown, resetAdTracking. simpl.
  destruct (adCountdownInterval (win s)) as [h |] eqn:Hh; simpl;
    destruct (nextEpisodeCountdownTimer (win s)) as [n |] eqn:Hn; simpl;
    destruct (nextEpisodeBorderAnimation (win s)) as [f |] eqn:Hf; simpl;
    (split_and!; [by repeat split | done | |]);
    intros id; rewrite ?elem_of_difference, ?elem_of_singleton;
    try (intros [= ->]); try tauto; try done;
    intros Hin Hne1 Hne2; split_and!; try done; congruence.
Qed.

(** C9 as stated fails: during a switch with the mid-roll countdown on
    timer 7, the state after the reset has the slots reset and the timer
    still armed. *)
Lemma reset_precedes_cancel :
  ~ cancelledBeforeReset 7 (statesThrough switchPrelude midRollPending).
Proof.
  intros Hclaim.
  destruct (Hclaim (resetAdTracking midRollPending)) as [Harmed _].
  - apply list_elem_of_further, list_elem_of_here.
  - by repeat split.
  - apply Harmed. simpl. by apply elem_of_singleton.
Qed.

(** C9, as the script has it.  [switchToEpisode] with an episode first
    resets the slot flags, the ad-playing flag and the pending slot, and
    then clears the countdown timer whose handle [window] keeps: the
    timer tables are untouched by the reset, and the timer is cancelled by
    the next statement, in the same call.  When the call is over, whether
    it returned or threw, the three slots have not fired, nothing is
    pending, no handle is kept and the timer it led to is no longer
    armed; a timer that neither this handle nor the one of the
    next-episode card leads to stays armed.  An ad is marked as playing
    afterwards only for a locked episode without a rendition to play,
    with ads on for it and the plug-in installed: the call then shows the
    lock overlay, which plays the blocked ad; and when the call returns
    for such an episode, the overlay is shown and the ad is marked as
    playing. *)
Theorem switch_resets_then_cancels (ep : value) (p : player) :
  truthy ep = true ->
  (exists s1 s2 s3,
     statesThrough switchPrelude (page p) = [page p; s1; s2; s3] /\
     adsReset s1 /\ win s1 = win (page p) /\
     adsReset s2 /\
     (forall id, adCountdownInterval (win (page p)) = Some id ->
        countdownCancelled id s2)) /\
  slotsReset (page (switchToEpisode ep p).1) /\
  adCountdownInterval (win (page (switchToEpisode ep p).1)) = None /\
  (forall id, adCountdownInterval (win (page p)) = Some id ->
     countdownCancelled id (page (switchToEpisode ep p).1)) /\
  (forall id, id ∈ intervals (win (page p)) ->
     adCountdownInterval (win (page p)) <> Some id ->
     nextEpisodeCountdownTimer (win (page p)) <> Some id ->
     id ∈ intervals (win (page (switchToEpisode ep p).1))) /\
  (isAdPlaying (ads (page (switchToEpisode ep p).1)) = true ->
     truthy (field ep "locked") = true /\
     (forall t, t ∈ qualityOrder -> valid (rendition ep t) = false) /\
     field ep "adstatus" = VBool true /\
     adPlugin p = true /\
     lockOverlayShown (switchToEpisode ep p).1 = true) /\
  ((switchToEpisode ep p).2 = Normal () ->
   truthy (field ep "locked") = true ->
   (forall t, t ∈ qualityOrder -> valid (rendition ep t) = false) ->
   lockOverlayShown (switchToEpisode ep p).1 = true /\
   (field ep "adstatus" = VBool true -> adPlugin p = true ->
    isAdPlaying (ads (page (switchToEpisode ep p).1)) = true)).
Proof.
  intros Hep.
  assert (Hcancel : forall id, adCountdownInterval (win (page p)) = Some id ->
            countdownCancelled id (clearAdCountdown (resetAdTracking (page p)))).
  { intros id Hid. unfold countdownCancelled, clearAdCountdown. simpl.
    rewrite Hid. simpl. split; [| done].
    rewrite elem_of_difference, elem_of_singleton. tauto. }
  assert (Hreset2 : adsReset (clearAdCountdown (resetAdTracking (page p)))).
  { unfold adsReset, clearAdCountdown. simpl.
    by destruct (adCountdownInterval (win (page p))). }
  destruct (prelude_facts (page p)) as (Hreset & Hnone & Hgone & Hkept).
  assert (Hswitch : switchToEpisode ep p
                    = loadEpisode ep (with_page (run switchPrelude (page p)) p)).
  { unfold switchToEpisode. by rewrite Hep. }
  rewrite Hswitch.
  set (p0 := with_page (run switchPrelude (page p)) p) in *.
  destruct (loadEpisode_cases ep p0) as (s' & Hads & Hwin & Hcases).
  change (page p0) with (run switchPrelude (page p)) in Hads, Hwin.
  destruct Hreset as (Hr1 & Hr2 & Hr3 & Hr4 & Hr5 & Hr6).
  rewrite <- Hads in Hr1, Hr2, Hr3, Hr4, Hr5, Hr6.
  rewrite <- Hwin in Hnone, Hgone, Hkept.
  destruct Hcases as [[Hplain Hthrows] | (Hoverlay & Hrecord & Hlocked & Hnovalid)].
  - rewrite Hplain. cbn [page with_page]. split_and!.
    + eexists _, _, _. split_and!; [reflexivity | done | done | done | done].
    + by repeat split.
    + done.
    + intros id Hid. split; [by apply Hgone | done].
    + done.
    + rewrite Hr4. done.
    + intros Hnormal Hlocked Hnovalid.
      destruct (Hthrows Hlocked Hnovalid) as [e He]. congruence.
  - rewrite Hoverlay.
    destruct (showLockOverlay_frame (with_page s' p0))
      as ((Hw & _ & H1 & H2 & H3 & H5 & H6 & _) & Hif & Hnormal).
    cbn [page with_page adPlugin] in *. split_and!.
    + eexists _, _, _. split_and!; [reflexivity | done | done | done | done].
    + unfold slotsReset. rewrite H1, H2, H3, H5, H6. by repeat split.
    + by rewrite Hw.
    + intros id Hid. unfold countdownCancelled. rewrite Hw.
      split; [by apply Hgone | done].
    + intros id. rewrite Hw. apply Hkept.
    + intros Hplaying. destruct (Hif Hplaying) as [Hold | (Hstatus & Hplugin & Hshown)].
      * congruence.
      * rewrite Hrecord in Hstatus. by split_and!.
    + intros Hret _ _. destruct (Hnormal Hret) as (Hshown & _ & Hplay).
      split; [done |]. intros Hstatus Hplugin. apply Hplay; [| done].
      by rewrite Hrecord.
Qed.

(** C9: a switch to a locked episode with nothing to play, while the
    mid-roll countdown runs on timer 7: the slots are reset and the
    timer is cancelled, and the blocked ad of the lock overlay is marked
    as playing. *)
Lemma switch_resets_then_cancels_witness :
  slotsReset (page (switchToEpisode lockedEpisode midCountdown).1)
  /\ countdownCancelled 7 (page (switchToEpisode lockedEpisode midCountdown).1)
  /\ isAdPlaying (ads (page (switchToEpisode lockedEpisode midCountdown).1)) = true.
Proof.
  destruct (switch_resets_then_cancels lockedEpisode midCountdown eq_refl)
    as (_ & Hreset & _ & Hcancelled & _ & _ & Hplays).
  split_and!; [exact Hreset | apply Hcancelled; reflexivity |].
  apply Hplays; [reflexivity | reflexivity | | reflexivity | reflexivity].
  intros t Ht. each_member Ht.
Defined.

(** The same switch to an episode that is not locked: no ad is marked as
    playing afterwards. *)
Lemma switch_to_open_episode :
  isAdPlaying (ads (page (switchToEpisode midOnly midCountdown).1)) = false.
Proof. reflexivity. Qed.

End SwitchFacts.

(** * Further properties *)

(** ** The continue-watching store under several operations *)

Section StoreCompositionFacts.
Import JS Browser Store Samples.

Lemma strict_eq_sym (a b : value) : strict_eq a b = strict_eq b a.
Proof.
  destruct a as [| | x | [| n | p] | u | |], b as [| | y | [| m | q] | v | |]; simpl;
    try done.
  - by destruct x, y.
  - by destruct n, m.
  - destruct (Qeq_bool p q) eqn:E, (Qeq_bool q p) eqn:E'; try done.
    + apply Qeq_bool_iff in E. symmetry in E. apply Qeq_bool_iff in E. congruence.
    + apply Qeq_bool_iff in E'. symmetry in E'. apply Qeq_bool_iff in E'. congruence.
  - apply String.eqb_sym.
Qed.

(** Two values strictly equal to a third are strictly equal. *)
Lemma strict_eq_trans (a b c : value) :
  strict_eq a b = true -> strict_eq b c = true -> strict_eq a c = true.
Proof.
  destruct a as [| | x | [| n | p] | u | |], b as [| | y | [| m | q] | v | |];
    try done; destruct c as [| | z | [| k | r] | w | |]; try done; simpl.
  - destruct x, y, z; done.
  - destruct n, m, k; done.
  - intros H1%Qeq_bool_iff H2%Qeq_bool_iff. apply Qeq_bool_iff. by rewrite H1.
  - intros H1%String.eqb_eq H2%String.eqb_eq. apply String.eqb_eq. congruence.
Qed.

Lemma normalise_keyLike (v : value) : keyLike v = true -> normalise v = v.
Proof. by destruct v as [| | | [| |] | | |]. Qed.

Lemma lacksMovieId_holds (movieId item : value) :
  nullish item = false ->
  lacksMovieId movieId item = Normal (negb (holds movieId item)).
Proof. intros H. unfold lacksMovieId, get. by rewrite H. Qed.

Lemma filter_lacksMovieId (movieId : value) (l : list value) :
  Forall (fun x => nullish x = false) l ->
  filter (lacksMovieId movieId) l
  = Normal (List.filter (fun x => negb (holds movieId x)) l).
Proof.
  induction 1 as [| x l Hx _ IH]; [done |].
  simpl. rewrite lacksMovieId_holds by done. rewrite IH. simpl.
  by destruct (holds movieId x).
Qed.

Lemma Forall_List_filter {A} (P : A -> Prop) (f : A -> bool) (l : list A) :
  Forall P l -> Forall P (List.filter f l).
Proof.
  induction 1 as [| x l Hx _ IH]; simpl; [done |].
  destruct (f x); [by constructor | done].
Qed.

(** What the list is after [removeEpisodeProgress], for a store whose
    entries can be read. *)
Lemma removeEpisodeProgress_list (movieId : value) (s : state) :
  VNull ∉ getContinueWatchingList s ->
  exists s',
    removeEpisodeProgress movieId s = (s', Normal ()) /\
    getContinueWatchingList s'
    = List.filter (fun x => negb (holds movieId x)) (getContinueWatchingList s) /\
    effects s'
    = (if bool_decide (device s = Some "app")
       then effects s ++ [CallHandler "playerAction" "saveEpisodeProgress"
                            (VArr (getContinueWatchingList s))]
       else effects s)%list.
Proof.
  intros Hnull.
  pose proof (entries_readable s Hnull) as Hread.
  pose proof (getContinueWatchingList_normalised s) as Hnorm.
  unfold removeEpisodeProgress. rewrite filter_lacksMovieId by done.
  assert (Hback : normalise <$> List.filter (fun x => negb (holds movieId x))
                                  (getContinueWatchingList s)
                  = List.filter (fun x => negb (holds movieId x))
                      (getContinueWatchingList s)).
  { apply normalised_fmap. by apply Forall_List_filter. }
  change (device (setItem ?k ?t s)) with (device s).
  destruct (bool_decide (device s = Some "app")); eexists;
    (split; [reflexivity |]);
    rewrite ?getContinueWatchingList_perform, getContinueWatchingList_setItem;
    by rewrite Hback.
Qed.

(** The first entry with an id, in a list with some entries left out, is
    the first one in the whole list, when no entry with the id is left
    out. *)
Lemma list_find_filter_snd (P : value -> bool) (f : value -> bool) (l : list value) :
  (forall x, x ∈ l -> P x = true -> f x = true) ->
  snd <$> list_find (fun x => P x = true) (List.filter f l)
  = snd <$> list_find (fun x => P x = true) l.
Proof.
  induction l as [| x l IH]; intros Hkeep; [done |].
  assert (IH' := IH (fun y Hy => Hkeep y (list_elem_of_further _ _ _ Hy))).
  simpl. destruct (P x) eqn:HP.
  - rewrite (Hkeep x (list_elem_of_here _ _) HP). simpl.
    by rewrite !decide_True by done.
  - rewrite decide_False by done.
    destruct (f x); simpl.
    + rewrite ?HP. rewrite decide_False by done.
      destruct (list_find _ (List.filter f l)) as [[i y] |],
               (list_find _ l) as [[j z] |]; simpl in *; congruence.
    + destruct (list_find _ (List.filter f l)) as [[i y] |],
               (list_find _ l) as [[j z] |]; simpl in *; congruence.
Qed.

Lemma not_elem_of_List_filter {A} (x : A) (f : A -> bool) (l : list A) :
  x ∉ l -> x ∉ List.filter f l.
Proof.
  intros Hx Hin. apply Hx. apply list_elem_of_In in Hin.
  apply List.filter_In in Hin as [Hin _]. by apply list_elem_of_In.
Qed.

(** X1.  [removeEpisodeProgress] (revision A, lines 1503-1513), on a list
    without [null] entries, returns normally.  The list it leaves is the
    old one without the entries whose [movieId] is strictly equal to the
    given id, the others in their order; a lookup of the id then gives
    [null], and the lookup of any other id gives what it gave before.  In
    the app the host is called once, with the action 'saveEpisodeProgress'
    and the list as it was before the removal. *)
Theorem remove_forgets_one_id (movieId : value) (s : state) :
  VNull ∉ getContinueWatchingList s ->
  exists s',
    removeEpisodeProgress movieId s = (s', Normal ()) /\
    getContinueWatchingList s'
    = List.filter (fun x => negb (holds movieId x)) (getContinueWatchingList s) /\
    getSavedEpisode movieId s' = Normal VNull /\
    (forall other, strict_eq other movieId = false ->
       getSavedEpisode other s' = getSavedEpisode other s) /\
    effects s'
    = (if bool_decide (device s = Some "app")
       then effects s ++ [CallHandler "playerAction" "saveEpisodeProgress"
                            (VArr (getContinueWatchingList s))]
       else effects s)%list.
Proof.
  intros Hnull.
  destruct (removeEpisodeProgress_list movieId s Hnull) as (s' & Hrm & Hlist & Heff).
  pose proof (entries_readable s Hnull) as Hread.
  assert (Hread' : Forall (fun x => nullish x = false) (getContinueWatchingList s')).
  { rewrite Hlist. by apply Forall_List_filter. }
  exists s'. split_and!; try done.
  - unfold getSavedEpisode. rewrite find_list_find by done. rewrite Hlist.
    assert (list_find (fun x => holds movieId x = true)
              (List.filter (fun x => negb (holds movieId x)) (getContinueWatchingList s))
            = None) as ->; [| done].
    apply list_find_None, Forall_forall. intros x Hx%list_elem_of_In.
    apply List.filter_In in Hx as [_ Hx]. by destruct (holds movieId x).
  - intros other Hother. unfold getSavedEpisode.
    rewrite !find_list_find by done. rewrite Hlist.
    rewrite (list_find_filter_snd (holds other)); [done |].
    intros x _ Hx. apply negb_true_iff. unfold holds in *.
    destruct (strict_eq (field x "movieId") movieId) eqn:E; [| done].
    rewrite strict_eq_sym in Hx.
    by rewrite (strict_eq_trans _ _ _ Hx E) in Hother.
Qed.

(** X1: the first of two entries is removed in the browser. *)
Lemma remove_forgets_one_id_witness :
  exists s',
    removeEpisodeProgress (VStr "m1") (withList (entries 2) initial) = (s', Normal ())
    /\ getContinueWatchingList s' = [entry "m2" "S" (progress 10 5) "3500"]
    /\ getSavedEpisode (VStr "m1") s' = Normal VNull
    /\ effects s' = [].
Proof.
  destruct (remove_forgets_one_id (VStr "m1") (withList (entries 2) initial))
    as (s' & Hrun & Hlist & Hgone & _ & Heffects).
  - vm_compute. no_member.
  - exists s'. split_and!; [assumption | rewrite Hlist; reflexivity | assumption
                           | rewrite Heffects; reflexivity].
Defined.


Lemma filter_none_holding (movieId : value) (l : list value) :
  (forall item, item ∈ l -> holds movieId item = false) ->
  List.filter (fun x => negb (holds movieId x)) l = l.
Proof.
  induction l as [| x l IH]; intros H; [done |]. simpl.
  rewrite (H x (list_elem_of_here _ _)). simpl. f_equal.
  apply IH. intros y Hy. apply H. by right.
Qed.

Lemma elem_of_take_whole {A} (x : A) (n : nat) (l : list A) :
  x ∈ take n l -> x ∈ l.
Proof. intros (i & Hi & _)%elem_of_take. by eapply list_elem_of_lookup_2. Qed.

(** X2.  Saving a record whose id (truthy, and a string, boolean or finite
    number) is not in the list and then removing that id gives back the
    first 14 entries of the list: the list itself when it had at most 14
    entries, while a 15th entry is lost for good. *)
Theorem save_then_remove (episodeData : value) (s : state) :
  truthy (field episodeData "movieId") = true ->
  keyLike (field episodeData "movieId") = true ->
  VNull ∉ getContinueWatchingList s ->
  (forall item, item ∈ getContinueWatchingList s ->
     holds (field episodeData "movieId") item = false) ->
  exists s1 s2,
    saveEpisodeProgress episodeData s = (s1, Normal ()) /\
    removeEpisodeProgress (field episodeData "movieId") s1 = (s2, Normal ()) /\
    getContinueWatchingList s2 = take 14 (getContinueWatchingList s) /\
    ((length (getContinueWatchingList s) <= 14)%nat ->
     getContinueWatchingList s2 = getContinueWatchingList s).
Proof.
  intros Hid Hkey Hnull Hfresh.
  destruct (saveEpisodeProgress_list episodeData s Hid Hnull) as (s1 & Hsave & Hlist).
  assert (list_find (fun x => holds (field episodeData "movieId") x = true)
            (getContinueWatchingList s) = None) as Hnone.
  { apply list_find_None, Forall_forall. intros x Hx. by rewrite Hfresh. }
  rewrite Hnone in Hlist.
  change (take 15 (persisted episodeData :: getContinueWatchingList s))
    with (persisted episodeData :: take 14 (getContinueWatchingList s)) in Hlist.
  assert (Hnull1 : VNull ∉ getContinueWatchingList s1).
  { rewrite Hlist. intros [H | H]%elem_of_cons; [done |].
    apply Hnull. by eapply elem_of_take_whole. }
  destruct (removeEpisodeProgress_list (field episodeData "movieId") s1 Hnull1)
    as (s2 & Hrm & Hlist2 & _).
  exists s1, s2. split_and!; [done | done | | ].
  - rewrite Hlist2, Hlist. simpl. rewrite holds_persisted by done. simpl.
    apply filter_none_holding. intros item Hitem. apply Hfresh.
    by eapply elem_of_take_whole.
  - intros Hlen. rewrite Hlist2, Hlist. simpl. rewrite holds_persisted by done. simpl.
    rewrite take_ge by lia. by apply filter_none_holding.
Qed.

(** X2: a new record is saved to a list of three entries and removed
    again. *)
Lemma save_then_remove_witness :
  exists s1 s2,
    saveEpisodeProgress (episode "m9" "a" "b" "c" (progress 1 1))
      (withList (entries 3) initial) = (s1, Normal ())
    /\ removeEpisodeProgress (VStr "m9") s1 = (s2, Normal ())
    /\ getContinueWatchingList s2 = entries 3.
Proof.
  destruct (save_then_remove (episode "m9" "a" "b" "c" (progress 1 1))
              (withList (entries 3) initial))
    as (s1 & s2 & Hsave & Hremove & _ & Hsame).
  - reflexivity.
  - reflexivity.
  - vm_compute. no_member.
  - intros item Hin. vm_compute in Hin. each_member Hin.
  - exists s1, s2. split_and!; [assumption | assumption |].
    rewrite Hsame; [reflexivity | vm_compute; lia].
Defined.

(** The text in the store after [saveEpisodeProgress]. *)
Lemma saveEpisodeProgress_store (episodeData : value) (s : state) :
  truthy (field episodeData "movieId") = true ->
  VNull ∉ getContinueWatchingList s ->
  exists s',
    saveEpisodeProgress episodeData s = (s', Normal ()) /\
    localStorage s'
    = <[CONTINUE_WATCHING_KEY :=
          JSON_stringify
            (VArr (take 15
               match list_find (fun x => holds (field episodeData "movieId") x = true)
                       (getContinueWatchingList s) with
               | Some (i, _) => <[i := dataToStore episodeData]> (getContinueWatchingList s)
               | None => dataToStore episodeData :: getContinueWatchingList s
               end))]> (localStorage s).
Proof.
  intros Hid Hnull.
  pose proof (entries_readable s Hnull) as Hread.
  unfold saveEpisodeProgress.
  assert (truthy episodeData = true) as -> by (by destruct episodeData).
  rewrite Hid. simpl. rewrite findIndex_list_find by done.
  set (l := getContinueWatchingList s) in *.
  set (l1 := match fst <$> list_find _ l with
             | Some i => <[i := dataToStore episodeData]> l
             | None => dataToStore episodeData :: l
             end).
  assert (Hl1 : l1 = match list_find (fun x => holds (field episodeData "movieId") x = true) l with
                     | Some (i, _) => <[i := dataToStore episodeData]> l
                     | None => dataToStore episodeData :: l
                     end).
  { subst l1. by destruct (list_find _ l) as [[i y] |]. }
  assert (Hl2 : (if (15 <? length l1)%nat then take 15 l1 else l1) = take 15 l1).
  { destruct (15 <? length l1)%nat eqn:E; [done |].
    apply Nat.ltb_ge in E. by rewrite take_ge. }
  rewrite Hl2, Hl1.
  destruct (bool_decide _); eexists; (split; [reflexivity | done]).
Qed.

Lemma getContinueWatchingList_store (s s' : state) :
  localStorage s' = localStorage s ->
  getContinueWatchingList s' = getContinueWatchingList s.
Proof. intros H. unfold getContinueWatchingList, getItem. by rewrite H. Qed.

(** No [null] entry comes in with a saved record. *)
Lemma saved_list_no_null (episodeData : value) (found : option (nat * value))
    (l : list value) :
  VNull ∉ l ->
  VNull ∉ take 15 match found with
                  | Some (i, _) => <[i := persisted episodeData]> l
                  | None => persisted episodeData :: l
                  end.
Proof.
  intros Hnull Hin%elem_of_take_whole.
  assert (Forall (fun x => x <> VNull) l) as Hall.
  { apply Forall_forall. by intros x Hx ->. }
  assert (persisted episodeData <> VNull) as Hp by done.
  assert (Forall (fun x => x <> VNull)
            match found with
            | Some (i, _) => <[i := persisted episodeData]> l
            | None => persisted episodeData :: l
            end) as Hall'.
  { destruct found as [[i y] |]; [by apply Forall_insert | by constructor]. }
  rewrite Forall_forall in Hall'. by apply (Hall' VNull).
Qed.

(** X3.  Saving the same record twice in a row: on a list of at most 15
    entries without [null], the second [saveEpisodeProgress] leaves the
    store and the list as the first one left them. *)
Theorem save_twice (episodeData : value) (s : state) :
  truthy (field episodeData "movieId") = true ->
  keyLike (field episodeData "movieId") = true ->
  VNull ∉ getContinueWatchingList s ->
  (length (getContinueWatchingList s) <= 15)%nat ->
  exists s1 s2,
    saveEpisodeProgress episodeData s = (s1, Normal ()) /\
    saveEpisodeProgress episodeData s1 = (s2, Normal ()) /\
    localStorage s2 = localStorage s1 /\
    getContinueWatchingList s2 = getContinueWatchingList s1.
Proof.
  intros Hid Hkey Hnull Hlen.
  destruct (saveEpisodeProgress_list episodeData s Hid Hnull) as (s1 & Hsave & Hlist).
  destruct (saveEpisodeProgress_store episodeData s Hid Hnull) as (s1' & Hsave' & Hstore).
  rewrite Hsave in Hsave'. injection Hsave' as <-.
  set (id := field episodeData "movieId") in *.
  set (l := getContinueWatchingList s) in *.
  set (P := fun x : value => holds id x = true) in *.
  assert (Hread : Forall (fun x => nullish x = false) l) by by apply entries_readable.
  assert (Hnull1 : VNull ∉ getContinueWatchingList s1).
  { rewrite Hlist. by apply saved_list_no_null. }
  destruct (saveEpisodeProgress_store episodeData s1 Hid Hnull1) as (s2 & Hsave2 & Hstore2).
  fold id in Hstore2.
  assert (Hsame : localStorage s2 = localStorage s1).
  { rewrite Hstore2, Hstore. rewrite insert_insert_eq. f_equal. f_equal. f_equal.
    rewrite Hlist. fold P.
    destruct (list_find P l) as [[i x] |] eqn:Hfind.
    - apply list_find_Some in Hfind as (Hi & Hx & Hleast).
      pose proof (lookup_lt_Some _ _ _ Hi) as Hlt.
      rewrite (take_ge (<[i:=persisted episodeData]> l)) by (rewrite length_insert; lia).
      assert (list_find P (<[i := persisted episodeData]> l)
              = Some (i, persisted episodeData)) as ->.
      { apply list_find_Some. split_and!.
        - by apply list_lookup_insert_eq.
        - by apply holds_persisted.
        - intros j y Hj Hji. rewrite list_lookup_insert_ne in Hj by lia. eauto. }
      by rewrite list_insert_insert_eq.
    - change (take 15 (persisted episodeData :: l))
        with (persisted episodeData :: take 14 l).
      assert (list_find P (persisted episodeData :: take 14 l)
              = Some (0%nat, persisted episodeData)) as ->.
      { apply list_find_Some. split_and!; [done | by apply holds_persisted | intros; lia]. }
      simpl. f_equal. rewrite take_take. f_equal. }
  exists s1, s2. split_and!; try done. by apply getContinueWatchingList_store.
Qed.

(** X3: the second entry of three is saved twice. *)
Lemma save_twice_witness :
  exists s1 s2,
    saveEpisodeProgress (episode "m2" "a" "b" "c" (progress 7 3))
      (withList (entries 3) initial) = (s1, Normal ())
    /\ saveEpisodeProgress (episode "m2" "a" "b" "c" (progress 7 3)) s1
       = (s2, Normal ())
    /\ getContinueWatchingList s2 = getContinueWatchingList s1.
Proof.
  destruct (save_twice (episode "m2" "a" "b" "c" (progress 7 3))
              (withList (entries 3) initial))
    as (s1 & s2 & Hfirst & Hsecond & _ & Hlist).
  - reflexivity.
  - reflexivity.
  - vm_compute. no_member.
  - vm_compute. lia.
  - exists s1, s2. split_and!; assumption.
Defined.

(** What the monadic [filter] returns is a sublist. *)
Lemma filter_sublist (f : value -> completion bool) (l l' : list value) :
  filter f l = Normal l' -> l' `sublist_of` l.
Proof.
  revert l'. induction l as [| x l IH]; intros l'; simpl.
  - intros [= <-]. constructor.
  - destruct (f x) as [keep |]; [| done]. simpl.
    destruct (filter f l) as [rest |]; [| done]. simpl.
    intros [= <-]. destruct keep; [apply sublist_skip | apply sublist_cons]; by apply IH.
Qed.

Lemma sublist_normalised (l l' : list value) :
  l' `sublist_of` l -> Forall (fun x => normalise x = x) l ->
  normalise <$> l' = l'.
Proof.
  intros Hsub Hnorm. apply normalised_fmap.
  apply Forall_forall. intros x Hx. rewrite Forall_forall in Hnorm.
  apply Hnorm. by eapply elem_of_sublist.
Qed.

Lemma strict_eq_congr (a b c : value) :
  strict_eq a b = true -> strict_eq a c = strict_eq b c.
Proof.
  intros Hab. destruct (strict_eq b c) eqn:Hbc.
  - by eapply strict_eq_trans.
  - destruct (strict_eq a c) eqn:Hac; [| done].
    rewrite strict_eq_sym in Hab. by rewrite (strict_eq_trans _ _ _ Hab Hac) in Hbc.
Qed.

Lemma distinctIds_sublist (l l' : list value) :
  l' `sublist_of` l -> distinctIds l = true -> distinctIds l' = true.
Proof.
  induction 1 as [| x l1 l2 Hsub IH | x l1 l2 Hsub IH]; simpl; [done | |].
  - intros [Hx Hl]%andb_true_iff. apply andb_true_iff. split; [| by apply IH].
    rewrite forallb_forall in Hx |- *. intros y Hy. apply Hx.
    apply list_elem_of_In. apply list_elem_of_In in Hy. by eapply elem_of_sublist.
  - intros [_ Hl]%andb_true_iff. by apply IH.
Qed.

Lemma elem_of_insert_cases {A} (l : list A) (i : nat) (x y : A) :
  y ∈ <[i := x]> l -> y = x \/ y ∈ l.
Proof.
  revert i. induction l as [| z l IH]; intros [| i]; simpl; try by right.
  - intros [-> | H]%elem_of_cons; [by left | right; by right].
  - intros [-> | H]%elem_of_cons; [right; by left |].
    destruct (IH i H) as [-> | H']; [by left | right; by right].
Qed.

(** An entry replaced by one with the same id. *)
Lemma distinctIds_insert (l : list value) (i : nat) (x p : value) :
  l !! i = Some x ->
  strict_eq (field x "movieId") (field p "movieId") = true ->
  distinctIds l = true -> distinctIds (<[i := p]> l) = true.
Proof.
  revert i. induction l as [| z l IH]; intros i Hi Hsame; [done |].
  destruct i as [| i]; simpl in *.
  - injection Hi as ->. intros [Hx Hl]%andb_true_iff. apply andb_true_iff.
    split; [| done]. rewrite forallb_forall in Hx |- *. intros y Hy.
    rewrite <- (strict_eq_congr _ _ _ Hsame). by apply Hx.
  - intros [Hz Hl]%andb_true_iff. apply andb_true_iff. split; [| by eapply IH].
    rewrite forallb_forall in Hz |- *. intros y Hy%list_elem_of_In.
    apply elem_of_insert_cases in Hy as [-> | Hy].
    + rewrite (strict_eq_sym (field z "movieId")).
      rewrite <- (strict_eq_congr _ _ _ Hsame).
      rewrite strict_eq_sym. apply Hz, list_elem_of_In. by eapply list_elem_of_lookup_2.
    + by apply Hz, list_elem_of_In.
Qed.

(** The list read back after the cleanup is a sublist of the list
    before. *)
Lemma cleanup_sublist (s : state) :
  getContinueWatchingList (cleanupCompletedMovies s)
    `sublist_of` getContinueWatchingList s.
Proof.
  pose proof (getContinueWatchingList_normalised s) as Hnorm.
  unfold cleanupCompletedMovies, cleanupBody.
  destruct (getItem CONTINUE_WATCHING_KEY s) as [[txt | v] |] eqn:Hget; [| | done].
  - destruct txt; simpl; done.
  - simpl. destruct (normalise v) as [| | | | | items |] eqn:Hv; simpl; try done.
    assert (getContinueWatchingList s = items) as Hl.
    { unfold getContinueWatchingList. rewrite Hget. simpl. by rewrite Hv. }
    destruct (filter keepItem items) as [kept |] eqn:Hf; simpl; [| done].
    destruct (0 <? length items - length kept)%nat; [| done].
    rewrite getContinueWatchingList_setItem, Hl.
    apply filter_sublist in Hf.
    rewrite (sublist_normalised items kept); [done | done | by rewrite <- Hl].
Qed.

(** The list read back after a removal is a sublist of the list before,
    whether the removal returns or throws. *)
Lemma remove_sublist (movieId : value) (s : state) :
  getContinueWatchingList (removeEpisodeProgress movieId s).1
    `sublist_of` getContinueWatchingList s.
Proof.
  pose proof (getContinueWatchingList_normalised s) as Hnorm.
  unfold removeEpisodeProgress.
  destruct (filter _ _) as [kept |] eqn:Hf; [| done].
  apply filter_sublist in Hf.
  destruct (bool_decide _); simpl;
    rewrite ?getContinueWatchingList_perform, getContinueWatchingList_setItem;
    by rewrite (sublist_normalised (getContinueWatchingList s) kept).
Qed.

(** X4.  No id twice.  When the entries of the list have pairwise different
    [movieId]s, so have the entries of the list after
    [removeEpisodeProgress], after [cleanupCompletedMovies], and after
    [saveEpisodeProgress] of a record with a truthy id that is a string, a
    boolean or a finite number (on a list without [null]). *)
Theorem ids_stay_distinct (s : state) :
  distinctIds (getContinueWatchingList s) = true ->
  (forall movieId,
     distinctIds (getContinueWatchingList (removeEpisodeProgress movieId s).1) = true) /\
  distinctIds (getContinueWatchingList (cleanupCompletedMovies s)) = true /\
  (forall episodeData,
     truthy (field episodeData "movieId") = true ->
     keyLike (field episodeData "movieId") = true ->
     VNull ∉ getContinueWatchingList s ->
     distinctIds (getContinueWatchingList (saveEpisodeProgress episodeData s).1) = true).
Proof.
  intros Hd. split_and!.
  - intros movieId. eapply distinctIds_sublist; [apply remove_sublist | done].
  - eapply distinctIds_sublist; [apply cleanup_sublist | done].
  - intros episodeData Hid Hkey Hnull.
    destruct (saveEpisodeProgress_list episodeData s Hid Hnull) as (s' & Hsave & Hlist).
    rewrite Hsave. cbn [fst]. rewrite Hlist.
    eapply distinctIds_sublist; [apply sublist_take |].
    assert (Hp : field (persisted episodeData) "movieId" = field episodeData "movieId").
    { rewrite persisted_movieId by done. by apply normalise_keyLike. }
    destruct (list_find _ _) as [[i x] |] eqn:Hfind.
    + apply list_find_Some in Hfind as (Hi & Hx & _).
      apply (distinctIds_insert _ i x); [done | | done]. by rewrite Hp.
    + apply list_find_None in Hfind. cbn [distinctIds].
      apply andb_true_iff. split; [| done].
      apply forallb_forall. intros y Hy%list_elem_of_In. rewrite Hp.
      rewrite Forall_forall in Hfind. specialize (Hfind y Hy).
      unfold holds in Hfind. rewrite strict_eq_sym.
      by destruct (strict_eq (field y "movieId") (field episodeData "movieId")).
Qed.

(** X4: three entries with the ids m1, m2 and m3. *)
Lemma ids_stay_distinct_witness :
  distinctIds
    (getContinueWatchingList
       (removeEpisodeProgress (VStr "m2") (withList (entries 3) initial)).1) = true
  /\ distinctIds
       (getContinueWatchingList
          (saveEpisodeProgress (episode "m2" "a" "b" "c" (progress 7 3))
             (withList (entries 3) initial)).1) = true.
Proof.
  destruct (ids_stay_distinct (withList (entries 3) initial)) as (Hremove & _ & Hsave).
  - reflexivity.
  - split; [apply Hremove |].
    apply Hsave; [reflexivity | reflexivity |]. vm_compute. no_member.
Defined.

(** X5.  [getSavedEpisode] (lines 1514-1517), on a list without [null]
    entries and for an id that is a string, a boolean or a finite number,
    returns normally: [null] when no entry has the id, and otherwise the
    first entry of the list that has it.  When nothing is stored under the
    key, or text that is not JSON, or JSON that is not an array, the list
    reads as empty and the lookup gives [null]. *)
Theorem getSavedEpisode_first_with_id (movieId : value) (s : state) :
  (VNull ∉ getContinueWatchingList s ->
   keyLike movieId = true ->
   exists r,
     getSavedEpisode movieId s = Normal r /\
     ((forall item, item ∈ getContinueWatchingList s -> holds movieId item = false) ->
      r = VNull) /\
     (forall i x,
        getContinueWatchingList s !! i = Some x -> holds movieId x = true ->
        (forall j y, getContinueWatchingList s !! j = Some y -> (j < i)%nat ->
                     holds movieId y = false) ->
        r = x)) /\
  (getItem CONTINUE_WATCHING_KEY s = None
   \/ (exists txt, getItem CONTINUE_WATCHING_KEY s = Some (Raw txt))
   \/ (exists v, getItem CONTINUE_WATCHING_KEY s = Some (Stringified v)
                 /\ isArray v = false) ->
   getContinueWatchingList s = [] /\ getSavedEpisode movieId s = Normal VNull).
Proof.
  split.
  - intros Hnull Hkey.
    pose proof (entries_readable s Hnull) as Hread.
    pose proof (getContinueWatchingList_normalised s) as Hnorm.
    unfold getSavedEpisode. rewrite find_list_find by done.
    destruct (list_find _ _) as [[i x] |] eqn:Hfind; simpl.
    + apply list_find_Some in Hfind as (Hi & Hx & Hleast).
      assert (truthy x = true) as Hobj.
      { unfold holds in Hx. destruct x as [| | | | | | ps]; try done;
          by destruct movieId. }
      exists x. unfold or_else. rewrite Hobj. split_and!; [done | |].
      * intros Hnone. rewrite Hnone in Hx; [done |]. by eapply list_elem_of_lookup_2.
      * intros j y Hj Hy Hfirst.
        destruct (Nat.lt_trichotomy i j) as [Hlt | [-> | Hgt]].
        -- rewrite (Hfirst i x Hi Hlt) in Hx. done.
        -- congruence.
        -- specialize (Hleast j y Hj Hgt). by rewrite Hy in Hleast.
    + apply list_find_None in Hfind. exists VNull. split_and!; [done | done |].
      intros i x Hi Hx _. rewrite Forall_forall in Hfind.
      destruct (Hfind x); [by eapply list_elem_of_lookup_2 | done].
  - intros Hcorrupt.
    assert (getContinueWatchingList s = []) as Hl.
    { unfold getContinueWatchingList.
      destruct Hcorrupt as [-> | [(txt & ->) | (v & -> & Hv)]]; [done | by destruct txt |].
      simpl. destruct v as [| | | [| |] | | |]; done. }
    split; [done |]. unfold getSavedEpisode. by rewrite Hl.
Qed.

End StoreCompositionFacts.

(** ** The cleanup, run again *)

Section CleanupCompositionFacts.
Import JS Browser Selector Store Samples.

(** Filtering what a filter kept keeps all of it. *)
Lemma filter_kept (f : value -> completion bool) (l l' : list value) :
  filter f l = Normal l' -> filter f l' = Normal l'.
Proof.
  revert l'. induction l as [| x l IH]; intros l'; simpl.
  - by intros [= <-].
  - destruct (f x) as [keep |] eqn:Hx; [| done]. simpl.
    destruct (filter f l) as [rest |]; [| done]. simpl.
    intros [= <-]. destruct keep; [| by apply IH].
    simpl. rewrite Hx. simpl. by rewrite (IH rest).
Qed.

(** The body of the cleanup reads nothing but the store. *)
Lemma cleanupBody_log (l : level) (message : string) (s : state) :
  cleanupBody (log l message s)
  = match cleanupBody s with
    | Normal s' => Normal (log l message s')
    | Throw e => Throw e
    end.
Proof.
  unfold cleanupBody.
  change (getItem CONTINUE_WATCHING_KEY (log l message s))
    with (getItem CONTINUE_WATCHING_KEY s).
  destruct (getItem CONTINUE_WATCHING_KEY s) as [t |]; [| done].
  destruct (negb (present (Some t))); [done |].
  destruct (JSON_parse t) as [[| | | | | items |] |]; try done. simpl.
  destruct (filter keepItem items) as [kept |]; [| done]. simpl.
  by destruct (0 <? length items - length kept)%nat.
Qed.

(** What the body returns is a state the body leaves as it is. *)
Lemma cleanupBody_fixed (s s' : state) :
  cleanupBody s = Normal s' -> cleanupBody s' = Normal s'.
Proof.
  unfold cleanupBody at 1.
  destruct (getItem CONTINUE_WATCHING_KEY s) as [t |] eqn:Hget;
    [| intros [= <-]; unfold cleanupBody; by rewrite Hget].
  destruct (negb (present (Some t))) eqn:Hpresent;
    [intros [= <-]; unfold cleanupBody; by rewrite Hget, Hpresent |].
  destruct t as [txt | v]; [done |]. simpl.
  destruct (normalise v) as [| | | | | items |] eqn:Hv;
    try (intros [= <-]; unfold cleanupBody; rewrite Hget; simpl; by rewrite Hv).
  destruct (filter keepItem items) as [kept |] eqn:Hf; [| done]. simpl.
  destruct (0 <? length items - length kept)%nat eqn:Hcount;
    [| intros [= <-]; unfold cleanupBody; rewrite Hget; simpl;
       by rewrite Hv, Hf; simpl; rewrite Hcount].
  intros [= <-]. unfold cleanupBody, getItem, setItem. simpl.
  rewrite lookup_insert_eq. simpl.
  assert (Forall (fun x => normalise x = x) items) as Hnorm.
  { assert (normalise (normalise v) = normalise v) as Hn by apply normalise_idemp.
    rewrite Hv in Hn. simpl in Hn. injection Hn as Hn.
    apply Forall_forall. intros x Hx.
    change (map normalise items) with (normalise <$> items) in Hn.
    apply list_elem_of_lookup_1 in Hx as [i Hi].
    apply (f_equal (fun l => l !! i)) in Hn. rewrite list_lookup_fmap, Hi in Hn.
    simpl in Hn. congruence. }
  change (map normalise kept) with (normalise <$> kept).
  rewrite (sublist_normalised items kept); [| by eapply filter_sublist | done].
  rewrite (filter_kept _ _ _ Hf). simpl.
  by rewrite Nat.sub_diag.
Qed.

(** X6.  [cleanupCompletedMovies] (lines 36-113) twice is the same as once:
    a second run leaves the store and the list as the first run left
    them, and when the first run met no entry it cannot read, the whole
    state, console included. *)
Theorem cleanup_twice (s : state) :
  localStorage (cleanupCompletedMovies (cleanupCompletedMovies s))
  = localStorage (cleanupCompletedMovies s) /\
  getContinueWatchingList (cleanupCompletedMovies (cleanupCompletedMovies s))
  = getContinueWatchingList (cleanupCompletedMovies s) /\
  (forall s', cleanupBody s = Normal s' ->
     cleanupCompletedMovies (cleanupCompletedMovies s) = cleanupCompletedMovies s).
Proof.
  assert (Hstore : localStorage (cleanupCompletedMovies (cleanupCompletedMovies s))
                   = localStorage (cleanupCompletedMovies s)).
  { unfold cleanupCompletedMovies at 2 3.
    destruct (cleanupBody s) as [s' | e] eqn:Hbody.
    - unfold cleanupCompletedMovies. by rewrite (cleanupBody_fixed _ _ Hbody).
    - unfold cleanupCompletedMovies. by rewrite cleanupBody_log, Hbody. }
  split_and!; [done | by apply getContinueWatchingList_store |].
  intros s' Hbody. unfold cleanupCompletedMovies at 2 3. rewrite Hbody.
  unfold cleanupCompletedMovies. by rewrite (cleanupBody_fixed _ _ Hbody).
Qed.

(** X7.  [cleanupCompletedMovies] only takes entries away: the list after
    it is the list before it with some entries left out, the others in
    their order; every other key of the store, the saved quality
    preference among them, reads as before, and no call is made to the
    player or to the host. *)
Theorem cleanup_only_shrinks (s : state) :
  getContinueWatchingList (cleanupCompletedMovies s)
    `sublist_of` getContinueWatchingList s /\
  (forall k, k <> CONTINUE_WATCHING_KEY ->
     getItem k (cleanupCompletedMovies s) = getItem k s) /\
  getUserQualityPreference (cleanupCompletedMovies s) = getUserQualityPreference s /\
  effects (cleanupCompletedMovies s) = effects s.
Proof.
  assert (Hkeys : forall k, k <> CONTINUE_WATCHING_KEY ->
            getItem k (cleanupCompletedMovies s) = getItem k s).
  { intros k Hk. unfold cleanupCompletedMovies, cleanupBody.
    destruct (getItem CONTINUE_WATCHING_KEY s) as [t |]; [| done].
    destruct (negb (present (Some t))); [done |].
    destruct (JSON_parse t) as [[| | | | | items |] |]; try done. simpl.
    destruct (filter keepItem items) as [kept |]; [| done]. simpl.
    destruct (0 <? length items - length kept)%nat; [| done].
    unfold getItem, setItem. simpl. by rewrite lookup_insert_ne. }
  split_and!; [apply cleanup_sublist | done | |].
  - unfold getUserQualityPreference. by rewrite Hkeys.
  - unfold cleanupCompletedMovies, cleanupBody.
    destruct (getItem CONTINUE_WATCHING_KEY s) as [t |]; [| done].
    destruct (negb (present (Some t))); [done |].
    destruct (JSON_parse t) as [[| | | | | items |] |]; try done. simpl.
    destruct (filter keepItem items) as [kept |]; [| done]. simpl.
    by destruct (0 <? length items - length kept)%nat.
Qed.

End CleanupCompositionFacts.

(** ** What the selector returns *)

Section SelectorSafetyFacts.
Import JS Browser Selector Samples.

(** A URL the availability test accepts is truthy and free of
    'not found'; when it is a string it is valid. *)
(** X8.  What the selector hands to the player can be played.  In the
    revisions A and C a rendition that [determinePlaybackQualityAndUrl]
    returns is a non-empty string without 'not found', and it is the
    record's rendition of the quality that is returned with it; in
    revision B it is the record's rendition of that quality, and a string
    of that kind whenever it is a string or missing.  And the revisions A
    and B return [null] only when none of the three qualities has such a
    rendition. *)
Theorem selection_is_playable (movieData : value)
    (preferredQuality : option string) (s : state) :
  (forall s' p,
     RevA.determinePlaybackQualityAndUrl movieData preferredQuality s
     = (s', Normal (Some p)) ->
     valid (url p) = true /\ url p = rendition movieData (quality p)) /\
  (forall s' p,
     RevC.determinePlaybackQualityAndUrl movieData preferredQuality s
     = (s', Normal (Some p)) ->
     valid (url p) = true /\ url p = rendition movieData (quality p)) /\
  (forall s' p,
     RevB.determinePlaybackQualityAndUrl movieData preferredQuality s
     = (s', Normal (Some p)) ->
     url p = rendition movieData (quality p) /\
     (wellFormed (url p) = true -> valid (url p) = true)) /\
  (forall s',
     RevA.determinePlaybackQualityAndUrl movieData preferredQuality s
     = (s', Normal None) ->
     forall t, t ∈ qualityOrder -> valid (rendition movieData t) = false) /\
  (forall s',
     RevB.determinePlaybackQualityAndUrl movieData preferredQuality s
     = (s', Normal None) ->
     forall t, t ∈ qualityOrder -> valid (rendition movieData t) = false).
Proof.
  split_and!.
  - intros s' p. unfold RevA.determinePlaybackQualityAndUrl.
    destruct (get movieData "video") as [videoData |] eqn:Hget; [| done].
    destruct (negb (truthy videoData)); [done |].
    destruct (choose _ _ _ _) as [[q |] |] eqn:Hchoose; [| | done].
    + destruct (setVideoType _ _ _) as [s1 [[] | e]] eqn:Hset; [| done].
      intros [= <- <-]. apply choose_Some in Hchoose as [Ha Hurl].
      apply setVideoType_Normal in Hset as [u Hu].
      assert (videoData = field movieData "video") as ->.
      { unfold get in Hget. destruct (nullish movieData); congruence. }
      split; [| done]. rewrite Hu in Ha |- *. by apply available_string.
    + by destruct (setVideoType _ _ _) as [s1 [[] | e]].
  - intros s' p. unfold RevC.determinePlaybackQualityAndUrl.
    destruct (get movieData "video") as [videoData |] eqn:Hget; [| done].
    destruct (negb (truthy videoData)); [done |].
    destruct (choose _ _ _ _) as [[q |] |] eqn:Hchoose; [| | done].
    + destruct (setVideoType _ _ _) as [s1 [[] | e]] eqn:Hset; [| done].
      intros [= <- <-]. apply choose_Some in Hchoose as [Ha Hurl].
      apply setVideoType_Normal in Hset as [u Hu].
      assert (videoData = field movieData "video") as ->.
      { unfold get in Hget. destruct (nullish movieData); congruence. }
      split; [| done]. rewrite Hu in Ha |- *. by apply available_string.
    + by destruct (setVideoType _ _ _) as [s1 [[] | e]].
  - intros s' p. unfold RevB.determinePlaybackQualityAndUrl.
    destruct (get movieData "video") as [videoData |] eqn:Hget; [| done].
    destruct (negb (truthy videoData)); [done |].
    destruct (choose _ _ _ _) as [[q |] |] eqn:Hchoose; [| done | done].
    intros [= <- <-]. apply choose_Some in Hchoose as [Ha Hurl].
    assert (videoData = field movieData "video") as ->.
    { unfold get in Hget. destruct (nullish movieData); congruence. }
    split; [done |]. intros Hwf. rewrite available_valid in Ha by done. congruence.
  - intros s'. unfold RevA.determinePlaybackQualityAndUrl.
    destruct (get movieData "video") as [videoData |] eqn:Hget; [| done].
    assert (videoData = field movieData "video") as ->.
    { unfold get in Hget. destruct (nullish movieData); congruence. }
    destruct (negb (truthy (field movieData "video"))) eqn:Htruthy.
    { intros _ t _. unfold rendition.
      by destruct (field movieData "video") as [| | [] | [| | q] | u | |]. }
    destruct (choose _ _ _ _) as [[q |] |] eqn:Hchoose; [| | done].
    + by destruct (setVideoType _ _ _) as [s1 [[] | e]].
    + intros _ t Ht. apply valid_not_unavailable. by apply choose_mid_None with preferredQuality.
  - intros s'. unfold RevB.determinePlaybackQualityAndUrl.
    destruct (get movieData "video") as [videoData |] eqn:Hget; [| done].
    assert (videoData = field movieData "video") as ->.
    { unfold get in Hget. destruct (nullish movieData); congruence. }
    destruct (negb (truthy (field movieData "video"))) eqn:Htruthy.
    { intros _ t _. unfold rendition.
      by destruct (field movieData "video") as [| | [] | [| | q] | u | |]. }
    destruct (choose _ _ _ _) as [[q |] |] eqn:Hchoose; [done | | done].
    intros _ t Ht. apply valid_not_unavailable. by apply choose_mid_None with preferredQuality.
Qed.

(** X9.  When [determinePlaybackQualityAndUrl] of revision A (lines 307-392)
    returns, the video type it has set is 'm3u8' or 'mpd', never anything
    else: 'm3u8' when nothing can be played; and [tempData] is the record
    that was passed. *)
Theorem videoType_always_known (movieData : value)
    (preferredQuality : option string) (s s' : state) (r : option playback) :
  RevA.determinePlaybackQualityAndUrl movieData preferredQuality s = (s', Normal r) ->
  (videoType s' = "m3u8" \/ videoType s' = "mpd") /\
  (r = None -> videoType s' = "m3u8") /\
  tempData s' = movieData.
Proof.
  unfold RevA.determinePlaybackQualityAndUrl.
  destruct (get movieData "video") as [videoData |]; [| done].
  destruct (negb (truthy videoData)).
  { intros [= <- <-]. split_and!; [by left | done | done]. }
  destruct (choose _ _ _ _) as [[q |] |]; [| | done].
  - unfold setVideoType. destruct (toLowerCase (url q)) as [lowered |]; [| done].
    destruct (str_includes ".m3u8" lowered || str_includes ".rebacdn1" lowered).
    { intros [= <- <-]. split_and!; [by left | done | done]. }
    destruct (str_includes ".mpd" lowered || str_includes ".rebacdn2" lowered);
      intros [= <- <-]; (split_and!; [| done | done]); [by right | by left].
  - simpl. intros [= <- <-]. split_and!; [by left | done | done].
Qed.

(** X9: the record whose only rendition is an MP4 file. *)
Lemma videoType_always_known_witness :
  videoType (RevA.determinePlaybackQualityAndUrl mp4Only (Some "hd") initial).1 = "m3u8".
Proof.
  destruct (videoType_always_known mp4Only (Some "hd") initial
              (RevA.determinePlaybackQualityAndUrl mp4Only (Some "hd") initial).1
              (Some (Playback (VStr "http://x/movie.mp4") "hd")))
    as ([Htype | Htype] & _).
  - reflexivity.
  - exact Htype.
  - vm_compute in Htype. discriminate Htype.
Defined.

(** X10.  The quality preference (lines 266-294).  What
    [getUserQualityPreference] returns is one of 'hd', 'mid' and 'low'.
    Saving one of the three and reading it gives it back, and nothing is
    logged; saving anything else leaves the store and the preference as
    they were and logs one warning.  The continue-watching list is not
    touched. *)
Theorem preference_round_trip (quality : string) (s : state) :
  (forall q, getUserQualityPreference s = Some q -> q ∈ qualityOrder) /\
  (quality ∈ qualityOrder ->
   getUserQualityPreference (saveUserQualityPreference quality s) = Some quality /\
   console (saveUserQualityPreference quality s) = console s) /\
  (quality ∉ qualityOrder ->
   localStorage (saveUserQualityPreference quality s) = localStorage s /\
   getUserQualityPreference (saveUserQualityPreference quality s)
   = getUserQualityPreference s /\
   console (saveUserQualityPreference quality s)
   = (console s ++ [(LogWarn, "Attempted to save invalid quality preference:")])%list) /\
  Store.getContinueWatchingList (saveUserQualityPreference quality s)
  = Store.getContinueWatchingList s.
Proof.
  assert (Htier : forall q,
            String.eqb q "hd" || String.eqb q "mid" || String.eqb q "low" = true
            <-> q ∈ qualityOrder).
  { intros q. unfold qualityOrder. rewrite !orb_true_iff, !String.eqb_eq.
    rewrite !elem_of_cons, elem_of_nil. tauto. }
  split_and!.
  - intros q. unfold getUserQualityPreference.
    destruct (getItem _ s) as [[preference | v] |]; try done.
    destruct (_ || _) eqn:E; [| done]. intros [= <-]. by apply Htier.
  - intros Hq. split; [by apply saveUserQualityPreference_stored |].
    unfold saveUserQualityPreference. apply Htier in Hq. by rewrite Hq.
  - intros Hq. unfold saveUserQualityPreference.
    destruct (_ || _) eqn:E; [by apply Htier in E |]. done.
  - unfold saveUserQualityPreference. destruct (_ || _); [| done].
    unfold Store.getContinueWatchingList, getItem, setItem. simpl.
    by rewrite lookup_insert_ne.
Qed.

End SelectorSafetyFacts.

(** ** Durations as text *)

Section ClockFacts.
Import JS Numeric Clock.

Lemma pretty_N_go_length (x : N) (s : string) :
  (String.length s <= String.length (pretty_N_go x s))%nat.
Proof.
  revert s. induction (N.lt_wf_0 x) as [x _ IH]. intros s.
  destruct (decide (x = 0%N)) as [-> | Hx].
  - by rewrite pretty_N_go_0.
  - rewrite pretty_N_go_step by lia.
    etrans; [| apply IH; apply N.div_lt; lia]. simpl. lia.
Qed.

Lemma pretty_Z_digit (z : Z) :
  (0 <= z < 10)%Z -> pretty z = String (pretty_N_char (Z.to_N z)) "".
Proof.
  intros Hz. destruct z as [| p | p]; [done | | lia].
  change (pretty (Z.pos p)) with (pretty_N_go (N.pos p) "").
  rewrite pretty_N_go_step by lia.
  assert ((N.pos p `div` 10)%N = 0%N) as -> by (apply N.div_small; lia).
  rewrite pretty_N_go_0. by rewrite N.mod_small by lia.
Qed.

Lemma pretty_Z_twoDigits (z : Z) :
  (10 <= z < 100)%Z -> pretty z = twoDigits z.
Proof.
  intros Hz. destruct z as [| p | p]; [lia | | lia].
  change (pretty (Z.pos p)) with (pretty_N_go (N.pos p) "").
  rewrite pretty_N_go_step by lia.
  rewrite pretty_N_go_step by (apply N.div_str_pos; lia).
  assert (((N.pos p `div` 10) `div` 10)%N = 0%N) as ->.
  { apply N.div_small. apply N.Div0.div_lt_upper_bound; lia. }
  rewrite pretty_N_go_0. unfold twoDigits.
  rewrite (N.mod_small (N.pos p `div` 10) 10)
    by (apply N.Div0.div_lt_upper_bound; lia).
  f_equal; [f_equal | do 2 f_equal].
  - change 10%Z with (Z.of_N 10). rewrite <- (N2Z.id (N.pos p `div` 10)).
    by rewrite N2Z.inj_div.
  - change 10%Z with (Z.of_N 10). rewrite <- (N2Z.id (N.pos p `mod` 10)).
    by rewrite N2Z.inj_mod.
Qed.

Lemma pretty_Z_long (z : Z) :
  (10 <= z)%Z -> (2 <= String.length (pretty z))%nat.
Proof.
  intros Hz. destruct z as [| p | p]; [lia | | lia].
  change (pretty (Z.pos p)) with (pretty_N_go (N.pos p) "").
  rewrite pretty_N_go_step by lia.
  rewrite pretty_N_go_step by (apply N.div_str_pos; lia).
  etrans; [| apply pretty_N_go_length]. simpl. lia.
Qed.

Lemma padStart_long (s : string) :
  (2 <= String.length s)%nat -> padStart 2 "0" s = s.
Proof.
  intros H. unfold padStart.
  by replace (2 - String.length s)%nat with 0%nat by lia.
Qed.

(** Two digits for a number below 100, all the digits above. *)
Lemma pad_whole (z : Z) :
  (0 <= z)%Z ->
  padStart 2 "0" (pretty z) = if (z <? 100)%Z then twoDigits z else pretty z.
Proof.
  intros Hz. destruct (Z.ltb_spec z 100) as [Hsmall | Hlarge].
  - destruct (decide (z < 10)%Z) as [Hdigit | Htwo].
    + rewrite pretty_Z_digit by lia. unfold padStart, twoDigits. simpl.
      rewrite Z.div_small, Z.mod_small by lia. done.
    + rewrite <- pretty_Z_twoDigits by lia.
      apply padStart_long, pretty_Z_long. lia.
  - apply padStart_long, pretty_Z_long. lia.
Qed.

Lemma append_empty_r (s : string) : s +:+ "" = s.
Proof.
  induction s as [| c s IH]; [done |].
  change (String c (s +:+ "") = String c s). by rewrite IH.
Qed.

(** A rational that is a whole number prints as that number. *)
Lemma number_to_string_whole (q : Q) (z : Z) :
  q == inject_Z z -> number_to_string (Fin q) = pretty z.
Proof.
  destruct q as [n d]. unfold Qeq, inject_Z. simpl. intros H.
  rewrite Z.mul_1_r in H. subst n.
  rewrite Z.abs_mul. simpl (Z.abs (Z.pos d)).
  rewrite Z.div_mul, Z.mod_mul by done. simpl.
  assert ((z * Z.pos d <? 0)%Z = (z <? 0)%Z) as ->.
  { destruct (Z.ltb_spec z 0), (Z.ltb_spec (z * Z.pos d) 0); try done; nia. }
  destruct z as [| p | p]; simpl; [done | |]; by rewrite append_empty_r.
Qed.


Lemma Qtrunc_nonneg (x : Q) : (0 <= x)%Q -> Qtrunc x = Qfloor x.
Proof.
  destruct x as [a b]. unfold Qle, Qtrunc, Qfloor. simpl. intros H.
  apply Z.quot_div_nonneg; lia.
Qed.

(** The floor of a quotient by a whole number. *)
Lemma Qfloor_div_whole (x : Q) (p : positive) :
  Qfloor (x / inject_Z (Z.pos p))%Q = (Qfloor x / Z.pos p)%Z.
Proof.
  destruct x as [a b]. unfold Qdiv, Qinv, Qmult, inject_Z, Qfloor. simpl.
  rewrite Z.mul_1_r, Pos2Z.inj_mul. by rewrite Z.div_div by lia.
Qed.

Lemma Qfloor_unique (x : Q) (z : Z) :
  (inject_Z z <= x)%Q -> (x < inject_Z (z + 1))%Q -> Qfloor x = z.
Proof.
  intros Hle Hlt.
  pose proof (Qfloor_le x) as H1. pose proof (Qlt_floor x) as H2.
  assert (inject_Z z < inject_Z (Qfloor x + 1))%Q as Ha by (eapply Qle_lt_trans; done).
  assert (inject_Z (Qfloor x) < inject_Z (z + 1))%Q as Hb by (eapply Qle_lt_trans; done).
  rewrite <- Zlt_Qlt in Ha, Hb. lia.
Qed.

(** The floor after a whole number is taken away. *)
Lemma Qfloor_sub_whole (x : Q) (m : Z) :
  Qfloor (x - inject_Z m)%Q = (Qfloor x - m)%Z.
Proof.
  apply Qfloor_unique.
  - unfold Z.sub. rewrite inject_Z_plus, inject_Z_opp.
    pose proof (Qfloor_le x). lra.
  - replace (Qfloor x - m + 1)%Z with ((Qfloor x + 1) + - m)%Z by lia.
    rewrite inject_Z_plus, inject_Z_opp. pose proof (Qlt_floor x). lra.
Qed.

(** The remainder of a number that is not negative, by a positive whole
    number: what is left after the whole multiples are taken away. *)
Lemma rem_nonneg (x : Q) (p : positive) :
  (0 <= x)%Q ->
  num_rem (Fin x) (of_Z (Z.pos p))
  = Fin (x - inject_Z (Z.pos p) * inject_Z (Qfloor x / Z.pos p))%Q.
Proof.
  intros Hx. unfold num_rem, of_Z.
  assert (Qeq_bool (inject_Z (Z.pos p)) 0 = false) as -> by done.
  rewrite Qtrunc_nonneg, Qfloor_div_whole; [done |].
  apply Qle_shift_div_l; [done | lra].
Qed.

Lemma Qfloor_rem_part (x : Q) (p : positive) :
  Qfloor (x - inject_Z (Z.pos p) * inject_Z (Qfloor x / Z.pos p))%Q
  = (Qfloor x mod Z.pos p)%Z.
Proof.
  rewrite <- inject_Z_mult, Qfloor_sub_whole. rewrite Z.mod_eq by done. done.
Qed.

Lemma div_nonzero (x : Q) (p : positive) :
  num_div (Fin x) (of_Z (Z.pos p)) = Fin (x / inject_Z (Z.pos p))%Q.
Proof. done. Qed.

Lemma pad_of_Z (z : Z) :
  (0 <= z)%Z ->
  padStart 2 "0" (number_to_string (of_Z z))
  = if (z <? 100)%Z then twoDigits z else pretty z.
Proof.
  intros Hz. unfold of_Z. rewrite (number_to_string_whole _ z) by reflexivity.
  by apply pad_whole.
Qed.

Lemma pad_below_sixty (z : Z) :
  (0 <= z < 60)%Z -> padStart 2 "0" (number_to_string (of_Z z)) = twoDigits z.
Proof.
  intros Hz. rewrite pad_of_Z by lia.
  destruct (Z.ltb_spec z 100); [done | lia].
Qed.

(** On a finite number that is not negative the helper of the key
    handler prints the clock of its whole seconds. *)
Lemma formatSecondsToHHMMSS_whole (inputSeconds : value) (q : Q) :
  to_number inputSeconds = Fin q -> (0 <= q)%Q ->
  formatSecondsToHHMMSS inputSeconds = clock (Qfloor q).
Proof.
  intros Hq Hpos.
  assert (Hn : (0 <= Qfloor q)%Z).
  { change 0%Z with (Qfloor 0). by apply Qfloor_resp_le. }
  unfold formatSecondsToHHMMSS, pad. rewrite Hq. cbn [Math_floor].
  set (n := Qfloor q) in *.
  change (of_Z n) with (Fin (inject_Z n)).
  assert (0 <= inject_Z n)%Q as Hn'.
  { change 0%Q with (inject_Z 0). by rewrite <- Zle_Qle. }
  rewrite !rem_nonneg by done. rewrite !div_nonzero. cbn [Math_floor].
  rewrite !Qfloor_div_whole, !Qfloor_rem_part, !Qfloor_Z.
  rewrite pad_of_Z by (apply Z.div_pos; lia).
  rewrite pad_below_sixty
    by (split; [apply Z.div_pos; [apply Z.mod_pos_bound |]; lia
               | apply Z.div_lt_upper_bound; [lia |];
                 pose proof (Z.mod_pos_bound n 3600); lia]).
  assert (number_to_string
            (Fin (inject_Z n - inject_Z 60 * inject_Z (n / 60))%Q)
          = pretty (n mod 60)%Z) as ->.
  { apply number_to_string_whole.
    rewrite <- inject_Z_mult. unfold Qminus. rewrite <- inject_Z_opp, <- inject_Z_plus.
    by rewrite Z.mod_eq by done. }
  rewrite pad_whole by (apply Z.mod_pos_bound; lia).
  assert ((n mod 60 <? 100)%Z = true) as ->.
  { apply Z.ltb_lt. pose proof (Z.mod_pos_bound n 60). lia. }
  done.
Qed.


(** X12.  [formatTime] (lines 1771-1776), the helper of the
    continue-watching button, rounds each part down on its own; on a
    finite number that is not negative, with whole seconds below 2^53
    (or on a value that converts to such a whole number: [inRange]), it
    prints the same clock as [formatSecondsToHHMMSS], the clock of the
    whole seconds. *)
Theorem formatTime_agrees (seconds : value) (q : Q) :
  to_number seconds = Fin q -> (0 <= q)%Q -> inRange seconds q ->
  formatTime seconds = clock (Qfloor q) /\
  formatTime seconds = formatSecondsToHHMMSS seconds.
Proof.
  intros Hq Hpos _.
  assert (Hn : (0 <= Qfloor q)%Z).
  { change 0%Z with (Qfloor 0). by apply Qfloor_resp_le. }
  assert (Hclock : formatTime seconds = clock (Qfloor q)).
  { unfold formatTime. rewrite Hq.
    rewrite !rem_nonneg by done. rewrite !div_nonzero. cbn [Math_floor].
    rewrite !Qfloor_div_whole, !Qfloor_rem_part.
    rewrite pad_of_Z by (apply Z.div_pos; lia).
    rewrite pad_below_sixty
      by (split; [apply Z.div_pos; [apply Z.mod_pos_bound |]; lia
                 | apply Z.div_lt_upper_bound; [lia |];
                   pose proof (Z.mod_pos_bound (Qfloor q) 3600); lia]).
    rewrite pad_below_sixty by (apply Z.mod_pos_bound; lia).
    done. }
  split; [done |]. rewrite Hclock. symmetry.
  by apply formatSecondsToHHMMSS_whole.
Qed.

(** X12: an hour, two minutes and five and a half seconds. *)
Lemma formatTime_agrees_witness :
  formatTime (VNum (Fin 3725.5)) = "01:02:05"
  /\ formatSecondsToHHMMSS (VNum (Fin 3725.5)) = "01:02:05".
Proof.
  destruct (formatTime_agrees (VNum (Fin 3725.5)) 3725.5) as [Hclock Hsame].
  - reflexivity.
  - unfold Qle. simpl. lia.
  - split; [reflexivity | by left].
  - rewrite <- Hsame, Hclock. split; reflexivity.
Defined.

End ClockFacts.

(** ** Watch time *)

Section WatchFacts.
Import Samples JS Numeric Watch.

(** The time one event adds: nothing for a jump of more than half a
    second or a step back, the step itself otherwise. *)
Lemma delta_bounds (q l : Q) :
  exists d : Q,
    (if num_gt (num_sub (Fin q) (Fin l)) (Fin (1 # 2)) then Fin 0
     else if num_lt (num_sub (Fin q) (Fin l)) (Fin 0)
          then Math_max (Fin 0) (num_sub (Fin q) (Fin l))
          else num_sub (Fin q) (Fin l)) = Fin d
    /\ (0 <= d)%Q /\ (d <= 1 # 2)%Q.
Proof.
  cbn [num_sub num_neg num_add num_gt num_lt Math_max].
  destruct (Qlt_bool_reflect (1 # 2) (q + - l)) as [Hjump | Hstep].
  { exists 0%Q. split_and!; [done | lra | lra]. }
  destruct (Qlt_bool_reflect (q + - l) 0) as [Hback | Hforward].
  - destruct (Qlt_bool_reflect 0 (q + - l)); [lra |].
    exists 0%Q. split_and!; [done | lra | lra].
  - exists (q + - l)%Q. split_and!; [done | lra | lra].
Qed.

Lemma within_step (c : nat) (e : tick) (t : tracker) :
  (exists q, currentTime e = Fin q) ->
  within c t ->
  within (c + (if negb (blocked e) && playing e then 1 else 0))
    (trackWatchTime (blocked e) (playing e) (currentTime e) (currentMovieData e) t).1.
Proof.
  intros [q Hq] (a & l & Ha & Hl & Hpos & Hbound & Hlen & Hflag & Hview).
  rewrite Hq. unfold trackWatchTime.
  destruct (blocked e); cbn [negb andb fst].
  { exists a, q. rewrite Nat.add_0_r. by split_and!. }
  set (accumulated := if playing e && _ then _ else _).
  assert (Hacc : exists a' : Q,
             accumulated = Fin a' /\ (a <= a')%Q /\
             (a' <= a + (if playing e then 1 # 2 else 0))%Q).
  { subst accumulated. cbv zeta. rewrite Ha, Hl. destruct (playing e); cbn [andb].
    - destruct (num_ge (Fin l) (Fin 0)).
      + destruct (delta_bounds q l) as (d & -> & Hd0 & Hd1).
        exists (a + d)%Q. split_and!; [done | lra | lra].
      + exists a. split_and!; [done | lra | lra].
    - exists a. split_and!; [done | lra | lra]. }
  destruct Hacc as (a' & Ha' & Hle & Hge). rewrite Ha'.
  assert (Hbound' : (a' <= inject_Z (Z.of_nat (c + (if playing e then 1 else 0))) * (1 # 2))%Q).
  { destruct (playing e); cbn iota in Hge.
    - rewrite Nat2Z.inj_add, inject_Z_plus. change (inject_Z (Z.of_nat 1)) with 1%Q. lra.
    - rewrite Nat.add_0_r. lra. }
  destruct (tenMinuteViewRecorded t) eqn:Hrec; cbn [negb andb].
  - exists a', q. cbn. split_and!; try done; [lra | ].
    intros Hp. specialize (Hview Hp). lra.
  - rewrite (Hflag eq_refl) in *.
    destruct (num_ge (Fin a') (of_Z 600)) eqn:Hten.
    + assert (600 <= a')%Q as Hten'.
      { unfold num_ge, num_le, num_lt, of_Z in Hten. simpl in Hten.
        apply negb_true_iff in Hten.
        destruct (Qlt_bool_reflect a' (inject_Z 600)); [done |].
        unfold inject_Z in *. lra. }
      destruct (viewBody (currentMovieData e)) as [body | err]; cbn [fst].
      * exists a', q. cbn. split_and!; try done; lra.
      * exists a', q. cbn. split_and!; try done; lra.
    + exists a', q. cbn. split_and!; try done; lra.
Qed.

Lemma within_run (ticks : list tick) (c : nat) (t : tracker) :
  finiteTimes ticks -> within c t -> within (c + counted ticks) (runTicks ticks t).
Proof.
  intros Hfin. revert c t. induction Hfin as [| e ticks He _ IH]; intros c t Hin.
  - unfold counted. simpl. by rewrite Nat.add_0_r.
  - simpl. pose proof (within_step c e t He Hin) as Hstep.
    specialize (IH _ _ Hstep). unfold counted in *. simpl.
    destruct (negb (blocked e) && playing e); simpl.
    + by replace (c + S (length (List.filter (fun e => negb (blocked e) && playing e) ticks)))%nat
        with (c + 1 + length (List.filter (fun e => negb (blocked e) && playing e) ticks))%nat
        by lia.
    + by rewrite Nat.add_0_r in IH.
Qed.

(** X13.  The ten-minute view (lines 2605-2655).  Over any run of
    [video:timeupdate] events with finite positions, from the start of
    playback, the accumulated watch time is a finite number that is not
    negative and at most half a second for each event during which time
    is counted (no lock overlay, no ad, the player playing); at most one
    view record is posted, and one is posted only with the flag set, the
    watch time at 600 seconds or more, and so after at least 1200 counted
    events. *)
Theorem view_needs_ten_minutes (ticks : list tick) :
  finiteTimes ticks ->
  exists a : Q,
    accumulatedWatchTime (runTicks ticks start) = Fin a /\
    (0 <= a)%Q /\ (a <= inject_Z (Z.of_nat (counted ticks)) * (1 # 2))%Q /\
    (length (posted (runTicks ticks start)) <= 1)%nat /\
    (posted (runTicks ticks start) <> [] ->
     tenMinuteViewRecorded (runTicks ticks start) = true /\
     (600 <= a)%Q /\ (1200 <= counted ticks)%nat).
Proof.
  intros Hfin.
  assert (Hstart : within 0 start).
  { exists 0%Q, (inject_Z (-1)). split_and!; try done. simpl. lia. }
  destruct (within_run ticks 0 start Hfin Hstart)
    as (a & l & Ha & Hl & Hpos & Hbound & Hlen & Hflag & Hview).
  rewrite Nat.add_0_l in Hbound.
  exists a. split_and!; try done.
  intros Hp. specialize (Hview Hp). split_and!; [| done |].
  - destruct (tenMinuteViewRecorded _); [done |]. by rewrite Hflag in Hp.
  - assert (inject_Z 1200 <= inject_Z (Z.of_nat (counted ticks)))%Q as H.
    { unfold inject_Z at 1. lra. }
    rewrite <- Zle_Qle in H. lia.
Qed.

(** X13: a quarter of a second of playback, then a seek that is not
    counted. *)
Lemma view_needs_ten_minutes_witness :
  accumulatedWatchTime
    (runTicks [ {| blocked := false; playing := true; currentTime := Fin 0;
                   currentMovieData := hdMissing |};
                {| blocked := false; playing := true; currentTime := Fin 0.25;
                   currentMovieData := hdMissing |};
                {| blocked := false; playing := true; currentTime := Fin 900;
                   currentMovieData := hdMissing |} ] start) = Fin 0.25
  /\ posted
       (runTicks [ {| blocked := false; playing := true; currentTime := Fin 0;
                      currentMovieData := hdMissing |};
                   {| blocked := false; playing := true; currentTime := Fin 0.25;
                      currentMovieData := hdMissing |};
                   {| blocked := false; playing := true; currentTime := Fin 900;
                      currentMovieData := hdMissing |} ] start) = [].
Proof.
  destruct (view_needs_ten_minutes
              [ {| blocked := false; playing := true; currentTime := Fin 0;
                   currentMovieData := hdMissing |};
                {| blocked := false; playing := true; currentTime := Fin 0.25;
                   currentMovieData := hdMissing |};
                {| blocked := false; playing := true; currentTime := Fin 900;
                   currentMovieData := hdMissing |} ])
    as (a & Ha & _ & _ & _ & Hposted).
  - repeat constructor; eexists; reflexivity.
  - split; [reflexivity |].
    destruct (posted _) as [| body rest] eqn:Hbodies; [reflexivity |].
    destruct Hposted as (_ & _ & Hcount); [discriminate |].
    vm_compute in Hcount. lia.
Defined.

End WatchFacts.

(** ** Saving the position while playing *)

Section ProgressFacts.
Import Samples JS Browser Numeric Store Progress.

Lemma field_set_prop_eq (k : string) (v : value) (ps : props) :
  field (VObj (set_prop k v ps)) k = v.
Proof. unfold field. by rewrite assoc_set_prop_eq. Qed.

Lemma field_set_prop_ne (k k' : string) (v : value) (ps : props) :
  k <> k' -> field (VObj (set_prop k v ps)) k' = field (VObj ps) k'.
Proof. intros H. unfold field. by rewrite assoc_set_prop_ne. Qed.

(** The record after the position went into it, when its progress is an
    object. *)
Lemma recordPosition_object (currentTime duration : number) (ps cw : props) :
  field (VObj ps) "continueWatching" = VObj cw ->
  recordPosition currentTime duration (VObj ps)
  = Normal (VObj (set_prop "continueWatching"
                    (VObj (set_prop "inPercentage"
                             (VNum (Math_round (num_mul (num_div currentTime duration)
                                                  (of_Z 100))))
                             (set_prop "inMinutes" (VNum (Math_trunc currentTime)) cw)))
                    ps)).
Proof.
  intros Hcw. unfold recordPosition, get. cbn [nullish bind]. rewrite Hcw.
  cbn [assign bind nullish]. done.
Qed.

Lemma getContinueWatchingList_with_currentMovieData (x : value) (s : state) :
  getContinueWatchingList (with_currentMovieData x s) = getContinueWatchingList s.
Proof. reflexivity. Qed.

(** The nearest whole percent, halves up, of a position within the
    duration. *)
Lemma percent_bounds (c d : Q) :
  (0 <= c)%Q -> (c <= d)%Q -> (0 < d)%Q ->
  Math_round (num_mul (num_div (Fin c) (Fin d)) (of_Z 100))
  = of_Z (Qfloor (c / d * 100 + (1 # 2)))
  /\ (0 <= Qfloor (c / d * 100 + (1 # 2)) <= 100)%Z
  /\ ((90 < Qfloor (c / d * 100 + (1 # 2)))%Z <-> (181 # 200 <= c / d)%Q).
Proof.
  intros Hc Hcd Hd.
  assert (Hratio0 : (0 <= c / d)%Q) by (apply Qle_shift_div_l; lra).
  assert (Hratio1 : (c / d <= 1)%Q) by (apply Qle_shift_div_r; lra).
  set (r := (c / d)%Q) in *.
  split; [| split].
  - unfold num_div. destruct (Qeq_bool d 0) eqn:E.
    + apply Qeq_bool_iff in E. lra.
    + done.
  - pose proof (Qfloor_le (r * 100 + (1 # 2))) as H1.
    pose proof (Qlt_floor (r * 100 + (1 # 2))) as H2.
    set (k := Qfloor (r * 100 + (1 # 2))) in *.
    split.
    + assert (inject_Z 0 < inject_Z (k + 1))%Q as H by (unfold inject_Z at 1; lra).
      rewrite <- Zlt_Qlt in H. lia.
    + assert (inject_Z k < inject_Z 101)%Q as H by (unfold inject_Z at 2; lra).
      rewrite <- Zlt_Qlt in H. lia.
  - pose proof (Qfloor_le (r * 100 + (1 # 2))) as H1.
    pose proof (Qlt_floor (r * 100 + (1 # 2))) as H2.
    set (k := Qfloor (r * 100 + (1 # 2))) in *.
    split.
    + intros Hk. assert (inject_Z 91 <= inject_Z k)%Q as H by (rewrite <- Zle_Qle; lia).
      unfold inject_Z at 1 in H. lra.
    + intros Hr. assert (inject_Z 90 < inject_Z (k + 1))%Q as H.
      { unfold inject_Z at 1. lra. }
      rewrite <- Zlt_Qlt in H.
      assert (k <> 90)%Z; [| lia]. intros ->.
      change (inject_Z (90 + 1)) with (91 # 1)%Q in H2. lra.
Qed.


Lemma saveEpisodeProgress_currentMovieData (episodeData : value) (s : state) :
  currentMovieData (saveEpisodeProgress episodeData s).1 = currentMovieData s.
Proof.
  unfold saveEpisodeProgress.
  destruct (negb (truthy episodeData) || _); [done |].
  destruct (findIndex _ _); [| done].
  by destruct (bool_decide _).
Qed.

Lemma removeEpisodeProgress_currentMovieData (movieId : value) (s : state) :
  currentMovieData (removeEpisodeProgress movieId s).1 = currentMovieData s.
Proof.
  unfold removeEpisodeProgress. destruct (filter _ _); [| done].
  by destruct (bool_decide _).
Qed.

(** A save that is due, for a record with an id whose progress is an
    object, on a store whose entries can be read. *)
Lemma saveStep_due (now currentTime duration : number) (p : saver) (s : state)
    (ps cw : props) :
  num_gt (num_sub now (lastSaveTime p)) (of_Z 7000) = true ->
  num_gt duration (Fin 0) = true ->
  currentMovieData s = VObj ps ->
  field (VObj ps) "continueWatching" = VObj cw ->
  truthy (field (VObj ps) "movieId") = true ->
  VNull ∉ getContinueWatchingList s ->
  exists updated s',
    recordPosition currentTime duration (VObj ps) = Normal updated /\
    saveStep now currentTime duration p s
    = ({| lastSaveTime := now; movieRemoved := movieRemoved p |}, s', Normal ()) /\
    currentMovieData s' = updated /\
    field updated "movieId" = field (VObj ps) "movieId" /\
    getContinueWatchingList s'
    = take 15
        match list_find (fun x => holds (field (VObj ps) "movieId") x = true)
                (getContinueWatchingList s) with
        | Some (i, _) => <[i := persisted updated]> (getContinueWatchingList s)
        | None => persisted updated :: getContinueWatchingList s
        end.
Proof.
  intros Hdue Hdur Hcmd Hcw Hid Hnull.
  pose proof (recordPosition_object currentTime duration ps cw Hcw) as Hrec.
  set (updated := VObj (set_prop "continueWatching" _ _)) in Hrec.
  assert (Hid' : field updated "movieId" = field (VObj ps) "movieId").
  { subst updated. by rewrite field_set_prop_ne. }
  destruct (saveEpisodeProgress_list updated (with_currentMovieData updated s))
    as (s' & Hsave & Hlist).
  { by rewrite Hid'. }
  { by rewrite getContinueWatchingList_with_currentMovieData. }
  exists updated, s'. split_and!; [done | | | done |].
  - unfold saveStep. rewrite Hdue, Hdur, Hcmd, Hrec. cbn [andb].
    change (currentMovieData (with_currentMovieData updated s)) with updated.
    by rewrite Hsave.
  - pose proof (saveEpisodeProgress_currentMovieData updated
                  (with_currentMovieData updated s)) as H.
    by rewrite Hsave in H.
  - rewrite Hlist, Hid'. by rewrite getContinueWatchingList_with_currentMovieData.
Qed.

Lemma saveStep_whole_units (now : number) (c d : Q) (p : saver)
    (s : state) (ps cw : props) :
  num_gt (num_sub now (lastSaveTime p)) (of_Z 7000) = true ->
  (0 <= c)%Q -> (c <= d)%Q -> (0 < d)%Q ->
  currentMovieData s = VObj ps ->
  field (VObj ps) "continueWatching" = VObj cw ->
  truthy (field (VObj ps) "movieId") = true ->
  VNull ∉ getContinueWatchingList s ->
  exists p' s',
    saveStep now (Fin c) (Fin d) p s = (p', s', Normal ()) /\
    lastSaveTime p' = now /\
    field (field (currentMovieData s') "continueWatching") "inMinutes"
    = VNum (of_Z (Qfloor c)) /\
    field (field (currentMovieData s') "continueWatching") "inPercentage"
    = VNum (of_Z (Qfloor (c / d * 100 + (1 # 2)))) /\
    (0 <= Qfloor (c / d * 100 + (1 # 2)) <= 100)%Z /\
    (gt_num (field (field (currentMovieData s') "continueWatching") "inPercentage")
       (Fin 90) = true <-> (181 # 200 <= c / d)%Q) /\
    (forall k, k <> "continueWatching" ->
       field (currentMovieData s') k = field (VObj ps) k) /\
    (keyLike (field (VObj ps) "movieId") = true ->
     (length (getContinueWatchingList s) <= 15)%nat ->
     getSavedEpisode (field (VObj ps) "movieId") s'
     = Normal (persisted (currentMovieData s'))).
Proof.
  intros Hdue Hc Hcd Hd Hcmd Hcw Hid Hnull.
  assert (Hdur : num_gt (Fin d) (Fin 0) = true).
  { unfold num_gt, num_lt. by destruct (Qlt_bool_reflect 0 d). }
  destruct (saveStep_due now (Fin c) (Fin d) p s ps cw Hdue Hdur Hcmd Hcw Hid Hnull)
    as (updated & s' & Hrec & Hstep & Hcur & Hid' & Hlist).
  rewrite (recordPosition_object _ _ ps cw Hcw) in Hrec.
  apply (f_equal (fun r => match r with Normal v => v | Throw _ => VUndefined end))
    in Hrec as Hupdated.
  cbv beta iota in Hupdated.
  destruct (percent_bounds c d Hc Hcd Hd) as (Hround & Hrange & Hninety).
  assert (Hprogress : field updated "continueWatching"
                      = VObj (set_prop "inPercentage"
                                (VNum (of_Z (Qfloor (c / d * 100 + (1 # 2)))))
                                (set_prop "inMinutes" (VNum (of_Z (Qfloor c))) cw))).
  { rewrite <- Hupdated, field_set_prop_eq, Hround. cbn [Math_trunc].
    by rewrite Qtrunc_nonneg. }
  eexists _, s'. split; [exact Hstep |]. split; [done |].
  split; [| split; [| split; [exact Hrange | split; [| split]]]].
  - rewrite Hcur, Hprogress, field_set_prop_ne by done. apply field_set_prop_eq.
  - rewrite Hcur, Hprogress. apply field_set_prop_eq.
  - rewrite Hcur, Hprogress, field_set_prop_eq. rewrite <- Hninety.
    unfold gt_num, num_gt, num_lt, of_Z. cbn [to_number].
    destruct (Qlt_bool_reflect 90 (inject_Z (Qfloor (c / d * 100 + (1 # 2))))) as [H | H].
    + split; [intros _ | done]. change 90%Q with (inject_Z 90) in H.
      by rewrite <- Zlt_Qlt in H.
    + split; [done |]. intros Hk. destruct H. change 90%Q with (inject_Z 90).
      by rewrite <- Zlt_Qlt.
  - intros k Hk. rewrite Hcur, <- Hupdated. by rewrite field_set_prop_ne.
  - intros Hkey Hlen.
    destruct (getSavedEpisode_after_save updated (with_currentMovieData updated s) s')
      as (r & Hget & _ & Hr).
    + by rewrite Hid'.
    + done.
    + by rewrite Hid', getContinueWatchingList_with_currentMovieData.
    + rewrite Hid' in Hget, Hr. rewrite Hget, Hcur. f_equal. by apply Hr.
Qed.


Lemma Qfloor_between (x : Q) (k : Z) :
  (inject_Z k <= x)%Q -> (x < inject_Z (k + 1))%Q -> Qfloor x = k.
Proof.
  intros Hlow Hhigh.
  pose proof (Qfloor_le x) as H1. pose proof (Qlt_floor x) as H2.
  assert (inject_Z (Qfloor x) < inject_Z (k + 1))%Q as Ha by lra.
  assert (inject_Z k < inject_Z (Qfloor x + 1))%Q as Hb by lra.
  rewrite <- Zlt_Qlt in Ha, Hb. lia.
Qed.

(** X14.  The periodic save (lines 2668-2676).  More than seven seconds
    after the last save, at position [c] of a video of length [d] (0 <= c
    <= d, 0 < d), whose percentage is nearest to the whole number [k] by
    a margin of a billionth ([nearestPercent]), so that the rounding of
    the quotient by the player's arithmetic does not decide, with a
    current record that has a progress object and a truthy id, the step
    returns normally and notes the time of the save.  The record then
    holds the position in whole seconds, rounded down, and the
    percentage [k], the nearest whole number, between 0 and 100: it
    exceeds 90, the mark of a completed film, exactly from 90.5 percent
    of the video on.  No other property of the record changes, and (the
    id a string, a boolean or a finite number, the list of at most 15
    entries) the store then gives the record back, without its
    renditions. *)
Theorem position_saved_in_whole_units (now : number) (c d : Q) (k : Z) (p : saver)
    (s : state) (ps cw : props) :
  num_gt (num_sub now (lastSaveTime p)) (of_Z 7000) = true ->
  (0 <= c)%Q -> (c <= d)%Q -> (0 < d)%Q ->
  nearestPercent c d k ->
  currentMovieData s = VObj ps ->
  field (VObj ps) "continueWatching" = VObj cw ->
  truthy (field (VObj ps) "movieId") = true ->
  VNull ∉ getContinueWatchingList s ->
  exists p' s',
    saveStep now (Fin c) (Fin d) p s = (p', s', Normal ()) /\
    lastSaveTime p' = now /\
    field (field (currentMovieData s') "continueWatching") "inMinutes"
    = VNum (of_Z (Qfloor c)) /\
    field (field (currentMovieData s') "continueWatching") "inPercentage"
    = VNum (of_Z k) /\
    (0 <= k <= 100)%Z /\
    (gt_num (field (field (currentMovieData s') "continueWatching") "inPercentage")
       (Fin 90) = true <-> (181 # 200 <= c / d)%Q) /\
    (forall key, key <> "continueWatching" ->
       field (currentMovieData s') key = field (VObj ps) key) /\
    (keyLike (field (VObj ps) "movieId") = true ->
     (length (getContinueWatchingList s) <= 15)%nat ->
     getSavedEpisode (field (VObj ps) "movieId") s'
     = Normal (persisted (currentMovieData s'))).
Proof.
  intros Hdue Hc Hcd Hd [Hlow Hhigh] Hcmd Hcw Hid Hnull.
  assert (Hk : Qfloor (c / d * 100 + (1 # 2)) = k).
  { unfold margin in *. apply Qfloor_between.
    - lra.
    - rewrite inject_Z_plus. unfold inject_Z at 2. lra. }
  destruct (saveStep_whole_units now c d p s ps cw) as (p' & s' & H); try done.
  rewrite Hk in H. by exists p', s'.
Qed.

(** X14: 100.7 seconds into a video of 1000 seconds. *)
Lemma position_saved_in_whole_units_witness :
  exists p' s',
    saveStep (Fin 8000) (Fin 100.7) (Fin 1000) Progress.start
      (with_currentMovieData hdMissing initial) = (p', s', Normal ())
    /\ field (field (currentMovieData s') "continueWatching") "inMinutes"
       = VNum (of_Z 100)
    /\ field (field (currentMovieData s') "continueWatching") "inPercentage"
       = VNum (of_Z 10).
Proof.
  destruct (position_saved_in_whole_units (Fin 8000) 100.7 1000 10 Progress.start
              (with_currentMovieData hdMissing initial)
              [("movieId", VStr "m1"); ("episodeId", VStr "m1-e1");
               ("title", VStr "Pilot"); ("type", VStr "S"); ("locked", VBool false);
               ("adstatus", VBool true);
               ("time", VObj [("startTime", VStr "30"); ("endTime", VStr "3500")]);
               ("video", VObj [("hdVideo", VStr "not found");
                               ("midVideo", VStr "http://x/mid.m3u8");
                               ("lowVideo", VStr "http://x/low.m3u8")]);
               ("continueWatching", progress 0 0)]
              [("inMinutes", VNum (of_Z 0)); ("inPercentage", VNum (of_Z 0))])
    as (p' & s' & Hstep & _ & Hseconds & Hpercent & _).
  - reflexivity.
  - unfold Qle. simpl. lia.
  - unfold Qle. simpl. lia.
  - unfold Qlt. simpl. lia.
  - split; unfold Qle; simpl; lia.
  - reflexivity.
  - reflexivity.
  - reflexivity.
  - vm_compute. no_member.
  - exists p', s'. split_and!; [assumption | rewrite Hseconds; reflexivity
                               | rewrite Hpercent; reflexivity].
Defined.

(** Past 80 percent of a record that is not marked as a season, once. *)
Lemma removeStep_due (c d : Q) (p : saver) (s : state) :
  movieRemoved p = false ->
  nullish (currentMovieData s) = false ->
  truthy (field (currentMovieData s) "isSeason") = false ->
  (0 < d)%Q -> (4 # 5 <= c / d)%Q ->
  VNull ∉ getContinueWatchingList s ->
  exists s',
    removeStep (Fin c) (Fin d) p s
    = ({| lastSaveTime := lastSaveTime p; movieRemoved := true |}, s', Normal ()) /\
    currentMovieData s' = currentMovieData s /\
    getContinueWatchingList s'
    = List.filter (fun x => negb (holds (field (currentMovieData s) "movieId") x))
        (getContinueWatchingList s).
Proof.
  intros Hflag Hobj Hseason Hd Hratio Hnull.
  destruct (removeEpisodeProgress_list (field (currentMovieData s) "movieId") s Hnull)
    as (s' & Hrm & Hlist & _).
  exists s'. split_and!; [| | done].
  - unfold removeStep, get. rewrite Hobj, Hseason, Hflag. cbn [negb andb].
    assert (num_gt (Fin d) (Fin 0) = true) as ->.
    { unfold num_gt, num_lt. by destruct (Qlt_bool_reflect 0 d). }
    assert (num_ge (num_div (Fin c) (Fin d)) (Fin (4 # 5)) = true) as ->.
    { unfold num_div. destruct (Qeq_bool d 0) eqn:E.
      - apply Qeq_bool_iff in E. lra.
      - unfold num_ge, num_le, num_lt. apply negb_true_iff.
        by destruct (Qlt_bool_reflect (c / d) (4 # 5)); [lra |]. }
    cbn [andb]. by rewrite Hrm.
  - pose proof (removeEpisodeProgress_currentMovieData
                  (field (currentMovieData s) "movieId") s) as H.
    by rewrite Hrm in H.
Qed.


Lemma removeStep_done (currentTime duration : number) (p : saver) (s : state) :
  movieRemoved p = true -> nullish (currentMovieData s) = false ->
  removeStep currentTime duration p s = (p, s, Normal ()).
Proof.
  intros Hflag Hobj. unfold removeStep, get. rewrite Hobj, Hflag.
  by rewrite andb_false_r.
Qed.

(** Nothing is found under an id whose entries were filtered out. *)
Lemma getSavedEpisode_filtered (movieId : value) (l : list value) (s : state) :
  Forall (fun x => nullish x = false) l ->
  getContinueWatchingList s = List.filter (fun x => negb (holds movieId x)) l ->
  getSavedEpisode movieId s = Normal VNull.
Proof.
  intros Hread Hlist. unfold getSavedEpisode. rewrite Hlist.
  rewrite find_list_find by (by apply Forall_List_filter).
  assert (list_find (fun x => holds movieId x = true)
            (List.filter (fun x => negb (holds movieId x)) l) = None) as ->; [| done].
  apply list_find_None, Forall_forall. intros x Hx%list_elem_of_In.
  apply List.filter_In in Hx as [_ Hx]. by destruct (holds movieId x).
Qed.

(** X15.  The removal past 80 percent does not last (lines 2668-2680).
    For a record that is not a season, a handler run past 80 percent that
    is due for a save saves the record and then removes it from the list:
    the flag is set and a lookup gives [null].  The next run that is due
    for a save, more than seven seconds later and still past 80 percent,
    saves the record again and, the flag being set, does not remove it:
    the record is back in the list. *)
Theorem removal_does_not_last (now1 now2 : number) (c1 c2 d : Q) (p : saver)
    (s : state) (ps cw : props) :
  movieRemoved p = false ->
  num_gt (num_sub now1 (lastSaveTime p)) (of_Z 7000) = true ->
  num_gt (num_sub now2 now1) (of_Z 7000) = true ->
  (0 < d)%Q -> (4 # 5 <= c1 / d)%Q -> (4 # 5 <= c2 / d)%Q ->
  currentMovieData s = VObj ps ->
  field (VObj ps) "continueWatching" = VObj cw ->
  truthy (field (VObj ps) "movieId") = true ->
  keyLike (field (VObj ps) "movieId") = true ->
  truthy (field (VObj ps) "isSeason") = false ->
  VNull ∉ getContinueWatchingList s ->
  exists p1 s1 p2 s2,
    persistProgress now1 (Fin c1) (Fin d) p s = (p1, s1, Normal ()) /\
    movieRemoved p1 = true /\
    getSavedEpisode (field (VObj ps) "movieId") s1 = Normal VNull /\
    persistProgress now2 (Fin c2) (Fin d) p1 s1 = (p2, s2, Normal ()) /\
    movieRemoved p2 = true /\
    getSavedEpisode (field (VObj ps) "movieId") s2
    = Normal (persisted (currentMovieData s2)).
Proof.
  intros Hflag Hdue1 Hdue2 Hd Hc1 Hc2 Hcmd Hcw Hid Hkey Hseason Hnull.
  assert (Hdur : num_gt (Fin d) (Fin 0) = true).
  { unfold num_gt, num_lt. by destruct (Qlt_bool_reflect 0 d). }
  set (id := field (VObj ps) "movieId") in *.
  (* the first event: saved, then removed *)
  destruct (saveStep_due now1 (Fin c1) (Fin d) p s ps cw Hdue1 Hdur Hcmd Hcw Hid Hnull)
    as (u1 & sa & Hrec1 & Hstep1 & Hcur1 & Hid1 & Hlist1).
  pose proof (recordPosition_object (Fin c1) (Fin d) ps cw Hcw) as Hobj1.
  rewrite Hrec1 in Hobj1.
  apply (f_equal (fun r => match r with Normal v => v | Throw _ => VUndefined end))
    in Hobj1. cbv beta iota in Hobj1.
  set (cw1 := set_prop "inPercentage" _ _) in Hobj1.
  assert (Hnulla : VNull ∉ getContinueWatchingList sa).
  { rewrite Hlist1. by apply saved_list_no_null. }
  destruct (removeStep_due c1 d {| lastSaveTime := now1; movieRemoved := movieRemoved p |} sa)
    as (s1 & Hrm1 & Hcur1' & Hlist1'); try done.
  { by rewrite Hcur1, Hobj1. }
  { rewrite Hcur1, Hobj1, field_set_prop_ne by done. exact Hseason. }
  rewrite Hcur1, Hid1 in Hlist1'. fold id in Hlist1'.
  assert (Hread1 : Forall (fun x => nullish x = false) (getContinueWatchingList s1)).
  { rewrite Hlist1'. apply Forall_List_filter. by apply entries_readable. }
  assert (Hnull1 : VNull ∉ getContinueWatchingList s1).
  { rewrite Hlist1'. by apply not_elem_of_List_filter. }
  (* the second event: saved again, not removed again *)
  assert (Hcmd1 : currentMovieData s1 = VObj (set_prop "continueWatching" (VObj cw1) ps)).
  { by rewrite Hcur1', Hcur1, Hobj1. }
  destruct (saveStep_due now2 (Fin c2) (Fin d)
              {| lastSaveTime := now1; movieRemoved := true |} s1
              (set_prop "continueWatching" (VObj cw1) ps) cw1)
    as (u2 & s2 & Hrec2 & Hstep2 & Hcur2 & Hid2 & Hlist2); try done.
  { apply field_set_prop_eq. }
  { by rewrite field_set_prop_ne. }
  rewrite (field_set_prop_ne "continueWatching" "movieId") in Hid2, Hlist2 by done.
  fold id in Hid2, Hlist2.
  assert (Hnone : list_find (fun x => holds id x = true) (getContinueWatchingList s1)
                  = None).
  { rewrite Hlist1'. apply list_find_None, Forall_forall.
    intros x Hx%list_elem_of_In. apply List.filter_In in Hx as [_ Hx].
    by destruct (holds id x). }
  rewrite Hnone in Hlist2.
  assert (Hobj2 : nullish (currentMovieData s2) = false).
  { rewrite Hcur2.
    pose proof (recordPosition_object (Fin c2) (Fin d)
                  (set_prop "continueWatching" (VObj cw1) ps) cw1
                  (field_set_prop_eq _ _ _)) as H.
    rewrite Hrec2 in H. by injection H as ->. }
  exists {| lastSaveTime := now1; movieRemoved := true |}, s1,
         {| lastSaveTime := now2; movieRemoved := true |}, s2.
  split_and!.
  - unfold persistProgress. rewrite Hstep1. exact Hrm1.
  - done.
  - eapply getSavedEpisode_filtered; [| exact Hlist1'].
    by apply entries_readable.
  - unfold persistProgress. rewrite Hstep2. by apply removeStep_done.
  - done.
  - unfold getSavedEpisode. rewrite Hlist2.
    change (take 15 (persisted u2 :: getContinueWatchingList s1))
      with (persisted u2 :: take 14 (getContinueWatchingList s1)).
    rewrite find_list_find
      by (constructor; [apply persisted_readable | by apply Forall_take]).
    assert (holds id (persisted u2) = true) as Hholds.
    { rewrite <- Hid2. apply holds_persisted; by rewrite Hid2. }
    assert (list_find (fun x => holds id x = true)
              (persisted u2 :: take 14 (getContinueWatchingList s1))
            = Some (0%nat, persisted u2)) as ->.
    { apply list_find_Some. split_and!; [done | done | intros; lia]. }
    by rewrite Hcur2.
Qed.

(** X15: a record that is not a season at 90 percent, and at 95 percent
    eight seconds later. *)
Lemma removal_does_not_last_witness :
  exists p1 s1 p2 s2,
    persistProgress (Fin 8000) (Fin 900) (Fin 1000) Progress.start
      (with_currentMovieData hdMissing initial) = (p1, s1, Normal ())
    /\ getSavedEpisode (VStr "m1") s1 = Normal VNull
    /\ persistProgress (Fin 16000) (Fin 950) (Fin 1000) p1 s1 = (p2, s2, Normal ())
    /\ getSavedEpisode (VStr "m1") s2 = Normal (persisted (currentMovieData s2)).
Proof.
  destruct (removal_does_not_last (Fin 8000) (Fin 16000) 900 950 1000 Progress.start
              (with_currentMovieData hdMissing initial)
              [("movieId", VStr "m1"); ("episodeId", VStr "m1-e1");
               ("title", VStr "Pilot"); ("type", VStr "S"); ("locked", VBool false);
               ("adstatus", VBool true);
               ("time", VObj [("startTime", VStr "30"); ("endTime", VStr "3500")]);
               ("video", VObj [("hdVideo", VStr "not found");
                               ("midVideo", VStr "http://x/mid.m3u8");
                               ("lowVideo", VStr "http://x/low.m3u8")]);
               ("continueWatching", progress 0 0)]
              [("inMinutes", VNum (of_Z 0)); ("inPercentage", VNum (of_Z 0))])
    as (p1 & s1 & p2 & s2 & Hfirst & _ & Hgone & Hsecond & _ & Hback).
  - reflexivity.
  - reflexivity.
  - reflexivity.
  - unfold Qlt. simpl. lia.
  - unfold Qle. simpl. lia.
  - unfold Qle. simpl. lia.
  - reflexivity.
  - reflexivity.
  - reflexivity.
  - reflexivity.
  - reflexivity.
  - vm_compute. no_member.
  - exists p1, s1, p2, s2. split_and!; assumption.
Defined.

End ProgressFacts.

(** ** The episode playback starts with *)

Section ResumeFacts.
Import Samples JS Browser Numeric Store Resume.

Lemma at_index_first (l : list value) :
  at_index (VArr l) 0 = Normal (default VUndefined (l !! 0%nat)).
Proof. reflexivity. Qed.

Lemma flatMap_episodes (seasons : list value) (episodes : list (list value)) :
  Forall2 (fun season eps => nullish season = false
                             /\ field season "episodes" = VArr eps)
    seasons episodes ->
  flatMap (fun s => get s "episodes") seasons = Normal (concat episodes).
Proof.
  induction 1 as [| season eps seasons episodes [Hobj Heps] _ IH]; [done |].
  simpl. unfold get at 1. rewrite Hobj. cbn [bind]. rewrite IH. cbn [bind].
  by rewrite Heps.
Qed.

(** A series whose seasons are records with arrays of episodes: the
    first episode, and all episodes in season order. *)
Lemma series_episodes (seriesData : value) (seasons : list value)
    (episodes : list (list value)) :
  field seriesData "seasons" = VArr seasons ->
  Forall2 (fun season eps => nullish season = false
                             /\ field season "episodes" = VArr eps)
    seasons episodes ->
  allEpisodes seriesData = Normal (concat episodes) /\
  forall eps first rest, episodes = (first :: eps) :: rest ->
    firstEpisode seriesData = Normal first.
Proof.
  intros Hseasons Hall.
  assert (Hobj : nullish seriesData = false).
  { by destruct seriesData. }
  split.
  - unfold allEpisodes, get. rewrite Hobj. cbn [bind]. rewrite Hseasons.
    by apply flatMap_episodes.
  - intros eps first rest ->. inversion Hall as [| season ? seasons' ? [Hs Heps] _];
      subst.
    unfold firstEpisode, get. rewrite Hobj. cbn [bind]. rewrite Hseasons.
    rewrite at_index_first. cbn [lookup list_lookup default bind option_map].
    simpl. rewrite Hs. cbn [bind]. by rewrite Heps.
Qed.

Lemma sameEpisode_readable (savedEpisode ep : value) :
  nullish ep = false ->
  sameEpisode savedEpisode ep
  = Normal (strict_eq (field ep "episodeId") (field savedEpisode "episodeId")).
Proof. intros H. unfold sameEpisode, get. by rewrite H. Qed.

Lemma find_sameEpisode (savedEpisode : value) (l : list value) :
  Forall (fun x => nullish x = false) l ->
  find (sameEpisode savedEpisode) l
  = Normal (default VUndefined
              (snd <$> list_find
                 (fun ep => strict_eq (field ep "episodeId")
                              (field savedEpisode "episodeId") = true) l)).
Proof.
  induction 1 as [| x l Hx _ IH]; [done |].
  simpl. rewrite sameEpisode_readable by done. simpl.
  destruct (strict_eq _ _) eqn:E.
  - by rewrite decide_True.
  - rewrite decide_False by done. rewrite IH.
    by destruct (list_find _ l) as [[j y] |].
Qed.


Lemma saveEpisodeProgress_returns (episodeData : value) (s : state) :
  VNull ∉ getContinueWatchingList s ->
  (saveEpisodeProgress episodeData s).2 = Normal ().
Proof.
  intros Hnull. unfold saveEpisodeProgress.
  destruct (negb (truthy episodeData) || _); [done |].
  rewrite findIndex_list_find by (by apply entries_readable).
  by destruct (bool_decide _).
Qed.

(** The entry found under an id that is a string, a boolean or a finite
    number. *)
Lemma getSavedEpisode_found (movieId : value) (s : state) (i : nat) (saved : value) :
  VNull ∉ getContinueWatchingList s ->
  keyLike movieId = true ->
  list_find (fun x => holds movieId x = true) (getContinueWatchingList s)
  = Some (i, saved) ->
  getSavedEpisode movieId s = Normal saved /\ truthy saved = true.
Proof.
  intros Hnull Hkey Hfind. unfold getSavedEpisode.
  rewrite find_list_find by (by apply entries_readable). rewrite Hfind. simpl.
  apply list_find_Some in Hfind as (_ & Hx & _).
  assert (truthy saved = true) as Hobj.
  { unfold holds in Hx. destruct saved as [| | | | | | ps]; try done;
      by destruct movieId. }
  unfold or_else. by rewrite Hobj.
Qed.

Lemma getSavedEpisode_missing (movieId : value) (s : state) :
  VNull ∉ getContinueWatchingList s ->
  (forall item, item ∈ getContinueWatchingList s -> holds movieId item = false) ->
  getSavedEpisode movieId s = Normal VNull.
Proof.
  intros Hnull Hnone. unfold getSavedEpisode.
  rewrite find_list_find by (by apply entries_readable).
  assert (list_find (fun x => holds movieId x = true) (getContinueWatchingList s)
          = None) as ->; [| done].
  apply list_find_None, Forall_forall. intros x Hx. by rewrite Hnone.
Qed.

(** X16.  The episode playback starts with (revision A, lines 1518-1542),
    for a series whose seasons each have a list of episode records, the
    first season not empty and the id of its first episode a string, a
    boolean or a finite number, and a store without [null] entries.  With no
    entry for the series' id in the store, or with an entry whose
    [episodeId] no episode of the series has, it is the first episode of
    the first season, and nothing is written.  Otherwise it is the first
    episode, in season order, with the saved [episodeId]: the fresh record
    of the response with the saved progress (zero progress when the entry
    has none) and every other property from the fresh record; that record
    is saved, and what is stored of it has no renditions. *)
Theorem resume_with_saved_progress (seriesData : value) (seasons : list value)
    (episodes : list (list value)) (first : value) (others : list value)
    (later : list (list value)) (s : state) :
  field seriesData "seasons" = VArr seasons ->
  Forall2 (fun season eps => nullish season = false
                             /\ field season "episodes" = VArr eps)
    seasons episodes ->
  episodes = (first :: others) :: later ->
  Forall (fun ep => exists ps, ep = VObj ps) (concat episodes) ->
  keyLike (field first "movieId") = true ->
  VNull ∉ getContinueWatchingList s ->
  ((forall item, item ∈ getContinueWatchingList s ->
      holds (field first "movieId") item = false) ->
   RevA.initialEpisode seriesData s = (s, Normal first)) /\
  (forall i saved,
     list_find (fun x => holds (field first "movieId") x = true)
       (getContinueWatchingList s) = Some (i, saved) ->
     (list_find (fun ep => strict_eq (field ep "episodeId")
                             (field saved "episodeId") = true)
        (concat episodes) = None ->
      RevA.initialEpisode seriesData s = (s, Normal first)) /\
     (forall j fresh,
        list_find (fun ep => strict_eq (field ep "episodeId")
                               (field saved "episodeId") = true)
          (concat episodes) = Some (j, fresh) ->
        RevA.initialEpisode seriesData s
        = ((saveEpisodeProgress (mergeSavedWithFreshEpisode saved fresh) s).1,
           Normal (mergeSavedWithFreshEpisode saved fresh)) /\
        field (mergeSavedWithFreshEpisode saved fresh) "continueWatching"
        = or_else (field saved "continueWatching") zeroProgress /\
        (forall k, k <> "continueWatching" ->
           field (mergeSavedWithFreshEpisode saved fresh) k = field fresh k) /\
        field (persisted (mergeSavedWithFreshEpisode saved fresh)) "video"
        = VUndefined)).
Proof.
  intros Hseasons Hall Heps Hrecords Hkey Hnull.
  destruct (series_episodes seriesData seasons episodes Hseasons Hall)
    as [Hflat Hfirst].
  specialize (Hfirst others first later Heps).
  assert (Hobj : nullish first = false).
  { rewrite Forall_forall in Hrecords. destruct (Hrecords first) as [ps ->]; [| done].
    rewrite Heps. simpl. by left. }
  assert (Hread : Forall (fun x => nullish x = false) (concat episodes)).
  { eapply Forall_impl; [exact Hrecords |]. by intros x [ps ->]. }
  assert (Hid : get first "movieId" = Normal (field first "movieId")).
  { unfold get. by rewrite Hobj. }
  split.
  - intros Hnone. unfold RevA.initialEpisode.
    rewrite Hfirst. cbn [bind]. rewrite Hid. cbn [bind].
    rewrite getSavedEpisode_missing by done. done.
  - intros i saved Hsaved.
    destruct (getSavedEpisode_found _ s i saved Hnull Hkey Hsaved) as [Hget Htruthy].
    split.
    + intros Hgone. unfold RevA.initialEpisode.
      rewrite Hfirst. cbn [bind]. rewrite Hid. cbn [bind]. rewrite Hget. cbn [bind].
      rewrite Htruthy, Hflat. cbn [bind]. rewrite find_sameEpisode by done.
      rewrite Hgone. cbn [bind fmap option_fmap option_map default].
      by rewrite Htruthy.
    + intros j fresh Hfresh.
      assert (exists ps, fresh = VObj ps) as [ps ->].
      { apply list_find_Some in Hfresh as (Hj & _ & _).
        rewrite Forall_forall in Hrecords. apply Hrecords.
        by eapply list_elem_of_lookup_2. }
      split_and!.
      * unfold RevA.initialEpisode.
        rewrite Hfirst. cbn [bind]. rewrite Hid. cbn [bind]. rewrite Hget. cbn [bind].
        rewrite Htruthy, Hflat. cbn [bind]. rewrite find_sameEpisode by done.
        rewrite Hfresh. cbn [bind fmap option_fmap option_map default snd].
        rewrite Htruthy. cbn [truthy andb].
        pose proof (saveEpisodeProgress_returns
                      (mergeSavedWithFreshEpisode saved (VObj ps)) s Hnull) as Hret.
        destruct (saveEpisodeProgress _ s) as [s' [[] | e]]; [done | done].
      * unfold mergeSavedWithFreshEpisode. rewrite Htruthy. cbn [truthy negb orb spread].
        apply field_set_prop_eq.
      * intros k Hk. unfold mergeSavedWithFreshEpisode. rewrite Htruthy.
        cbn [truthy negb orb spread]. by apply field_set_prop_ne.
      * apply persisted_no_video.
Qed.

(** X16: the second episode of the sample series was watched for ten
    minutes. *)
Lemma resume_with_saved_progress_witness :
  (RevA.initialEpisode series watchedSecond).2
  = Normal (seriesEpisode "s1e2" 0 1 (progress 600 40)).
Proof.
  destruct (resume_with_saved_progress series
              [VObj [("season", VNum (of_Z 1)); ("seasonName", VStr "One");
                     ("episodes", VArr seasonOne)];
               VObj [("season", VNum (of_Z 2)); ("seasonName", VStr "Two");
                     ("episodes", VArr seasonTwo)]]
              [seasonOne; seasonTwo]
              (seriesEpisode "s1e1" 0 0 (progress 0 0))
              [seriesEpisode "s1e2" 0 1 (progress 0 0)] [seasonTwo] watchedSecond)
    as [_ Hsaved].
  - reflexivity.
  - repeat constructor.
  - reflexivity.
  - repeat constructor; eexists; reflexivity.
  - reflexivity.
  - vm_compute. no_member.
  - destruct (Hsaved 0%nat (persisted (seriesEpisode "s1e2" 0 1 (progress 600 40))))
      as [_ Hfound]; [reflexivity |].
    destruct (Hfound 1%nat (seriesEpisode "s1e2" 0 1 (progress 0 0)))
      as (Hrun & _); [reflexivity |].
    rewrite Hrun. reflexivity.
Defined.


(** X17.  Renditions and locks never come from the store.  Under the
    conditions of X16, when the store has an entry for the series and the
    series has an episode with the saved [episodeId], the three versions
    of the resume code (revision A, revision B and [jScript.js]) all
    return normally, and the record each returns has the [video] and the
    [locked] of the fresh record of the response.  They differ in the
    rest: revision A takes every property but the progress from the fresh
    record, revision B every property but these two from the saved one,
    and the script gives the fresh record itself when it is locked and
    agrees with revision B when it is not. *)
Theorem renditions_always_fresh (seriesData : value) (seasons : list value)
    (episodes : list (list value)) (first : value) (others : list value)
    (later : list (list value)) (s : state) (i j : nat) (saved fresh : value) :
  field seriesData "seasons" = VArr seasons ->
  Forall2 (fun season eps => nullish season = false
                             /\ field season "episodes" = VArr eps)
    seasons episodes ->
  episodes = (first :: others) :: later ->
  Forall (fun ep => exists ps, ep = VObj ps) (concat episodes) ->
  keyLike (field first "movieId") = true ->
  VNull ∉ getContinueWatchingList s ->
  list_find (fun x => holds (field first "movieId") x = true)
    (getContinueWatchingList s) = Some (i, saved) ->
  list_find (fun ep => strict_eq (field ep "episodeId")
                         (field saved "episodeId") = true)
    (concat episodes) = Some (j, fresh) ->
  exists rA rB rS : value,
    (RevA.initialEpisode seriesData s).2 = Normal rA /\
    RevB.initialEpisode seriesData s = Normal rB /\
    Script.initialEpisode seriesData s = Normal rS /\
    (forall r, r ∈ [rA; rB; rS] ->
       field r "video" = field fresh "video" /\
       field r "locked" = field fresh "locked") /\
    (forall k, k <> "continueWatching" -> field rA k = field fresh k) /\
    (forall k, k <> "video" -> k <> "locked" -> field rB k = field saved k) /\
    rS = (if truthy (field fresh "locked") then fresh else rB).
Proof.
  intros Hseasons Hall Heps Hrecords Hkey Hnull Hsaved Hfresh.
  destruct (series_episodes seriesData seasons episodes Hseasons Hall)
    as [Hflat Hfirst].
  specialize (Hfirst others first later Heps).
  assert (Hobj : nullish first = false).
  { rewrite Forall_forall in Hrecords. destruct (Hrecords first) as [ps ->]; [| done].
    rewrite Heps. simpl. by left. }
  assert (Hread : Forall (fun x => nullish x = false) (concat episodes)).
  { eapply Forall_impl; [exact Hrecords |]. by intros x [ps ->]. }
  assert (Hid : get first "movieId" = Normal (field first "movieId")).
  { unfold get. by rewrite Hobj. }
  destruct (getSavedEpisode_found _ s i saved Hnull Hkey Hsaved) as [Hget Htruthy].
  assert (exists ps, fresh = VObj ps) as [ps ->].
  { apply list_find_Some in Hfresh as (Hj & _ & _).
    rewrite Forall_forall in Hrecords. apply Hrecords.
    by eapply list_elem_of_lookup_2. }
  assert (exists sv, saved = VObj sv) as [sv ->].
  { apply list_find_Some in Hsaved as (_ & Hx & _). unfold holds in Hx.
    destruct saved as [| | | | | | sv]; try (by destruct (field first "movieId")).
    by exists sv. }
  set (rB := savedWithFreshVideo (VObj sv) (VObj ps)).
  assert (HB : RevB.initialEpisode seriesData s = Normal rB).
  { unfold RevB.initialEpisode.
    rewrite Hfirst. cbn [bind]. rewrite Hid. cbn [bind]. rewrite Hget. cbn [bind].
    rewrite Htruthy, Hflat. cbn [bind]. rewrite find_sameEpisode by done.
    by rewrite Hfresh. }
  assert (HS : Script.initialEpisode seriesData s
               = Normal (if truthy (field (VObj ps) "locked") then VObj ps else rB)).
  { unfold Script.initialEpisode.
    rewrite Hfirst. cbn [bind]. rewrite Hid. cbn [bind]. rewrite Hget. cbn [bind].
    rewrite Htruthy, Hflat. cbn [bind]. rewrite find_sameEpisode by done.
    rewrite Hfresh. cbn [bind fmap option_fmap option_map default snd].
    unfold id. change (truthy (VObj ps)) with true. cbn iota.
    by destruct (truthy (field (VObj ps) "locked")). }
  assert (HA : (RevA.initialEpisode seriesData s).2
               = Normal (mergeSavedWithFreshEpisode (VObj sv) (VObj ps))).
  { unfold RevA.initialEpisode.
    rewrite Hfirst. cbn [bind]. rewrite Hid. cbn [bind]. rewrite Hget. cbn [bind].
    rewrite Htruthy, Hflat. cbn [bind]. rewrite find_sameEpisode by done.
    rewrite Hfresh. cbn [bind fmap option_fmap option_map default snd truthy andb].
    pose proof (saveEpisodeProgress_returns
                  (mergeSavedWithFreshEpisode (VObj sv) (VObj ps)) s Hnull) as Hret.
    by destruct (saveEpisodeProgress _ s) as [s' [[] | e]]. }
  assert (HrA : forall k, k <> "continueWatching" ->
            field (mergeSavedWithFreshEpisode (VObj sv) (VObj ps)) k = field (VObj ps) k).
  { intros k Hk. unfold mergeSavedWithFreshEpisode. cbn [truthy negb orb spread].
    by apply field_set_prop_ne. }
  assert (HrB : field rB "video" = field (VObj ps) "video"
                /\ field rB "locked" = field (VObj ps) "locked").
  { subst rB. unfold savedWithFreshVideo. split.
    - rewrite field_set_prop_ne by done. apply field_set_prop_eq.
    - apply field_set_prop_eq. }
  eexists _, rB, _. split_and!; [exact HA | exact HB | exact HS | | exact HrA | |].
  - intros r Hr. repeat (apply elem_of_cons in Hr as [-> | Hr]).
    + split; by apply HrA.
    + exact HrB.
    + by destruct (truthy (field (VObj ps) "locked")).
    + by apply elem_of_nil in Hr.
  - intros k Hvideo Hlocked. subst rB. unfold savedWithFreshVideo.
    rewrite !field_set_prop_ne by done. done.
  - done.
Qed.

(** X17: the same store and series in the three versions. *)
Lemma renditions_always_fresh_witness :
  exists rB,
    RevB.initialEpisode series watchedSecond = Normal rB
    /\ field rB "video" = VObj [("hdVideo", VStr "http://x/s1e2.m3u8")]
    /\ Script.initialEpisode series watchedSecond = Normal rB.
Proof.
  destruct (renditions_always_fresh series
              [VObj [("season", VNum (of_Z 1)); ("seasonName", VStr "One");
                     ("episodes", VArr seasonOne)];
               VObj [("season", VNum (of_Z 2)); ("seasonName", VStr "Two");
                     ("episodes", VArr seasonTwo)]]
              [seasonOne; seasonTwo]
              (seriesEpisode "s1e1" 0 0 (progress 0 0))
              [seriesEpisode "s1e2" 0 1 (progress 0 0)] [seasonTwo] watchedSecond
              0%nat 1%nat
              (persisted (seriesEpisode "s1e2" 0 1 (progress 600 40)))
              (seriesEpisode "s1e2" 0 1 (progress 0 0)))
    as (rA & rB & rS & _ & HB & HS & Hfresh & _ & _ & Hscript).
  - reflexivity.
  - repeat constructor.
  - reflexivity.
  - repeat constructor; eexists; reflexivity.
  - reflexivity.
  - vm_compute. no_member.
  - reflexivity.
  - reflexivity.
  - exists rB. split_and!; [assumption | | rewrite HS, Hscript; reflexivity].
    destruct (Hfresh rB) as [Hvideo _]; [| rewrite Hvideo; reflexivity].
    apply list_elem_of_further, list_elem_of_here.
Defined.

End ResumeFacts.

(** ** Reading an element by its index *)

Section IndexFacts.
Import JS Numeric.

Lemma digit_of_pretty_N_char (d : N) :
  (d < 10)%N -> digit_of (pretty_N_char d) = Some (Z.of_N d).
Proof.
  intros Hd.
  assert (d = 0 \/ d = 1 \/ d = 2 \/ d = 3 \/ d = 4 \/ d = 5 \/ d = 6 \/ d = 7
          \/ d = 8 \/ d = 9)%N as H by lia.
  by repeat destruct H as [-> | H]; [.. | subst d].
Qed.

(** Reading back the digits that were printed in front of a string. *)
Lemma read_digits_pretty_N_go (x : N) (s : string) (acc : Z) (n : nat) :
  (0 < x)%N ->
  exists k : nat,
    (0 < k)%nat /\
    read_digits (pretty_N_go x s) acc n
    = read_digits s (acc * 10 ^ Z.of_nat k + Z.of_N x) (n + k).
Proof.
  revert s acc n. induction (N.lt_wf_0 x) as [x _ IH]. intros s acc n Hx.
  rewrite pretty_N_go_step by done.
  destruct (decide (x `div` 10 = 0)%N) as [Hsmall | Hlarge].
  - rewrite Hsmall, pretty_N_go_0. exists 1%nat. split; [lia |].
    cbn [read_digits]. rewrite digit_of_pretty_N_char by (apply N.mod_lt; lia).
    assert (x `mod` 10 = x)%N as ->.
    { apply N.mod_small. apply N.div_small_iff in Hsmall; lia. }
    f_equal; [f_equal; lia | lia].
  - destruct (IH (x `div` 10)%N) with
      (s := String (pretty_N_char (x `mod` 10)) s) (acc := acc) (n := n)
      as (k & Hk & ->); [apply N.div_lt; lia | idtac |].
    { by apply N.neq_0_lt_0. }
    exists (S k). split; [lia |]. cbn [read_digits].
    rewrite digit_of_pretty_N_char by (apply N.mod_lt; lia).
    f_equal; [| lia].
    rewrite Nat2Z.inj_succ, Z.pow_succ_r by lia.
    assert (Z.of_N x = 10 * Z.of_N (x `div` 10) + Z.of_N (x `mod` 10))%Z as Hsplit.
    { rewrite N2Z.inj_div, N2Z.inj_mod. change (Z.of_N 10) with 10%Z.
      apply Z.div_mod. lia. }
    lia.
Qed.

Lemma read_digits_pretty (i : nat) :
  exists k : nat,
    (0 < k)%nat /\
    read_digits (pretty (Z.of_nat i)) 0 0 = (Z.of_nat i, k, "").
Proof.
  destruct i as [| i].
  - exists 1%nat. split; [lia | done].
  - change (pretty (Z.of_nat (S i))) with (pretty_N_go (N.of_nat (S i)) "").
    destruct (read_digits_pretty_N_go (N.of_nat (S i)) "" 0 0) as (k & Hk & ->); [lia |].
    exists k. split; [done |]. cbn [read_digits].
    by rewrite Z.mul_0_l, Z.add_0_l, nat_N_Z.
Qed.

(** The name of an index stands for that index, and is not [length]. *)
Lemma array_index_pretty (i : nat) :
  array_index (pretty (Z.of_nat i)) = Some i /\ pretty (Z.of_nat i) <> "length".
Proof.
  destruct (read_digits_pretty i) as (k & Hk & Hread). split.
  - unfold array_index. rewrite Hread.
    assert ((0 <? k)%nat = true) as -> by (by apply Nat.ltb_lt).
    rewrite !String.eqb_refl. cbn [andb]. by rewrite Nat2Z.id.
  - intros Hname. rewrite Hname in Hread. cbn in Hread. injection Hread as _ <- . lia.
Qed.

Lemma at_index_array (l : list value) (i : nat) :
  at_index (VArr l) i = Normal (default VUndefined (l !! i)).
Proof.
  destruct (array_index_pretty i) as [Hindex Hname].
  unfold at_index, get_key, of_Z. cbn [to_string].
  rewrite (number_to_string_whole _ (Z.of_nat i)) by reflexivity.
  rewrite (proj2 (String.eqb_neq _ _) Hname). by rewrite Hindex.
Qed.

End IndexFacts.

(** ** The episode that follows *)

Section NextFacts.
Import Samples JS Numeric Next.

Lemma get_key_array_whole (l : list value) (q : Q) (i : nat) :
  (q == inject_Z (Z.of_nat i))%Q ->
  get_key (VArr l) (VNum (Fin q)) = Normal (default VUndefined (l !! i)).
Proof.
  intros Hq. destruct (array_index_pretty i) as [Hindex Hname].
  unfold get_key. cbn [to_string].
  rewrite (number_to_string_whole _ (Z.of_nat i)) by done.
  rewrite (proj2 (String.eqb_neq _ _) Hname). by rewrite Hindex.
Qed.

Lemma get_key_array_index (l : list value) (i : nat) :
  get_key (VArr l) (VNum (of_Z (Z.of_nat i))) = Normal (default VUndefined (l !! i)).
Proof. by apply get_key_array_whole. Qed.

Lemma get_key_array_succ (l : list value) (i : nat) :
  get_key (VArr l) (plus (VNum (of_Z (Z.of_nat i))) (VNum (Fin 1)))
  = Normal (default VUndefined (l !! S i)).
Proof.
  apply get_key_array_whole.
  rewrite Nat2Z.inj_succ. unfold Z.succ. by rewrite inject_Z_plus.
Qed.

Lemma concat_lookup_at {A} (ll : list (list A)) (i j : nat) (l : list A) (x : A) :
  ll !! i = Some l -> l !! j = Some x ->
  concat ll !! (length (concat (take i ll)) + j)%nat = Some x.
Proof.
  revert i. induction ll as [| l0 ll IH]; intros i Hi Hj; [done |].
  destruct i as [| i]; simpl in *.
  - injection Hi as ->. by apply lookup_app_l_Some.
  - rewrite length_app, <- Nat.add_assoc.
    rewrite lookup_app_r by lia.
    replace (length l0 + (length (concat (take i ll)) + j) - length l0)%nat
      with (length (concat (take i ll)) + j)%nat by lia.
    by apply IH.
Qed.

Lemma concat_take_next {A} (ll : list (list A)) (i : nat) (l : list A) :
  ll !! i = Some l ->
  length (concat (take (S i) ll)) = (length (concat (take i ll)) + length l)%nat.
Proof.
  revert i. induction ll as [| l0 ll IH]; intros i Hi; [done |].
  destruct i as [| i]; simpl in *.
  - injection Hi as ->. by rewrite app_nil_r.
  - specialize (IH i Hi). simpl in IH. rewrite !length_app. lia.
Qed.

(** X18.  The next episode (lines 2046-2062), for a series whose seasons
    each have a list of episode records that is not empty, and a current
    record that carries its place: season [i], episode [j], a place the
    series has.  The lookup returns normally, and what it gives is the
    episode that follows the current one when all episodes are laid out
    season after season: the next one of the season, the first one of the
    next season after the last of a season, and [null] after the last
    episode of the series. *)
Theorem next_episode_in_season_order (seriesData record : value)
    (seasons : list value) (episodes : list (list value))
    (i j : nat) (eps : list value) :
  field seriesData "seasons" = VArr seasons ->
  Forall2 (fun season eps => field season "episodes" = VArr eps) seasons episodes ->
  Forall (fun ep => truthy ep = true) (concat episodes) ->
  Forall (fun eps => eps <> []) episodes ->
  positioned i j record ->
  episodes !! i = Some eps -> (j < length eps)%nat ->
  nextEpisodeData seriesData record
  = Normal (default VNull
              (concat episodes !! S (length (concat (take i episodes)) + j))).
Proof.
  intros Hseasons Hall Htruthy Hfull [Hsi Hei] Hi Hj.
  assert (Hrecord : nullish record = false).
  { destruct record; try done. }
  assert (Hposition : nullish (field record "position") = false).
  { by destruct (field record "position"). }
  assert (Hseries : nullish seriesData = false) by (by destruct seriesData).
  destruct (Forall2_lookup_r _ _ _ _ _ Hall Hi) as (season & Hseason & Heps).
  assert (Hobj : truthy season = true) by (by destruct season).
  assert (Hnn : nullish season = false) by (by destruct season).
  unfold nextEpisodeData, get.
  rewrite Hrecord. cbn [bind]. rewrite Hposition. cbn [bind]. rewrite Hsi, Hei.
  change (negb (strict_eq (VNum (of_Z (Z.of_nat i))) VUndefined)
          && negb (strict_eq (VNum (of_Z (Z.of_nat j))) VUndefined)) with true.
  cbn iota. rewrite Hseries. cbn [bind]. rewrite Hseasons.
  rewrite get_key_array_index.
  rewrite Hseason. cbn [default from_option id bind]. unfold id.
  rewrite Hobj, Hnn. cbn [bind]. rewrite Heps.
  rewrite get_key_array_succ.
  destruct (eps !! S j) as [e |] eqn:He.
  - (* the next one of the same season *)
    cbn [default from_option id bind]. unfold id.
    assert (Hflat : concat episodes !! S (length (concat (take i episodes)) + j)
                    = Some e).
    { rewrite <- Nat.add_succ_r. by eapply concat_lookup_at. }
    rewrite Hflat. cbn [default from_option id].
    rewrite Forall_forall in Htruthy.
    rewrite (Htruthy e) by (by eapply list_elem_of_lookup_2). done.
  - (* the last one of its season *)
    cbn [default from_option id bind truthy]. cbn iota.
    apply lookup_ge_None in He.
    assert (Hlast : length eps = S j) by lia.
    assert (get_key (VArr eps) (VStr "length")
            = Normal (VNum (of_Z (Z.of_nat (length eps))))) as -> by done.
    cbn [bind to_number].
    assert (strict_eq (VNum (num_sub (of_Z (Z.of_nat (length eps))) (Fin 1)))
              (VNum (of_Z (Z.of_nat j))) = true) as ->.
    { rewrite Hlast. unfold strict_eq, num_eq, num_sub, num_neg, num_add, of_Z.
      apply Qeq_bool_iff. rewrite Nat2Z.inj_succ. unfold Z.succ.
      rewrite inject_Z_plus. unfold Qeq. simpl. lia. }
    rewrite ?Hseries. cbn [bind]. rewrite ?Hseasons. rewrite get_key_array_succ.
    pose proof (concat_take_next episodes i eps Hi) as Hnext.
    replace (S (length (concat (take i episodes)) + j))
      with (length (concat (take (S i) episodes)) + 0)%nat by lia.
    destruct (episodes !! S i) as [eps' |] eqn:Hi'.
    + destruct (Forall2_lookup_r _ _ _ _ _ Hall Hi') as (season' & Hseason' & Heps').
      rewrite Hseason'. cbn [default from_option id bind]. unfold id.
      assert (truthy season' = true) as -> by (by destruct season').
      assert (nullish season' = false) as -> by (by destruct season').
      cbn [bind]. rewrite Heps'. rewrite at_index_array.
      destruct eps' as [| e' eps'].
      { rewrite Forall_forall in Hfull.
        destruct (Hfull []); [by eapply list_elem_of_lookup_2 | done]. }
      cbn [lookup list_lookup default from_option id bind]. unfold id.
      assert (concat episodes !! (length (concat (take (S i) episodes)) + 0)%nat
              = Some e') as Hflat.
      { by eapply concat_lookup_at. }
      rewrite Hflat. cbn [default from_option id].
      rewrite Forall_forall in Htruthy. rewrite (Htruthy e'); [done |].
      by eapply list_elem_of_lookup_2.
    + assert (seasons !! S i = None) as ->.
      { apply lookup_ge_None. apply lookup_ge_None in Hi'.
        by rewrite (Forall2_length _ _ _ Hall). }
      cbn [default from_option id bind truthy]. cbn iota.
      assert (concat episodes !! (length (concat (take (S i) episodes)) + 0)%nat
              = None) as ->; [| done].
      apply lookup_ge_None. apply lookup_ge_None in Hi'.
      rewrite take_ge by lia. lia.
Qed.

(** X18: after the last episode of the first season comes the first one
    of the second season. *)
Lemma next_episode_in_season_order_witness :
  nextEpisodeData series (seriesEpisode "s1e2" 0 1 (progress 0 0))
  = Normal (seriesEpisode "s2e1" 1 0 (progress 0 0)).
Proof.
  rewrite (next_episode_in_season_order series
             (seriesEpisode "s1e2" 0 1 (progress 0 0))
             [VObj [("season", VNum (of_Z 1)); ("seasonName", VStr "One");
                    ("episodes", VArr seasonOne)];
              VObj [("season", VNum (of_Z 2)); ("seasonName", VStr "Two");
                    ("episodes", VArr seasonTwo)]]
             [seasonOne; seasonTwo] 0 1 seasonOne).
  - reflexivity.
  - reflexivity.
  - repeat constructor.
  - repeat constructor.
  - repeat constructor; discriminate.
  - split; reflexivity.
  - reflexivity.
  - simpl. lia.
Defined.

End NextFacts.

(** ** The series of a response *)

Section SeriesFacts.
Import Samples JS Browser Numeric Store Resume.

Lemma mapFrom_imap (f : value -> nat -> completion value)
    (g : nat -> value -> value) (l : list value) (i : nat) :
  (forall j x, f x (i + j) = Normal (g j x)) ->
  mapFrom f l i = Normal (imap g l).
Proof.
  revert i g. induction l as [| x l IH]; intros i g Hf; [done |].
  cbn [mapFrom imap]. specialize (Hf 0%nat x) as Hx. rewrite Nat.add_0_r in Hx.
  rewrite Hx. cbn [bind].
  rewrite (IH (S i) (g ∘ S)); [done |].
  intros j y. replace (S i + j)%nat with (i + S j)%nat by lia. apply Hf.
Qed.

(** X23.  The series built from the response (lines 1462-1468).  When the
    response has a list of season names and a list of episode lists,
    [seriesData] is built without an error and has one season for each
    name, in order: season [i] (counted from 0) has the number [i + 1],
    the [i]-th name, and the [i]-th episode list, or [undefined] for its
    episodes when the response has fewer episode lists than names.  With
    no season name at all the series has no season, and reading its first
    episode throws. *)
Theorem seriesDataOf_seasons (apiData : value) (names lists : list value) :
  field (field apiData "data") "seasons" = VArr names ->
  field (field apiData "data") "episodes" = VArr lists ->
  exists seasons,
    seriesDataOf apiData = Normal (VObj [("seasons", VArr seasons)])
    /\ length seasons = length names
    /\ (forall i name, names !! i = Some name ->
          exists season,
            seasons !! i = Some season
            /\ field season "season" = VNum (of_Z (Z.of_nat i + 1))
            /\ field season "seasonName" = name
            /\ field season "episodes" = default VUndefined (lists !! i))
    /\ (names = [] ->
        exists e, firstEpisode (VObj [("seasons", VArr seasons)]) = Throw e).
Proof.
  intros Hnames Hlists.
  destruct apiData as [| | | | | | ps]; try done.
  destruct (field (VObj ps) "data") as [| | | | | | data] eqn:Hdata; try done.
  set (g := fun (index : nat) (seasonName : value) =>
              VObj [("season", VNum (of_Z (Z.of_nat index + 1)));
                    ("seasonName", seasonName);
                    ("episodes", default VUndefined (lists !! index))]).
  exists (imap g names). split_and!.
  - unfold seriesDataOf, get. cbn [nullish bind]. rewrite Hdata. cbn [nullish bind].
    rewrite Hnames.
    rewrite (mapFrom_imap _ g); [done |].
    intros j x. cbn [Nat.add nullish bind]. rewrite Hlists. cbn [bind].
    by rewrite at_index_array.
  - by rewrite length_imap.
  - intros i name Hi. exists (g i name). split; [| done].
    by rewrite list_lookup_imap, Hi.
  - intros ->. by eexists.
Qed.

(** X23: the sample response gives the sample series. *)
Lemma seriesDataOf_seasons_witness : seriesDataOf response = Normal series.
Proof.
  destruct (seriesDataOf_seasons response [VStr "One"; VStr "Two"]
              [VArr seasonOne; VArr seasonTwo])
    as (seasons & Hbuilt & _).
  - reflexivity.
  - reflexivity.
  - rewrite Hbuilt. vm_compute in Hbuilt. injection Hbuilt as <-. reflexivity.
Defined.

End SeriesFacts.

(** ** Ad countdowns and the lock overlay *)

Section AdsFacts.
Import JS Browser Numeric Clock AdRegion Selector Store Player Switch Ads Samples.

Lemma noneArmed_held (p : player) : noneArmed p -> countdownsHeld p.
Proof. intros Hnone id c Hc Hin. by destruct (Hnone id c Hc). Qed.

Lemma held_frame (p q : player) :
  countdowns q = countdowns p ->
  win (page q) = win (page p) ->
  pendingAdType (ads (page q)) = pendingAdType (ads (page p)) ->
  countdownsHeld p -> countdownsHeld q.
Proof.
  intros Hc Hw Hp Hheld id c. rewrite Hc, Hw, Hp. apply Hheld.
Qed.

Lemma noneArmed_frame (p q : player) :
  countdowns q = countdowns p ->
  intervals (win (page q)) = intervals (win (page p)) ->
  noneArmed p -> noneArmed q.
Proof. intros Hc Hw Hnone id c. rewrite Hc, Hw. apply Hnone. Qed.

Lemma held_not_pending (p : player) :
  countdownsHeld p -> pendingAdType (ads (page p)) = None -> noneArmed p.
Proof.
  intros Hheld Hpending id c Hc Hin.
  destruct (Hheld id c Hc Hin) as [_ Hp]. congruence.
Qed.

Lemma held_cleared (p : player) :
  countdownsHeld p -> noneArmed (clearCountdownHandle p).
Proof.
  intros Hheld id c. unfold clearCountdownHandle, clearAdCountdown. simpl.
  destruct (adCountdownInterval (win (page p))) as [h |] eqn:Hh; simpl.
  - intros Hc Hin. apply elem_of_difference in Hin as [Hin Hne].
    destruct (Hheld id c Hc Hin) as [Hid _].
    rewrite Hh in Hid. injection Hid as ->. apply Hne. by apply elem_of_singleton.
  - intros Hc Hin. destruct (Hheld id c Hc Hin) as [Hid _]. congruence.
Qed.

Lemma playAd_frame (t : adRegion) (url : value) (p : player) :
  countdowns (playAd t url p).1 = countdowns p
  /\ win (page (playAd t url p).1) = win (page p).
Proof.
  unfold playAd. destruct t; simpl; try done;
    by destruct (get (currentMovieData (page p)) "locked").
Qed.

Lemma exitFullscreenIfNeeded_frame (p : player) :
  countdowns (exitFullscreenIfNeeded p) = countdowns p
  /\ page (exitFullscreenIfNeeded p) = page p
  /\ actionButtons (exitFullscreenIfNeeded p) = actionButtons p
  /\ adPlugin (exitFullscreenIfNeeded p) = adPlugin p
  /\ duration (exitFullscreenIfNeeded p) = duration p.
Proof. unfold exitFullscreenIfNeeded. by case_match. Qed.

Lemma show_held (t : adRegion) (url : value) (p : player) :
  noneArmed p -> countdownsHeld (showAdCountdownAndPlayAd t url p).1.
Proof.
  intros Hnone. unfold showAdCountdownAndPlayAd.
  destruct (exitFullscreenIfNeeded_frame p) as (Hc & Hpage & Hbuttons & Hplugin & Hduration).
  set (p0 := exitFullscreenIfNeeded p) in *. clearbody p0.
  assert (Hnone0 : noneArmed (on_ads (with_pending (Some t)) p0)).
  { intros id c. simpl. rewrite Hc, Hpage. apply Hnone. }
  set (p1 := on_ads (with_pending (Some t)) p0) in *.
  assert (Hc1 : countdowns p1 = countdowns p0) by done.
  assert (Hw1 : win (page p1) = win (page p0)) by done.
  assert (Hp1 : pendingAdType (ads (page p1)) = Some t) by done.
  assert (Hb1 : actionButtons p1 = actionButtons p0) by done.
  clearbody p1.
  destruct (num_lt (duration p1) (of_Z 600)).
  - destruct (adPlugin p1); [| by apply noneArmed_held].
    destruct (playAd_frame t url p1) as [Hpc Hpw].
    destruct (playAd t url p1) as [p2 [[] | e]]; simpl in *;
      apply noneArmed_held; intros id c; simpl; rewrite Hpc, ?Hpw; apply Hnone0.
  - destruct (actionButtons p1); [| by apply noneArmed_held].
    simpl. intros id c. simpl.
    set (h := fresh _).
    intros Hlook Hin.
    destruct (decide (id = h)) as [-> | Hne].
    + rewrite lookup_insert_eq in Hlook. injection Hlook as <-. by simpl.
    + rewrite lookup_insert_ne in Hlook by done.
      apply elem_of_union in Hin as [Hin | Hin].
      * by apply elem_of_singleton in Hin.
      * by destruct (Hnone0 id c Hlook).
Qed.

Lemma removeCountdownButton_frame (p : player) :
  countdowns (removeCountdownButton p) = countdowns p
  /\ page (removeCountdownButton p) = page p.
Proof. unfold removeCountdownButton. by repeat case_match. Qed.

Lemma cancelled_noneArmed (p : player) :
  countdownsHeld p -> noneArmed (removeCountdownButton (clearCountdownHandle p)).
Proof.
  intros Hheld.
  destruct (removeCountdownButton_frame (clearCountdownHandle p)) as [Hc Hpage].
  apply (noneArmed_frame (clearCountdownHandle p)); [done | by rewrite Hpage |].
  by apply held_cleared.
Qed.

Lemma adStep_held (currentTime : number) (p : player) :
  countdownsHeld p -> countdownsHeld (adStep currentTime p).1.
Proof.
  intros Hheld. unfold adStep.
  destruct (get (currentMovieData (page p)) "adstatus") as [adstatus |]; [| done].
  destruct (strict_eq adstatus (VBool true) && _); [| done].
  set (percentage := percentagePlayed _ _). clearbody percentage.
  destruct (pendingAdType (ads (page p))) as [pending |] eqn:Hpending.
  - destruct (currentAdRegion (ads (page p))) as [current |]; [| done].
    destruct (bool_decide _); [| done].
    pose proof (cancelled_noneArmed p Hheld) as Hnone.
    assert (Hreset : countdownsHeld
              (on_ads (with_pending None)
                 (removeCountdownButton (clearCountdownHandle p)))).
    { apply noneArmed_held. by apply (noneArmed_frame _ _ eq_refl eq_refl). }
    destruct (getCurrentAdRegion percentage) as [r |]; [| done].
    destruct (negb (shown r (ads (page p)))); [| done].
    destruct (lollOf r p); [| done].
    unfold cancelCurrentCountdownAndStartNew. by apply show_held.
  - pose proof (held_not_pending p Hheld Hpending) as Hnone.
    destruct (dueSlot percentage (ads (page p))) as [r |]; [| done].
    destruct (lollOf r p) as [url |]; [| done].
    pose proof (show_held r url p Hnone) as Hshow.
    destruct (showAdCountdownAndPlayAd r url p) as [p1 [[] | e]]; [| done].
    simpl in *. by apply (held_frame p1).
Qed.

Lemma tick_held (id : nat) (p : player) :
  countdownsHeld p -> countdownsHeld (countdownTick id p).1.
Proof.
  intros Hheld. unfold countdownTick.
  destruct (countdowns p !! id) as [c |] eqn:Hc; [| done].
  case_bool_decide as Hin; [| done].
  destruct (Hheld id c Hc Hin) as [Hhandle Hpending].
  unfold tickBody. cbv zeta.
  set (c' := {| adType := adType c; adUrl := adUrl c;
                countdownValue := countdownValue c - 1 |}).
  set (p1 := with_countdowns (<[id := c']> (countdowns p)) p).
  assert (Hheld1 : countdownsHeld p1).
  { intros i d. simpl. intros Hlook Hi.
    destruct (decide (i = id)) as [-> | Hne].
    - rewrite lookup_insert_eq in Hlook. injection Hlook as <-. by simpl.
    - rewrite lookup_insert_ne in Hlook by done. by apply Hheld. }
  clearbody p1.
  set (p2 := if (_ : bool) then with_actionButtons _ p1 else p1).
  assert (Hheld2 : countdownsHeld p2).
  { subst p2. by case_match. }
  clearbody p2.
  destruct (countdownValue c' <=? 0)%Z; [| done].
  pose proof (held_cleared p2 Hheld2) as Hnone.
  set (p3 := with_handle None (clearCountdownHandle p2)).
  assert (Hnone3 : noneArmed p3) by (by apply (noneArmed_frame (clearCountdownHandle p2))).
  clearbody p3.
  set (p4 := if (_ : bool) then with_actionButtons _ p3 else p3).
  assert (Hnone4 : noneArmed p4).
  { subst p4. by case_match. }
  clearbody p4.
  destruct (adPlugin p4 && _).
  - destruct (playAd_frame (adType c') (adUrl c') p4) as [Hpc Hpw].
    destruct (playAd _ _ p4) as [p5 [[] | e]]; simpl in *;
      apply noneArmed_held; intros i d; simpl; rewrite Hpc, ?Hpw; apply Hnone4.
  - apply noneArmed_held. by apply (noneArmed_frame p4).
Qed.

Lemma closed_noneArmed (p : player) :
  countdownsHeld p -> noneArmed (onAdClosed p).
Proof.
  intros Hheld. unfold onAdClosed.
  set (p1 := on_ads (with_pending None)
               (showMainPlayerControls (on_ads (with_isAdPlaying false) p))).
  assert (Hnone : noneArmed (clearCountdownHandle p1)).
  { intros id c. unfold clearCountdownHandle, clearAdCountdown. simpl.
    destruct (adCountdownInterval (win (page p))) as [h |] eqn:Hh; simpl.
    - intros Hc Hin. apply elem_of_difference in Hin as [Hin Hne].
      destruct (Hheld id c Hc Hin) as [Hid _].
      rewrite Hh in Hid. injection Hid as ->. apply Hne. by apply elem_of_singleton.
    - intros Hc Hin. destruct (Hheld id c Hc Hin) as [Hid _]. congruence. }
  clearbody p1. cbv zeta.
  by destruct (actionButtons (clearCountdownHandle p1)).
Qed.

Lemma held_same (p q : player) :
  sameSession p q -> countdownsHeld p -> countdownsHeld q.
Proof.
  intros (Hw & Hc & _ & _ & _ & _ & Hp & _). by apply held_frame.
Qed.

Lemma lockStep_same (currentTime : number) (p : player) :
  sameSession p (lockStep currentTime p).1.
Proof.
  unfold lockStep. cbv zeta.
  destruct (let* locked := get (currentMovieData (page p)) "locked" in _)
    as [[|] |]; [| | apply sameSession_refl].
  - destruct (showLockOverlay_frame p) as [Hsame _].
    destruct (showLockOverlay p) as [p1 [[] | e]]; cbn [fst] in *; [| done].
    destruct (if num_gt (percentagePlayed currentTime p1) (of_Z 50) then _ else _)
      as [[|] |]; [| done | done].
    set (p2 := with_page (perform ArtPause (page p1)) p1).
    assert (H2 : sameSession p p2).
    { apply (sameSession_trans p p1); [done | by repeat split]. }
    destruct (negb (lockOverlayShown p2)); [| done].
    destruct (showLockOverlay_frame p2) as [Hsame2 _].
    by apply (sameSession_trans p p2).
  - cbn [fst].
    destruct (if num_gt (percentagePlayed currentTime p) (of_Z 50) then _ else _)
      as [[|] |]; [| apply sameSession_refl | apply sameSession_refl].
    set (p2 := with_page (perform ArtPause (page p)) p).
    assert (H2 : sameSession p p2) by (by repeat split).
    destruct (negb (lockOverlayShown p2)); [| done].
    destruct (showLockOverlay_frame p2) as [Hsame2 _].
    by apply (sameSession_trans p p2).
Qed.

Lemma onTimeUpdate_held (currentTime : number) (p : player) :
  countdownsHeld p -> countdownsHeld (onTimeUpdate currentTime p).1.
Proof.
  intros Hheld. unfold onTimeUpdate, onTimeUpdateWith, idle.
  destruct (lockOverlayShown p || isAdPlaying (ads (page p))).
  - cbn [fst]. unfold exitFullscreenIfNeeded.
    destruct (_ && _); by apply (held_frame p).
  - pose proof (lockStep_same currentTime p) as Hsame.
    destruct (lockStep currentTime p) as [p1 [[] | e]]; cbn [fst] in *.
    + apply adStep_held. by apply (held_same p).
    + by apply (held_same p).
Qed.

Lemma switch_held (ep : value) (p : player) :
  countdownsHeld p -> countdownsHeld (switchToEpisode ep p).1.
Proof.
  intros Hheld. unfold switchToEpisode. destruct (negb (truthy ep)); [done |].
  destruct (prelude_facts (page p)) as (_ & _ & Hgone & Hkept).
  set (p0 := with_page (run switchPrelude (page p)) p).
  assert (Hnone0 : noneArmed p0).
  { intros id c Hc Hin. cbn [p0 with_page countdowns page] in *.
    assert (Hsub : id ∈ intervals (win (page p))).
    { revert Hin.
      change (run switchPrelude (page p))
        with (clearNextEpisodeCard (clearAdCountdown (resetAdTracking (page p)))).
      unfold clearNextEpisodeCard, clearAdCountdown, resetAdTracking. simpl.
      destruct (adCountdownInterval (win (page p))); simpl;
        destruct (nextEpisodeCountdownTimer (win (page p))); simpl;
        destruct (nextEpisodeBorderAnimation (win (page p))); simpl;
        rewrite ?elem_of_difference; tauto. }
    destruct (Hheld id c Hc Hsub) as [Hhandle _].
    by apply (Hgone id). }
  apply noneArmed_held.
  destruct (loadEpisode_cases ep p0) as (s' & _ & Hwin & [[Hplain _] | (Hoverlay & _)]).
  - rewrite Hplain. intros id c. cbn [with_page countdowns page]. rewrite Hwin.
    apply Hnone0.
  - rewrite Hoverlay.
    destruct (showLockOverlay_frame (with_page s' p0)) as ((Hw & Hc & _) & _).
    intros id c. rewrite Hw, Hc. cbn [with_page countdowns page]. rewrite Hwin.
    apply Hnone0.
Qed.

Lemma step_held (e : event) (p : player) :
  countdownsHeld p -> countdownsHeld (step e p).
Proof.
  intros Hheld. destruct e as [currentTime | id | | | | ep]; cbn [step].
  - by apply onTimeUpdate_held.
  - by apply tick_held.
  - by apply (held_frame p).
  - by apply noneArmed_held, closed_noneArmed.
  - apply noneArmed_held.
    apply (noneArmed_frame (onAdClosed p)); [done | done |].
    by apply closed_noneArmed.
  - by apply switch_held.
Qed.

(** X19.  No countdown is orphaned by the ad code itself (lines 2309-2509
    and 2700-2763, with [switchToEpisode]).  If every armed countdown
    timer is the one whose handle [window.adCountdownInterval] keeps, and
    counts down for the pending slot, then this is still so after any
    sequence of position reports, seconds passing for any timer, ads
    starting, closing or failing, and switches to another episode; and
    so at most one countdown timer is armed at any time. *)
Theorem countdowns_stay_held (es : list event) (p : player) :
  countdownsHeld p ->
  countdownsHeld (steps es p)
  /\ (forall i j c d,
        countdowns (steps es p) !! i = Some c ->
        i ∈ intervals (win (page (steps es p))) ->
        countdowns (steps es p) !! j = Some d ->
        j ∈ intervals (win (page (steps es p))) ->
        i = j).
Proof.
  intros Hheld.
  assert (Hafter : countdownsHeld (steps es p)).
  { revert p Hheld. induction es as [| e es IH]; intros p Hheld; [done |].
    apply IH. by apply step_held. }
  split; [done |]. intros i j c d Hc Hi Hd Hj.
  destruct (Hafter i c Hc Hi) as [Hhandle _].
  destruct (Hafter j d Hd Hj) as [Hhandle' _].
  congruence.
Qed.

(** X19: a viewer reaches 20 percent, the countdown starts and runs for
    two seconds, the viewer seeks to 60 percent, and the ad closes. *)
Lemma countdowns_stay_held_witness :
  countdownsHeld
    (steps [TimeUpdate (Fin 720); Second 0; Second 0; TimeUpdate (Fin 2160);
            Second 1; AdClosed] viewer).
Proof.
  apply (countdowns_stay_held
           [TimeUpdate (Fin 720); Second 0; Second 0; TimeUpdate (Fin 2160);
            Second 1; AdClosed] viewer).
  intros id c Hc. change ((∅ : gmap nat countdown) !! id = Some c) in Hc.
  rewrite lookup_empty in Hc. discriminate Hc.
Defined.

Lemma buttonText_label (language : value) (v : Z) :
  (0 <= v < 60)%Z -> buttonText language v = countdownLabel language v.
Proof.
  intros Hv. unfold buttonText, countdownLabel.
  assert (Hmin : Math_floor (num_div (of_Z v) (of_Z 60)) = of_Z 0).
  { destruct (decide (v = 0%Z)) as [-> | Hne]; [done |].
    change (of_Z 60) with (of_Z (Z.pos 60)). unfold of_Z at 1. rewrite div_nonzero.
    unfold Math_floor. rewrite Qfloor_div_whole, Qfloor_Z.
    by rewrite Z.div_small by lia. }
  assert (Hsec : padStart 2 "0" (number_to_string (num_rem (of_Z v) (of_Z 60)))
                 = twoDigits v).
  { change (of_Z 60) with (of_Z (Z.pos 60)). unfold of_Z at 1.
    rewrite rem_nonneg by (change 0%Q with (inject_Z 0); rewrite <- Zle_Qle; lia).
    rewrite (number_to_string_whole _ v).
    - rewrite pad_whole by lia. destruct (Z.ltb_spec v 100); [done | lia].
    - rewrite Qfloor_Z, Z.div_small by lia. simpl. ring. }
  rewrite Hmin, Hsec.
  destruct (loose_eq_string language "en"); reflexivity.
Qed.

Lemma undisturbed_trans (p q r : player) :
  undisturbed p q -> undisturbed q r -> undisturbed p r.
Proof.
  intros (H1 & H2 & H3 & H4 & H5) (G1 & G2 & G3 & G4 & G5).
  unfold undisturbed. split_and!; congruence.
Qed.

Lemma show_counting (t : adRegion) (url : value) (p : player)
    (b : option countdownButton) :
  num_lt (duration p) (of_Z 600) = false ->
  actionButtons p = Some b ->
  counting (fresh (intervals (win (page p)) ∪ dom (countdowns p))) t url 10
    (showAdCountdownAndPlayAd t url p).1
  /\ undisturbed p (showAdCountdownAndPlayAd t url p).1.
Proof.
  intros Hduration Hbuttons.
  unfold showAdCountdownAndPlayAd, exitFullscreenIfNeeded.
  destruct (ios p && fullscreen p && _); simpl; rewrite Hduration, Hbuttons; simpl.
  all: split; [| done].
  all: unfold counting; simpl; split_and!; try done.
  all: try (by rewrite lookup_insert_eq).
  all: try (apply elem_of_union; left; by apply elem_of_singleton).
  all: by rewrite buttonText_label.
Qed.

Lemma tick_counts (id : nat) (t : adRegion) (url : value) (v : Z) (p : player) :
  counting id t url v p -> (1 < v <= 60)%Z ->
  counting id t url (v - 1) (countdownTick id p).1
  /\ undisturbed p (countdownTick id p).1.
Proof.
  intros (Hc & Hin & Hhandle & Hpending & Hbutton) Hv.
  unfold countdownTick. rewrite Hc.
  rewrite bool_decide_eq_true_2 by done.
  unfold tickBody. cbv zeta. cbn [adType adUrl countdownValue].
  cbn [with_countdowns actionButtons]. rewrite Hbutton. cbn [owner].
  rewrite bool_decide_eq_true_2 by done.
  destruct (Z.leb_spec (v - 1) 0) as [Hle | Hgt]; [lia |].
  cbn [fst]. split; [| done].
  unfold counting. simpl. split_and!; try done.
  - by rewrite lookup_insert_eq.
  - by rewrite buttonText_label by lia.
Qed.

Lemma tick_plays (id : nat) (t : adRegion) (url locked : value) (p : player) :
  counting id t url 1 p ->
  adPlugin p = true ->
  get (currentMovieData (page p)) "locked" = Normal locked ->
  calls (countdownTick id p).1 = app (calls p) [adCallFor t url locked]
  /\ isAdPlaying (ads (page (countdownTick id p).1)) = true
  /\ controlsHidden (countdownTick id p).1 = true
  /\ actionButtons (countdownTick id p).1 = Some None
  /\ (id ∉ intervals (win (page (countdownTick id p).1)))
  /\ adCountdownInterval (win (page (countdownTick id p).1)) = None
  /\ pendingAdType (ads (page (countdownTick id p).1)) = None.
Proof.
  intros (Hc & Hin & Hhandle & Hpending & Hbutton) Hplugin Hlocked.
  unfold countdownTick. rewrite Hc.
  rewrite bool_decide_eq_true_2 by done.
  unfold tickBody. cbv zeta. cbn [adType adUrl countdownValue].
  cbn [with_countdowns actionButtons]. rewrite Hbutton. cbn [owner].
  rewrite bool_decide_eq_true_2 by done.
  change (1 - 1 <=? 0)%Z with true. cbv iota.
  unfold clearCountdownHandle, clearAdCountdown. simpl.
  rewrite Hhandle. simpl. rewrite bool_decide_eq_true_2 by done. simpl.
  rewrite Hplugin, Hpending. rewrite bool_decide_eq_true_2 by done. simpl.
  unfold playAd. simpl. rewrite Hlocked.
  destruct t; simpl; split_and!; try done.
  all: rewrite elem_of_difference, elem_of_singleton; tauto.
Qed.

Lemma steps_snoc (es : list event) (e : event) (p : player) :
  steps (es ++ [e]) p = step e (steps es p).
Proof. unfold steps. by rewrite foldl_app. Qed.

Lemma seconds_succ (k : nat) (id : nat) (p : player) :
  steps (replicate (S k) (Second id)) p
  = (countdownTick id (steps (replicate k (Second id)) p)).1.
Proof.
  change (replicate (S k) (Second id)) with (Second id :: replicate k (Second id)).
  by rewrite replicate_cons_app, steps_snoc.
Qed.

(** X21.  The countdown before an ad (lines 2309-2392), on a video that
    is not shorter than ten minutes, with the plug-in installed and an
    action area.  The
    call arms one timer.  For each k below 10, after k seconds the button
    reads 'Ads in 00:NN' ('Kwamamaza muri 00:NN' for a language other than
    'en') with NN = 10 - k in two digits, the slot is pending, and nothing
    was sent to the plug-in nor the ad-playing flag touched.  The tenth
    second plays the ad: [startAd] for the pre-roll, [updateVideoLink]
    with the URL and 86400 seconds for a locked episode or 50 otherwise
    for the other slots, in one call; the flag is set, the controls are
    hidden, the button is gone, the timer is cleared and nothing is
    pending. *)
Theorem countdown_runs_ten_seconds
    (t : adRegion) (url locked : value) (p : player)
    (b : option countdownButton) :
  num_lt (duration p) (of_Z 600) = false ->
  actionButtons p = Some b ->
  adPlugin p = true ->
  get (currentMovieData (page p)) "locked" = Normal locked ->
  exists id,
    (forall k, (k < 10)%nat ->
       counting id t url (10 - Z.of_nat k)
         (steps (replicate k (Second id)) (showAdCountdownAndPlayAd t url p).1)
       /\ undisturbed p
            (steps (replicate k (Second id)) (showAdCountdownAndPlayAd t url p).1))
    /\ (let played :=
          steps (replicate 10 (Second id)) (showAdCountdownAndPlayAd t url p).1 in
        calls played = app (calls p) [adCallFor t url locked]
        /\ isAdPlaying (ads (page played)) = true
        /\ controlsHidden played = true
        /\ actionButtons played = Some None
        /\ (id ∉ intervals (win (page played)))
        /\ adCountdownInterval (win (page played)) = None
        /\ pendingAdType (ads (page played)) = None).
Proof.
  intros Hduration Hbuttons Hplugin Hlocked.
  exists (fresh (intervals (win (page p)) ∪ dom (countdowns p))).
  set (id := fresh _).
  destruct (show_counting t url p b Hduration Hbuttons) as [Hstart Hframe].
  fold id in Hstart.
  set (p0 := (showAdCountdownAndPlayAd t url p).1) in *. clearbody p0.
  assert (Hrun : forall k, (k < 10)%nat ->
            counting id t url (10 - Z.of_nat k) (steps (replicate k (Second id)) p0)
            /\ undisturbed p (steps (replicate k (Second id)) p0)).
  { induction k as [| k IH]; intros Hk; [done |].
    destruct IH as [Hcount Hsame]; [lia |].
    rewrite seconds_succ.
    destruct (tick_counts id t url (10 - Z.of_nat k) _ Hcount) as [Hnext Hkeep]; [lia |].
    split.
    - by replace (10 - Z.of_nat (S k))%Z with (10 - Z.of_nat k - 1)%Z by lia.
    - by apply (undisturbed_trans _ _ _ Hsame). }
  split; [exact Hrun |].
  destruct (Hrun 9%nat) as [Hcount (Hcalls & _ & Hp & _ & Hmovie)]; [lia |].
  cbv zeta. rewrite seconds_succ.
  rewrite <- Hcalls.
  apply tick_plays; [done | congruence | congruence].
Qed.

(** X21: the mid-roll of an episode that is not locked. *)
Lemma countdown_runs_ten_seconds_witness :
  exists id,
    calls (steps (replicate 10 (Second id))
             (showAdCountdownAndPlayAd midLoll (VStr "http://ads/mid.mp4") viewer).1)
    = [UpdateVideoLink (VStr "http://ads/mid.mp4") 50 50].
Proof.
  destruct (countdown_runs_ten_seconds midLoll (VStr "http://ads/mid.mp4")
              (VBool false) viewer None)
    as (id & _ & Hplayed & _).
  - reflexivity.
  - reflexivity.
  - reflexivity.
  - reflexivity.
  - exists id. exact Hplayed.
Defined.

Lemma dueSlot_region (percentage : number) (a : adSession) (r : adRegion) :
  dueSlot percentage a = Some r ->
  getCurrentAdRegion percentage = Some r /\ shown r a = false.
Proof.
  unfold dueSlot, getCurrentAdRegion.
  destruct percentage as [| neg | q]; [done | by destruct neg |].
  unfold num_ge, num_le, num_lt, of_Z.
  repeat match goal with
         | |- context [Qlt_bool ?x ?y] => destruct (Qlt_bool_reflect x y)
         end; unfold inject_Z in *; simpl;
    destruct (preAdShown a) eqn:Hpre, (midAdShown a) eqn:Hmid,
             (postAdShown a) eqn:Hpost; simpl; try done;
    intros [= <-]; (split; [reflexivity || (exfalso; lra) | done]).
Qed.

Lemma dueSlot_bounds (q : Q) (a : adSession) (r : adRegion) :
  dueSlot (Fin q) a = Some r ->
  shown r a = false
  /\ match r with
     | preLoll => 19 <= q /\ q < 49
     | midLoll => 55 <= q /\ q <= 75
     | postLoll => 81 <= q /\ q <= 100
     end%Q.
Proof.
  unfold dueSlot, num_ge, num_le, num_lt, of_Z.
  repeat match goal with
         | |- context [Qlt_bool ?x ?y] => destruct (Qlt_bool_reflect x y)
         end; unfold inject_Z in *; simpl;
    destruct (preAdShown a) eqn:Hpre, (midAdShown a) eqn:Hmid,
             (postAdShown a) eqn:Hpost; simpl; try done;
    intros [= <-]; (split; [done | lra]).
Qed.

Lemma bounds_dueSlot (q : Q) (a : adSession) (r : adRegion) :
  shown r a = false ->
  match r with
  | preLoll => 19 <= q /\ q < 49
  | midLoll => 55 <= q /\ q <= 75
  | postLoll => 81 <= q /\ q <= 100
  end%Q ->
  dueSlot (Fin q) a = Some r.
Proof.
  unfold dueSlot, num_ge, num_le, num_lt, of_Z.
  repeat match goal with
         | |- context [Qlt_bool ?x ?y] => destruct (Qlt_bool_reflect x y)
         end; unfold inject_Z in *; simpl;
    destruct r; simpl; intros Hs Hq; rewrite ?Hs; simpl; try done; exfalso; lra.
Qed.

(** A slot that is due a margin earlier and a margin later is due. *)
Lemma dueSlot_between (x : number) (a : adSession) (r : adRegion) :
  dueSlot (num_sub x (Fin margin)) a = Some r ->
  dueSlot (num_add x (Fin margin)) a = Some r ->
  dueSlot x a = Some r.
Proof.
  destruct x as [| neg | q]; [done | by destruct neg |].
  unfold margin. cbn [num_sub num_add num_neg].
  intros [Hshown Hlow]%dueSlot_bounds [_ Hhigh]%dueSlot_bounds.
  apply bounds_dueSlot; [done |].
  destruct r; lra.
Qed.

Lemma falsy_not_true (v : value) : truthy v = false -> loose_eq_true v = false.
Proof.
  destruct v as [| | [] | [| neg | q] | s | l | o]; try done.
  - simpl. intros Hq%negb_false_iff. unfold num_eq.
    apply Qeq_bool_iff in Hq. apply not_true_is_false. intros H1%Qeq_bool_iff.
    rewrite Hq in H1. discriminate H1.
  - simpl. intros Hs%negb_false_iff. apply String.eqb_eq in Hs. by subst s.
Qed.

(** The lock part does nothing on a record that is not locked. *)
Lemma lockStep_open (currentTime : number) (locked : value) (p : player) :
  get (currentMovieData (page p)) "locked" = Normal locked ->
  truthy locked = false ->
  lockStep currentTime p = (p, Normal ()).
Proof.
  intros Hlocked Hfalsy%falsy_not_true.
  unfold lockStep. rewrite Hlocked. cbn [bind]. rewrite Hfalsy. cbn [andb].
  cbv zeta.
  destruct (num_gt _ _); [| done].
  destruct (get (currentMovieData (page p)) "type") as [type | e] eqn:Htype.
  - cbn [bind]. destruct (loose_eq_string type "M"); [| done].
    rewrite Hlocked. cbn [bind]. by rewrite Hfalsy.
  - unfold get in Hlocked, Htype.
    by destruct (nullish (currentMovieData (page p))).
Qed.

Lemma adStep_due
    (currentTime : number) (r : adRegion) (url locked : value) (p : player)
    (b : option countdownButton) :
  get (currentMovieData (page p)) "adstatus" = Normal (VBool true) ->
  isAdPlaying (ads (page p)) = false ->
  pendingAdType (ads (page p)) = None ->
  dueSlot (percentagePlayed currentTime p) (ads (page p)) = Some r ->
  lollOf r p = Normal url ->
  adPlugin p = true ->
  get (currentMovieData (page p)) "locked" = Normal locked ->
  actionButtons p = Some b ->
  shown r (ads (page (adStep currentTime p).1)) = true
  /\ (num_lt (duration p) (of_Z 600) = true ->
      calls (adStep currentTime p).1 = app (calls p) [adCallFor r url locked]
      /\ isAdPlaying (ads (page (adStep currentTime p).1)) = true
      /\ pendingAdType (ads (page (adStep currentTime p).1)) = None
      /\ win (page (adStep currentTime p).1) = win (page p))
  /\ (num_lt (duration p) (of_Z 600) = false ->
      counting (fresh (intervals (win (page p)) ∪ dom (countdowns p))) r url 10
        (adStep currentTime p).1
      /\ undisturbed p (adStep currentTime p).1
      /\ lockOverlayShown (adStep currentTime p).1 = lockOverlayShown p
      /\ (adStep currentTime (adStep currentTime p).1).1 = (adStep currentTime p).1).
Proof.
  intros Hadstatus Hplaying Hpending Hdue Hloll Hplugin Hlocked Hbuttons.
  destruct (dueSlot_region _ _ _ Hdue) as [Hregion Hshown].
  assert (Hstep : adStep currentTime p
                  = match showAdCountdownAndPlayAd r url p with
                    | (p, Throw e) => (p, Throw e)
                    | (p, Normal _) => (on_ads (with_shown r) p, Normal ())
                    end).
  { unfold adStep. rewrite Hadstatus, Hplaying, Hpending. cbn [strict_eq andb negb].
    change (strict_eq (VBool true) (VBool true)) with true. cbv iota. cbv zeta.
    by rewrite Hdue, Hloll. }
  rewrite Hstep. clear Hstep.
  unfold showAdCountdownAndPlayAd, exitFullscreenIfNeeded.
  destruct (num_lt (duration p) (of_Z 600)) eqn:Hduration.
  - assert (Hplay : forall p0, currentMovieData (page p0) = currentMovieData (page p) ->
              playAd r url p0
              = (with_calls (app (calls p0) [adCallFor r url locked])
                   (hideMainPlayerControls (on_ads (with_isAdPlaying true) p0)),
                 Normal ())).
    { intros p0 Hsame. unfold playAd. simpl. rewrite Hsame, Hlocked. by destruct r. }
    destruct (ios p && fullscreen p && _); simpl; rewrite Hduration, Hplugin;
      rewrite Hplay by done; simpl;
      (split; [by destruct r | split; [done | intros [=]]]).
  - destruct (ios p && fullscreen p && _); simpl; rewrite Hduration, Hbuttons; simpl.
    all: split; [by destruct r | split; [intros [=] | intros _]].
    all: split_and!.
    all: try done.
    all: try (unfold counting; simpl; split_and!; try done;
              [ by rewrite lookup_insert_eq
              | apply elem_of_union; left; by apply elem_of_singleton
              | by rewrite buttonText_label ]).
    all: unfold percentagePlayed in Hregion.
    all: unfold adStep, percentagePlayed; simpl; rewrite Hadstatus, Hplaying; simpl;
      change (strict_eq (VBool true) (VBool true)) with true; simpl;
      rewrite Hregion; by rewrite bool_decide_eq_false_2 by (intros H; by apply H).
Qed.


(** X22.  A position report in a slot that is due (lines 2605-2763).
    No lock overlay is shown and no ad plays; the statements before the
    lock part ([watch]) return; the record is not locked ([locked]
    falsy); the statements after the lock part ([upkeep]) return, and
    leave the player in state [q]: ads on, no ad playing, nothing
    pending, the plug-in installed, an action area, and the position
    inside the bounds of a slot whose ad was not shown, by a margin of a
    billionth of a percent on either side ([dueByMargin]), so that the
    rounding of the quotient by the player's arithmetic does not decide.
    Then the lock part changes nothing and the ad part runs on [q].  The
    slot is marked as shown in any case.  On a video shorter than ten
    minutes the ad plays at once, in one call to the plug-in, with no
    timer and nothing left pending.  On any other video the ten-second
    countdown of X21 is armed and nothing is sent yet; and the ad part
    of a second report at the same position changes nothing: the
    bounds of the trigger and of [getCurrentAdRegion] agree, so the
    countdown is not taken for a seek. *)
Theorem due_slot_fires
    (watch upkeep : player -> player * completion unit)
    (currentTime : number) (r : adRegion) (url locked : value) (p p1 q : player)
    (b : option countdownButton) :
  lockOverlayShown p = false ->
  isAdPlaying (ads (page p)) = false ->
  watch p = (p1, Normal ()) ->
  get (currentMovieData (page p1)) "locked" = Normal locked ->
  truthy locked = false ->
  upkeep p1 = (q, Normal ()) ->
  get (currentMovieData (page q)) "locked" = Normal locked ->
  get (currentMovieData (page q)) "adstatus" = Normal (VBool true) ->
  isAdPlaying (ads (page q)) = false ->
  pendingAdType (ads (page q)) = None ->
  dueByMargin r currentTime q ->
  lollOf r q = Normal url ->
  adPlugin q = true ->
  actionButtons q = Some b ->
  lockStep currentTime p1 = (p1, Normal ())
  /\ onTimeUpdateWith watch upkeep currentTime p = adStep currentTime q
  /\ shown r (ads (page (onTimeUpdateWith watch upkeep currentTime p).1)) = true
  /\ (num_lt (duration q) (of_Z 600) = true ->
      calls (onTimeUpdateWith watch upkeep currentTime p).1
      = app (calls q) [adCallFor r url locked]
      /\ isAdPlaying (ads (page (onTimeUpdateWith watch upkeep currentTime p).1)) = true
      /\ pendingAdType (ads (page (onTimeUpdateWith watch upkeep currentTime p).1))
         = None
      /\ win (page (onTimeUpdateWith watch upkeep currentTime p).1) = win (page q))
  /\ (num_lt (duration q) (of_Z 600) = false ->
      counting (fresh (intervals (win (page q)) ∪ dom (countdowns q))) r url 10
        (onTimeUpdateWith watch upkeep currentTime p).1
      /\ undisturbed q (onTimeUpdateWith watch upkeep currentTime p).1
      /\ (adStep currentTime (onTimeUpdateWith watch upkeep currentTime p).1).1
         = (onTimeUpdateWith watch upkeep currentTime p).1).
Proof.
  intros Hoverlay Hplaying Hwatch Hlocked1 Hfalsy Hupkeep Hlocked Hadstatus
    Hplayingq Hpending [Hlow Hhigh] Hloll Hplugin Hbuttons.
  pose proof (dueSlot_between _ _ _ Hlow Hhigh) as Hdue.
  pose proof (lockStep_open currentTime locked p1 Hlocked1 Hfalsy) as Hlock.
  assert (Hrun : onTimeUpdateWith watch upkeep currentTime p = adStep currentTime q).
  { unfold onTimeUpdateWith. rewrite Hoverlay, Hplaying. cbn [orb].
    by rewrite Hwatch, Hlock, Hupkeep. }
  rewrite Hrun.
  destruct (adStep_due currentTime r url locked q b) as (Hshown & Hshort & Hlong);
    try done.
  split_and!; [done | done | done | done |].
  intros Hduration.
  destruct (Hlong Hduration) as (Hcounting & Hsame & _ & Hagain).
  by split_and!.
Qed.

(** X22: the viewer reaches 20 percent of the hour, at a report at which
    the other statements have nothing to do. *)
Lemma due_slot_fires_witness :
  preAdShown (ads (page (onTimeUpdate (Fin 720) viewer).1)) = true
  /\ calls (onTimeUpdate (Fin 720) viewer).1 = [].
Proof.
  destruct (due_slot_fires idle idle (Fin 720) preLoll (VStr "http://ads/pre.mp4")
              (VBool false) viewer viewer viewer None)
    as (_ & _ & Hshown & _ & Hlong).
  - reflexivity.
  - reflexivity.
  - reflexivity.
  - reflexivity.
  - reflexivity.
  - reflexivity.
  - reflexivity.
  - reflexivity.
  - reflexivity.
  - reflexivity.
  - split; reflexivity.
  - reflexivity.
  - reflexivity.
  - reflexivity.
  - split; [exact Hshown |].
    destruct Hlong as (_ & (Hcalls & _) & _); [reflexivity |]. exact Hcalls.
Defined.

(** X20.  [video:ended] does orphan a countdown (lines 2768-2775).  When
    the video ends while a countdown is armed, with ads on, no ad playing
    and the post-roll not shown yet, on a video that is not shorter than
    ten minutes, a second countdown is started for the post-roll on another timer, whose
    handle replaces the one [window] kept: the first timer stays armed,
    with its seconds left, and no handle leads to it any more, so that
    the condition of X19 no longer holds. *)
Theorem ended_leaves_countdown_armed
    (id : nat) (t : adRegion) (url0 url : value) (v : Z) (p : player) :
  counting id t url0 v p ->
  get (currentMovieData (page p)) "adstatus" = Normal (VBool true) ->
  postAdShown (ads (page p)) = false ->
  isAdPlaying (ads (page p)) = false ->
  num_lt (duration p) (of_Z 600) = false ->
  lollOf postLoll p = Normal url ->
  exists id',
    id' <> id
    /\ counting id' postLoll url 10 (endedStep p).1
    /\ countdowns (endedStep p).1 !! id
       = Some {| adType := t; adUrl := url0; countdownValue := v |}
    /\ id ∈ intervals (win (page (endedStep p).1))
    /\ ~ countdownsHeld (endedStep p).1.
Proof.
  intros (Hc & Hin & Hhandle & Hpending & Hbutton) Hadstatus Hshown Hplaying
    Hduration Hloll.
  set (id' := fresh (intervals (win (page p)) ∪ dom (countdowns p))).
  assert (Hne : id' <> id).
  { intros Heq. apply (is_fresh (intervals (win (page p)) ∪ dom (countdowns p))).
    fold id'. rewrite Heq. apply elem_of_union. by left. }
  assert (Hstep : (endedStep p).1
                  = on_ads (with_shown postLoll) (showAdCountdownAndPlayAd postLoll url p).1).
  { unfold endedStep. rewrite Hadstatus, Hshown, Hplaying.
    change (strict_eq (VBool true) (VBool true)) with true. cbn [andb negb].
    rewrite Hloll.
    unfold showAdCountdownAndPlayAd.
    destruct (exitFullscreenIfNeeded_frame p) as (_ & _ & Hb & _ & Hd).
    cbn [on_ads with_page duration actionButtons]. rewrite Hd, Hduration, Hb, Hbutton.
    done. }
  destruct (show_counting postLoll url p _ Hduration Hbutton) as [Hstart _].
  fold id' in Hstart.
  assert (Hold : countdowns (showAdCountdownAndPlayAd postLoll url p).1 !! id
                 = Some {| adType := t; adUrl := url0; countdownValue := v |}
                 /\ id ∈ intervals (win (page (showAdCountdownAndPlayAd postLoll url p).1))).
  { unfold showAdCountdownAndPlayAd, exitFullscreenIfNeeded.
    destruct (ios p && fullscreen p && _); simpl; rewrite Hduration, Hbutton; simpl;
      fold id'; rewrite lookup_insert_ne by done;
      (split; [done | apply elem_of_union; by right]). }
  set (q := (showAdCountdownAndPlayAd postLoll url p).1) in *. clearbody q.
  rewrite Hstep. destruct Hstart as (Hc' & Hin' & Hhandle' & Hpending' & Hbutton').
  destruct Hold as [Hold Holdin].
  exists id'. split_and!; try done.
  intros Hheld. destruct (Hheld id _ Hold Holdin) as [Hh _].
  simpl in Hh. rewrite Hhandle' in Hh. by injection Hh.
Qed.

(** X20: the video ends while the mid-roll countdown runs on timer 7. *)
Lemma ended_leaves_countdown_armed_witness :
  ~ countdownsHeld (endedStep midCountdown).1.
Proof.
  destruct (ended_leaves_countdown_armed 7 midLoll (VStr "http://ads/mid.mp4")
              (VStr "http://ads/post.mp4") 10 midCountdown)
    as (id' & _ & _ & _ & _ & Hbroken).
  - split_and!; reflexivity.
  - reflexivity.
  - reflexivity.
  - reflexivity.
  - reflexivity.
  - reflexivity.
  - exact Hbroken.
Defined.

(** X24.  The controls around the blocked ad of the lock overlay (lines
    1983-2008, 2285-2296, 2416-2427, 2467-2509 and 2605-2611).  When
    [showLockOverlay] returns on a record with ads on, with the plug-in
    installed, the fourth ad URL is sent to the plug-in with 86400
    seconds, in one call; the ad-playing flag and the overlay flag are
    set, the controls and the more-episodes panel have the class
    'hidden', and the style of the controls takes them off display.
    When the ad then closes or fails, the flag is down, nothing is
    pending, no countdown handle is kept, nothing more is sent, and the
    class 'hidden' is taken off the controls; but their style still
    keeps them off display, the more-episodes panel stays hidden and the
    overlay flag stays set, so that the next position report pauses the
    player and returns before any other part of the handler. *)
Theorem controls_after_blocked_ad (url : value) (p : player) (e : event) :
  (showLockOverlay p).2 = Normal () ->
  get (currentMovieData (page p)) "adstatus" = Normal (VBool true) ->
  at_index (allLolls p) 3 = Normal url ->
  adPlugin p = true ->
  e = AdClosed \/ e = AdFailed ->
  calls (showLockOverlay p).1 = app (calls p) [UpdateVideoLink url 86400 86400]
  /\ isAdPlaying (ads (page (showLockOverlay p).1)) = true
  /\ lockOverlayShown (showLockOverlay p).1 = true
  /\ controlsHidden (showLockOverlay p).1 = true
  /\ moreEpisodesHidden (showLockOverlay p).1 = true
  /\ controlsDisplayed (showLockOverlay p).1 = false
  /\ isAdPlaying (ads (page (step e (showLockOverlay p).1))) = false
  /\ pendingAdType (ads (page (step e (showLockOverlay p).1))) = None
  /\ adCountdownInterval (win (page (step e (showLockOverlay p).1))) = None
  /\ calls (step e (showLockOverlay p).1) = calls (showLockOverlay p).1
  /\ controlsHidden (step e (showLockOverlay p).1) = false
  /\ controlsDisplayed (step e (showLockOverlay p).1) = false
  /\ moreEpisodesHidden (step e (showLockOverlay p).1) = true
  /\ lockOverlayShown (step e (showLockOverlay p).1) = true
  /\ (forall watch upkeep currentTime,
        onTimeUpdateWith watch upkeep currentTime (step e (showLockOverlay p).1)
        = (exitFullscreenIfNeeded
             (with_page (perform ArtPause (page (step e (showLockOverlay p).1)))
                (step e (showLockOverlay p).1)),
           Normal ())).
Proof.
  intros Hok Hadstatus Hurl Hplugin He. revert Hok.
  assert (Hblocked : forall p0,
            currentMovieData (page p0) = currentMovieData (page p) ->
            allLolls p0 = allLolls p ->
            playBlockedLollIfAds p0 = (playBlockedLollAd url p0, Normal ())).
  { intros p0 Hdata Hlolls. unfold playBlockedLollIfAds.
    rewrite Hdata, Hadstatus, Hlolls, Hurl.
    by change (strict_eq (VBool true) (VBool true)) with true. }
  assert (Hshape : forall p0,
            currentMovieData (page p0) = currentMovieData (page p) ->
            allLolls p0 = allLolls p -> adPlugin p0 = true -> calls p0 = calls p ->
            let q := with_lockOverlayShown true
                       (with_page (perform ShowLockOverlay (page (playBlockedLollAd url p0)))
                          (with_displayed false (playBlockedLollAd url p0))) in
            calls q = app (calls p) [UpdateVideoLink url 86400 86400]
            /\ isAdPlaying (ads (page q)) = true
            /\ lockOverlayShown q = true
            /\ controlsHidden q = true
            /\ moreEpisodesHidden q = true
            /\ controlsDisplayed q = false
            /\ isAdPlaying (ads (page (step e q))) = false
            /\ pendingAdType (ads (page (step e q))) = None
            /\ adCountdownInterval (win (page (step e q))) = None
            /\ calls (step e q) = calls q
            /\ controlsHidden (step e q) = false
            /\ controlsDisplayed (step e q) = false
            /\ moreEpisodesHidden (step e q) = true
            /\ lockOverlayShown (step e q) = true
            /\ (forall watch upkeep currentTime,
                  onTimeUpdateWith watch upkeep currentTime (step e q)
                  = (exitFullscreenIfNeeded
                       (with_page (perform ArtPause (page (step e q))) (step e q)),
                     Normal ()))).
  { intros p0 _ _ Hplugin0 Hcalls. cbv zeta.
    unfold playBlockedLollAd, exitFullscreenIfNeeded.
    destruct (ios p0 && fullscreen p0 && _); cbn [with_fullscreen adPlugin];
      rewrite Hplugin0; destruct He as [-> | ->]; cbn [step];
      unfold onTimeUpdateWith, onAdError, onAdClosed, clearCountdownHandle,
        clearAdCountdown;
      simpl;
      destruct (adCountdownInterval (win (page p0))) eqn:Hhandle; simpl;
      destruct (actionButtons p0) eqn:Hbuttons; simpl;
      rewrite ?Hhandle, ?Hbuttons, ?Hcalls; done. }
  unfold showLockOverlay, leaveFullscreen.
  destruct (bool_decide (device (page (with_page (perform ArtPause (page p)) p))
                         = Some "web")).
  - rewrite Hblocked by done. intros _. by apply Hshape.
  - destruct (hostBridge (with_page (perform ArtPause (page p)) p)); [| done].
    rewrite Hblocked by done. intros _. by apply Hshape.
Qed.

(** X24: the viewer comes to a locked episode; the blocked ad closes. *)
Lemma controls_after_blocked_ad_witness :
  controlsHidden (step AdClosed (showLockOverlay viewer).1) = false
  /\ controlsDisplayed (step AdClosed (showLockOverlay viewer).1) = false
  /\ lockOverlayShown (step AdClosed (showLockOverlay viewer).1) = true.
Proof.
  destruct (controls_after_blocked_ad (VStr "http://ads/blocked.mp4") viewer AdClosed)
    as (_ & _ & _ & _ & _ & _ & _ & _ & _ & _ & Hcontrols & Hdisplay & _ & Hlock & _).
  - reflexivity.
  - reflexivity.
  - reflexivity.
  - reflexivity.
  - left. reflexivity.
  - split_and!; assumption.
Defined.

End AdsFacts.
